(** * whatsmeow / store / sqlstore: a shallow embedding of the SQL store

    The development follows [store/sqlstore/store.go]: the dialect layer
    ([dialectQuery]) is a function on byte strings, the database handle is an
    explicit state threaded through every call, and each query constant of the
    source is given its relational meaning on finite maps keyed by the primary
    key of its table.  Calls are taken one after the other: the two mutexes
    of the store serialise the methods that hold them.  The schema upgrades
    of [store/sqlstore/upgrade.go] follow in module [Migration]. *)

From Stdlib Require Import ZArith Ascii String DecimalString.
From Stdlib.Strings Require Import Byte.
From stdpp Require Import base decidable option list numbers countable gmap fin_maps strings sorting.

Local Open Scope string_scope.

(** ** Go's [strings] and [fmt] functions used by the store *)

Module GoStrings.

(** [strings.HasPrefix(s, p)] on byte strings. *)
Fixpoint HasPrefix (s p : string) {struct p} : bool :=
  match p with
  | EmptyString => true
  | String c p' =>
      match s with
      | EmptyString => false
      | String d s' => if Ascii.eqb d c then HasPrefix s' p' else false
      end
  end.

(** [strings.Contains(s, substr)]. *)
Fixpoint Contains (s substr : string) : bool :=
  if HasPrefix s substr then true
  else match s with
       | EmptyString => false
       | String _ s' => Contains s' substr
       end.

(** The scanning loop of [strings.Replace(s, old, new, -1)] for a non-empty
    [old]: matches are taken left to right and do not overlap.  [skip] counts
    the bytes of the current match that are still to be dropped. *)
Fixpoint replace_from (old new : string) (skip : nat) (s : string) : string :=
  match s with
  | EmptyString => EmptyString
  | String c s' =>
      match skip with
      | S k => replace_from old new k s'
      | O =>
          if HasPrefix s old
          then new ++ replace_from old new (String.length old - 1) s'
          else String c (replace_from old new 0 s')
      end
  end.

(** With an empty [old] Go inserts [new] before every rune and at the end;
    on single-byte runes that is [interleave].  The store only ever passes
    non-empty literals. *)
Fixpoint interleave (new s : string) : string :=
  match s with
  | EmptyString => new
  | String c s' => new ++ String c (interleave new s')
  end.

(** [strings.ReplaceAll(s, old, new)], also [strings.Replace(s, old, new, -1)]. *)
Definition ReplaceAll (s old new : string) : string :=
  match old with
  | EmptyString => interleave new s
  | String _ _ => replace_from old new 0 s
  end.

(** [fmt.Sprintf("%d", i)] for a non-negative [i]. *)
Definition Sprintf_d (i : nat) : string :=
  NilEmpty.string_of_uint (Nat.to_uint i).

(** [fmt.Sprintf("$%d", i)]. *)
Definition Sprintf_marker (i : nat) : string := "$" ++ Sprintf_d i.

End GoStrings.

Import GoStrings.

(** ** The dialect layer *)

(** The loop [for i := 1; i <= 20; i++ { result = ReplaceAll(result, "$i", "?") }]. *)
Definition replace_markers (query : string) : string :=
  fold_left (fun result i => ReplaceAll result (Sprintf_marker i) "?") (seq 1 20) query.

(** The MySQL-only block of [dialectQuery], one [let] per statement. *)
Definition mysql_rewrites (result : string) : string :=
  let result := ReplaceAll result "key FROM" "`key` FROM" in
  let result := ReplaceAll result "key_id, key FROM" "key_id, `key` FROM" in
  let result := ReplaceAll result "(jid, key_id, key, uploaded)" "(jid, key_id, `key`, uploaded)" in
  let result := ReplaceAll result "message_id, key)" "message_id, `key`)" in
  let result := ReplaceAll result
    "WHERE VALUES(timestamp) > whatsmeow_app_state_sync_keys.timestamp"
    "" in
  let result := ReplaceAll result
    "ON CONFLICT (our_jid, their_id) DO UPDATE SET identity=excluded.identity"
    "ON DUPLICATE KEY UPDATE identity=VALUES(identity)" in
  let result := ReplaceAll result
    "ON CONFLICT (our_jid, their_id) DO UPDATE SET session=excluded.session"
    "ON DUPLICATE KEY UPDATE session=VALUES(session)" in
  let result := ReplaceAll result
    "ON CONFLICT (our_jid, chat_jid) DO UPDATE SET"
    "ON DUPLICATE KEY UPDATE" in
  let result := ReplaceAll result
    "ON CONFLICT (our_jid, chat_id, sender_id) DO UPDATE SET sender_key=excluded.sender_key"
    "ON DUPLICATE KEY UPDATE sender_key=VALUES(sender_key)" in
  let result := ReplaceAll result
    "ON CONFLICT (jid, key_id) DO UPDATE"
    "ON DUPLICATE KEY UPDATE" in
  let result := ReplaceAll result
    "ON CONFLICT (jid, name) DO UPDATE SET version=excluded.version, hash=excluded.hash"
    "ON DUPLICATE KEY UPDATE version=VALUES(version), hash=VALUES(hash)" in
  let result := ReplaceAll result
    "ON CONFLICT (our_jid, their_jid) DO UPDATE SET first_name=excluded.first_name, full_name=excluded.full_name"
    "ON DUPLICATE KEY UPDATE first_name=VALUES(first_name), full_name=VALUES(full_name)" in
  let result := ReplaceAll result
    "ON CONFLICT (our_jid, their_jid) DO UPDATE SET push_name=excluded.push_name"
    "ON DUPLICATE KEY UPDATE push_name=VALUES(push_name)" in
  let result := ReplaceAll result
    "ON CONFLICT (our_jid, their_jid) DO UPDATE SET business_name=excluded.business_name"
    "ON DUPLICATE KEY UPDATE business_name=VALUES(business_name)" in
  let result := ReplaceAll result
    "ON CONFLICT (our_jid, chat_jid, sender_jid, message_id) DO NOTHING"
    "ON DUPLICATE KEY UPDATE our_jid=our_jid" in
  let result := ReplaceAll result
    "ON CONFLICT (jid, key_id) DO UPDATE SET key_data=excluded.key_data, timestamp=excluded.timestamp, fingerprint=excluded.fingerprint WHERE excluded.timestamp > whatsmeow_app_state_sync_keys.timestamp"
    "ON DUPLICATE KEY UPDATE key_data=VALUES(key_data), timestamp=VALUES(timestamp), fingerprint=VALUES(fingerprint) WHERE VALUES(timestamp) > whatsmeow_app_state_sync_keys.timestamp" in
  result.

(** [func (s *SQLStore) dialectQuery(query string) string]; the receiver is
    only read for its [dialect] field. *)
Definition dialectQuery (dialect query : string) : string :=
  if String.eqb dialect "mysql" || String.eqb dialect "sqlite3" then
    let result := replace_markers query in
    if String.eqb dialect "mysql" then mysql_rewrites result else result
  else query.





(** Templates all of whose markers are among [$1 .. $9]. *)
Definition is_digit19 (c : ascii) : bool :=
  (49 <=? nat_of_ascii c)%nat && (nat_of_ascii c <=? 57)%nat.


(** Query texts of [store.go], as written there. *)
Definition getIdentityQuery_sql : string :=
  "SELECT identity FROM whatsmeow_identity_keys WHERE our_jid=$1 AND their_id=$2".
Definition deleteAllIdentitiesQuery_sql : string :=
  "DELETE FROM whatsmeow_identity_keys WHERE our_jid=$1 AND their_id LIKE $2".
Definition deleteIdentityQuery_sql : string :=
  "DELETE FROM whatsmeow_identity_keys WHERE our_jid=$1 AND their_id=$2".
Definition getMsgSecret_sql : string :=
  "SELECT key FROM whatsmeow_message_secrets WHERE our_jid=$1 AND chat_jid=$2 AND sender_jid=$3 AND message_id=$4".

Definition putChatSettingQueryPostgres_sql : string :=
  "
		INSERT INTO whatsmeow_chat_settings (our_jid, chat_jid, %[1]s) VALUES ($1, $2, $3)
		ON CONFLICT (our_jid, chat_jid) DO UPDATE SET %[1]s=excluded.%[1]s
	".
Definition putChatSettingQueryMySQL_sql : string :=
  "
		INSERT INTO whatsmeow_chat_settings (our_jid, chat_jid, %[1]s) VALUES (?, ?, ?)
		ON DUPLICATE KEY UPDATE %[1]s=VALUES(%[1]s)
	".
Definition putChatSettingQuerySQLite_sql : string :=
  "
		INSERT INTO whatsmeow_chat_settings (our_jid, chat_jid, %[1]s) VALUES (?, ?, ?)
		ON CONFLICT (our_jid, chat_jid) DO UPDATE SET %[1]s=excluded.%[1]s
	".

(** [fmt.Sprintf(format, a)] for a format whose only verb is [%[1]s]. *)
Definition Sprintf_1s (format a : string) : string := ReplaceAll format "%[1]s" a.

(** Simultaneous replacement of every pair [$e] with [P e] by [?]: what one
    pass of the marker loop computes, and also what all of them compute. *)
Fixpoint replace_pairs (P : ascii -> bool) (s : string) : string :=
  match s with
  | EmptyString => EmptyString
  | String c s' =>
      match s' with
      | String e s'' =>
          if Ascii.eqb c "$" && P e
          then String "?" (replace_pairs P s'')
          else String c (replace_pairs P s')
      | EmptyString => String c EmptyString
      end
  end.

Definition head_sat (P : ascii -> bool) (s : string) : bool :=
  match s with
  | String e _ => P e
  | EmptyString => false
  end.

Fixpoint no_pair (P : ascii -> bool) (s : string) : bool :=
  match s with
  | EmptyString => true
  | String c s' => negb (Ascii.eqb c "$" && head_sat P s') && no_pair P s'
  end.

(** ** Values, errors and rows *)

Abbreviation bytes := (list byte).

#[global] Instance byte_eq_dec : EqDecision byte := Byte.byte_eq_dec.
#[global] Instance byte_countable : Countable byte :=
  inj_countable Byte.to_N Byte.of_N Byte.of_to_N.

(** Go [error] values that the store creates or inspects. *)
Inductive error : Type :=
  | ErrNoRows                                    (* sql.ErrNoRows *)
  | ErrInvalidLength                             (* var ErrInvalidLength *)
  | DriverError (msg : string)                   (* reported by the back-end *)
  | Errorf_w (context : string) (cause : error)  (* fmt.Errorf("<context>: %w", cause) *)
  | Errorf_d (before : string) (n : nat) (after : string). (* fmt.Errorf("... %d ...", n) *)

(** [err.Error()]. *)
Fixpoint Error (e : error) : string :=
  match e with
  | ErrNoRows => "sql: no rows in result set"
  | ErrInvalidLength => "database returned byte array with illegal length"
  | DriverError msg => msg
  | Errorf_w context cause => context ++ ": " ++ Error cause
  | Errorf_d before n after => before ++ Sprintf_d n ++ after
  end.

(** [errors.Is(err, sql.ErrNoRows)]: follows the [%w] chain. *)
Fixpoint is_ErrNoRows (e : error) : bool :=
  match e with
  | ErrNoRows => true
  | Errorf_w _ cause => is_ErrNoRows cause
  | _ => false
  end.

(** The interface of [types.JID] that the store relies on; the type itself
    is declared in package [types]. *)
Class JIDType (JID : Type) := {
  JID_eq_dec :: EqDecision JID;
  JID_countable :: Countable JID;
  ToNonAD : JID -> JID;          (* jid.ToNonAD() *)
  JID_String : JID -> string;    (* jid.String(), also what jid.Value() hands to the driver *)
  IsEmpty : JID -> bool;         (* jid.IsEmpty() *)
}.

(** [JID.Scan], the [sql.Scanner] of [types.JID]: the JID a stored text
    parses to, or nothing where it does not parse. *)
Class JIDScanner (JID : Type) := {
  JID_Scan : string -> option JID;
}.

(** [time.Time], as far as [IsZero] and [Unix] look at it. *)
Record Time := { unix : Z; nanosecond : Z }.
Definition IsZero (t : Time) : bool :=
  (unix t =? -62135596800)%Z && (nanosecond t =? 0)%Z.
Definition Unix (t : Time) : Z := unix t.

Record PreKey := { KeyID : Z; Priv : bytes }.
Record AppStateSyncKey := { Data : bytes; Fingerprint : bytes; Timestamp : Z }.
Record AppStateMutationMAC := { IndexMAC : bytes; ValueMAC : bytes }.
Record ContactInfo := {
  Found : bool; FirstName : string; FullName : string;
  PushName : string; BusinessName : string }.
Record LocalChatSettings := {
  settings_Found : bool; MutedUntil : option Z; Pinned : bool; Archived : bool }.

(** Rows, without the columns of the primary key. *)
Record pre_key_row := { pk_key : bytes; pk_uploaded : bool }.
Record sync_key_row := { sk_key_data : bytes; sk_timestamp : Z; sk_fingerprint : bytes }.
Record version_row := { av_version : Z; av_hash : bytes }.
Record contact_row := {
  ct_first_name : option string; ct_full_name : option string;
  ct_push_name : option string; ct_business_name : option string }.
Record chat_settings_row := { cs_muted_until : Z; cs_pinned : bool; cs_archived : bool }.

(** The tables of the schema ([upgradeV1], [upgradeV3]) that the modelled
    operations touch, each a finite map from its primary key. *)
Record DB := {
  whatsmeow_identity_keys : gmap (string * string) bytes;
  whatsmeow_pre_keys : gmap (string * Z) pre_key_row;
  whatsmeow_app_state_sync_keys : gmap (string * bytes) sync_key_row;
  whatsmeow_app_state_version : gmap (string * string) version_row;
  whatsmeow_app_state_mutation_macs : gmap (string * string * Z * bytes) bytes;
  whatsmeow_contacts : gmap (string * string) contact_row;
  whatsmeow_chat_settings : gmap (string * string) chat_settings_row;
  whatsmeow_message_secrets : gmap (string * string * string * string) bytes;
}.

Definition empty_DB : DB :=
  {| whatsmeow_identity_keys := ∅; whatsmeow_pre_keys := ∅;
     whatsmeow_app_state_sync_keys := ∅; whatsmeow_app_state_version := ∅;
     whatsmeow_app_state_mutation_macs := ∅; whatsmeow_contacts := ∅;
     whatsmeow_chat_settings := ∅; whatsmeow_message_secrets := ∅ |}.

(** ** The database handle *)

(** [SQLStore], its immutable part: the dialect tag of the container and the
    account the store belongs to. *)
Record SQLStore := { dialect : string; JID : string }.

(** What a run can change or observe: the committed tables, the working copy
    of the transaction opened by [Begin] (if one is open), the errors the
    back-end is going to report (one entry per round trip: [Some msg] makes
    that round trip fail with [msg] and leaves the tables alone), the
    [time.Sleep] calls made so far in milliseconds, and the contact cache.
    What a back-end refuses for reasons the tables modelled here do not show
    (a text in another dialect's syntax, a foreign-key or CHECK violation, a
    lock wait timeout, a lost connection) reaches the store as such a
    back-end error. *)
Record World {types_JID : Type} `{JIDType types_JID} := {
  committed : DB;
  open_tx : option DB;
  faults : list (option string);
  slept : list Z;
  contactCache : gmap types_JID ContactInfo;
}.
Arguments World types_JID {_}.

Declare Scope store_scope.
Delimit Scope store_scope with store.

Section Handle.
Context {types_JID : Type} `{JIDType types_JID}.

Definition set_committed (d : DB) (w : World types_JID) : World types_JID :=
  {| committed := d; open_tx := open_tx w; faults := faults w;
     slept := slept w; contactCache := contactCache w |}.
Definition set_open_tx (t : option DB) (w : World types_JID) : World types_JID :=
  {| committed := committed w; open_tx := t; faults := faults w;
     slept := slept w; contactCache := contactCache w |}.
Definition set_faults (f : list (option string)) (w : World types_JID) : World types_JID :=
  {| committed := committed w; open_tx := open_tx w; faults := f;
     slept := slept w; contactCache := contactCache w |}.
Definition set_slept (l : list Z) (w : World types_JID) : World types_JID :=
  {| committed := committed w; open_tx := open_tx w; faults := faults w;
     slept := l; contactCache := contactCache w |}.
Definition set_contactCache (c : gmap types_JID ContactInfo) (w : World types_JID)
  : World types_JID :=
  {| committed := committed w; open_tx := open_tx w; faults := faults w;
     slept := slept w; contactCache := c |}.

(** Store methods are state transformers over [World]. *)
Definition M (A : Type) : Type := World types_JID -> A * World types_JID.

Definition ret {A : Type} (a : A) : M A := fun w => (a, w).
Definition bind {A B : Type} (m : M A) (k : A -> M B) : M B :=
  fun w => let '(a, w') := m w in k a w'.

Notation "x <- m ;; k" := (bind m (fun x => k))
  (at level 20, m at level 99, k at level 200, only parsing) : store_scope.
Notation "' p <- m ;; k" := (bind m (fun p => k))
  (at level 20, p pattern, m at level 99, k at level 200, only parsing) : store_scope.
Local Open Scope store_scope.

(** The outcome the back-end has in store for the next round trip. *)
Definition next_fault : M (option string) :=
  fun w => match faults w with
           | [] => (None, w)
           | f :: rest => (f, set_faults rest w)
           end.

(** [type execable interface { Exec(...) }], implemented by [*sql.DB] and [*sql.Tx]. *)
Inductive execable := sql_DB | sql_Tx.

Definition tx_done : error := DriverError "sql: transaction has already been committed or rolled back".

(** A statement is a partial update of the tables. *)
Definition statement := DB -> error + DB.

(** [h.Exec(query, args...)]: on [*sql.DB] the statement commits at once, on
    [*sql.Tx] it changes the working copy. *)
Definition Exec (h : execable) (stmt : statement) : M (option error) :=
  f <- next_fault ;;
  match f with
  | Some msg => ret (Some (DriverError msg))
  | None => fun w =>
      match h with
      | sql_DB =>
          match stmt (committed w) with
          | inl e => (Some e, w)
          | inr d => (None, set_committed d w)
          end
      | sql_Tx =>
          match open_tx w with
          | None => (Some tx_done, w)
          | Some t =>
              match stmt t with
              | inl e => (Some e, w)
              | inr d => (None, set_open_tx (Some d) w)
              end
          end
      end
  end.

(** [s.db.QueryRow(query, args...).Scan(...)]: the first matching row, or
    [sql.ErrNoRows]. *)
Definition QueryRow {A : Type} (q : DB -> option A) : M (error + A) :=
  f <- next_fault ;;
  match f with
  | Some msg => ret (inl (DriverError msg))
  | None => fun w =>
      match q (committed w) with
      | None => (inl ErrNoRows, w)
      | Some row => (inr row, w)
      end
  end.

(** [s.db.Query(query, args...)] with the [rows.Next()] loop run to its end:
    the selected rows in the order of the statement.  (An error while the rows
    are fetched would end the loop early; the store never looks at
    [rows.Err()], and such an error is left out here.) *)
Definition Query {A : Type} (q : DB -> list A) : M (error + list A) :=
  f <- next_fault ;;
  match f with
  | Some msg => ret (inl (DriverError msg))
  | None => fun w => (inr (q (committed w)), w)
  end.

(** [s.db.Begin()]. *)
Definition Begin : M (option error) :=
  f <- next_fault ;;
  match f with
  | Some msg => ret (Some (DriverError msg))
  | None => fun w => (None, set_open_tx (Some (committed w)) w)
  end.

(** [tx.Commit()]: a failed commit leaves the committed tables as they were. *)
Definition Commit : M (option error) :=
  f <- next_fault ;;
  fun w =>
    match f with
    | Some msg => (Some (DriverError msg), set_open_tx None w)
    | None =>
        match open_tx w with
        | None => (Some tx_done, w)
        | Some t => (None, set_open_tx None (set_committed t w))
        end
    end.

(** [tx.Rollback()]; the store ignores its result. *)
Definition Rollback : M unit :=
  fun w => (tt, set_open_tx None w).

(** [time.Sleep(ms * time.Millisecond)]. *)
Definition Sleep (ms : Z) : M unit :=
  fun w => (tt, set_slept (slept w ++ [ms]) w).

End Handle.

Notation "x <- m ;; k" := (bind m (fun x => k))
  (at level 20, m at level 99, k at level 200, only parsing) : store_scope.
Notation "' p <- m ;; k" := (bind m (fun p => k))
  (at level 20, p pattern, m at level 99, k at level 200, only parsing) : store_scope.
Local Open Scope store_scope.

(** ** The meaning of the query constants

    Each definition carries the name of the query constant of [store.go] it
    interprets; the arguments are the positional parameters in order.  The
    inline MySQL and SQLite texts of a method differ from the constant in
    syntax only unless a separate definition is given for them. *)

Module SQL.

Definition with_identity_keys (f : gmap (string * string) bytes -> gmap (string * string) bytes)
  (d : DB) : DB :=
  {| whatsmeow_identity_keys := f (whatsmeow_identity_keys d);
     whatsmeow_pre_keys := whatsmeow_pre_keys d;
     whatsmeow_app_state_sync_keys := whatsmeow_app_state_sync_keys d;
     whatsmeow_app_state_version := whatsmeow_app_state_version d;
     whatsmeow_app_state_mutation_macs := whatsmeow_app_state_mutation_macs d;
     whatsmeow_contacts := whatsmeow_contacts d;
     whatsmeow_chat_settings := whatsmeow_chat_settings d;
     whatsmeow_message_secrets := whatsmeow_message_secrets d |}.

Definition with_pre_keys (f : gmap (string * Z) pre_key_row -> gmap (string * Z) pre_key_row)
  (d : DB) : DB :=
  {| whatsmeow_identity_keys := whatsmeow_identity_keys d;
     whatsmeow_pre_keys := f (whatsmeow_pre_keys d);
     whatsmeow_app_state_sync_keys := whatsmeow_app_state_sync_keys d;
     whatsmeow_app_state_version := whatsmeow_app_state_version d;
     whatsmeow_app_state_mutation_macs := whatsmeow_app_state_mutation_macs d;
     whatsmeow_contacts := whatsmeow_contacts d;
     whatsmeow_chat_settings := whatsmeow_chat_settings d;
     whatsmeow_message_secrets := whatsmeow_message_secrets d |}.

Definition with_app_state_sync_keys
  (f : gmap (string * bytes) sync_key_row -> gmap (string * bytes) sync_key_row)
  (d : DB) : DB :=
  {| whatsmeow_identity_keys := whatsmeow_identity_keys d;
     whatsmeow_pre_keys := whatsmeow_pre_keys d;
     whatsmeow_app_state_sync_keys := f (whatsmeow_app_state_sync_keys d);
     whatsmeow_app_state_version := whatsmeow_app_state_version d;
     whatsmeow_app_state_mutation_macs := whatsmeow_app_state_mutation_macs d;
     whatsmeow_contacts := whatsmeow_contacts d;
     whatsmeow_chat_settings := whatsmeow_chat_settings d;
     whatsmeow_message_secrets := whatsmeow_message_secrets d |}.

Definition with_app_state_version
  (f : gmap (string * string) version_row -> gmap (string * string) version_row)
  (d : DB) : DB :=
  {| whatsmeow_identity_keys := whatsmeow_identity_keys d;
     whatsmeow_pre_keys := whatsmeow_pre_keys d;
     whatsmeow_app_state_sync_keys := whatsmeow_app_state_sync_keys d;
     whatsmeow_app_state_version := f (whatsmeow_app_state_version d);
     whatsmeow_app_state_mutation_macs := whatsmeow_app_state_mutation_macs d;
     whatsmeow_contacts := whatsmeow_contacts d;
     whatsmeow_chat_settings := whatsmeow_chat_settings d;
     whatsmeow_message_secrets := whatsmeow_message_secrets d |}.

Definition with_app_state_mutation_macs
  (f : gmap (string * string * Z * bytes) bytes -> gmap (string * string * Z * bytes) bytes)
  (d : DB) : DB :=
  {| whatsmeow_identity_keys := whatsmeow_identity_keys d;
     whatsmeow_pre_keys := whatsmeow_pre_keys d;
     whatsmeow_app_state_sync_keys := whatsmeow_app_state_sync_keys d;
     whatsmeow_app_state_version := whatsmeow_app_state_version d;
     whatsmeow_app_state_mutation_macs := f (whatsmeow_app_state_mutation_macs d);
     whatsmeow_contacts := whatsmeow_contacts d;
     whatsmeow_chat_settings := whatsmeow_chat_settings d;
     whatsmeow_message_secrets := whatsmeow_message_secrets d |}.

Definition with_contacts
  (f : gmap (string * string) contact_row -> gmap (string * string) contact_row)
  (d : DB) : DB :=
  {| whatsmeow_identity_keys := whatsmeow_identity_keys d;
     whatsmeow_pre_keys := whatsmeow_pre_keys d;
     whatsmeow_app_state_sync_keys := whatsmeow_app_state_sync_keys d;
     whatsmeow_app_state_version := whatsmeow_app_state_version d;
     whatsmeow_app_state_mutation_macs := whatsmeow_app_state_mutation_macs d;
     whatsmeow_contacts := f (whatsmeow_contacts d);
     whatsmeow_chat_settings := whatsmeow_chat_settings d;
     whatsmeow_message_secrets := whatsmeow_message_secrets d |}.

Definition with_chat_settings
  (f : gmap (string * string) chat_settings_row -> gmap (string * string) chat_settings_row)
  (d : DB) : DB :=
  {| whatsmeow_identity_keys := whatsmeow_identity_keys d;
     whatsmeow_pre_keys := whatsmeow_pre_keys d;
     whatsmeow_app_state_sync_keys := whatsmeow_app_state_sync_keys d;
     whatsmeow_app_state_version := whatsmeow_app_state_version d;
     whatsmeow_app_state_mutation_macs := whatsmeow_app_state_mutation_macs d;
     whatsmeow_contacts := whatsmeow_contacts d;
     whatsmeow_chat_settings := f (whatsmeow_chat_settings d);
     whatsmeow_message_secrets := whatsmeow_message_secrets d |}.

Definition with_message_secrets
  (f : gmap (string * string * string * string) bytes
       -> gmap (string * string * string * string) bytes)
  (d : DB) : DB :=
  {| whatsmeow_identity_keys := whatsmeow_identity_keys d;
     whatsmeow_pre_keys := whatsmeow_pre_keys d;
     whatsmeow_app_state_sync_keys := whatsmeow_app_state_sync_keys d;
     whatsmeow_app_state_version := whatsmeow_app_state_version d;
     whatsmeow_app_state_mutation_macs := whatsmeow_app_state_mutation_macs d;
     whatsmeow_contacts := whatsmeow_contacts d;
     whatsmeow_chat_settings := whatsmeow_chat_settings d;
     whatsmeow_message_secrets := f (whatsmeow_message_secrets d) |}.

(** The error of an [INSERT] without conflict clause that meets an existing
    primary key. *)
Definition unique_violation : error := DriverError "UNIQUE constraint failed".
(** The error of a statement that does not parse. *)
Definition syntax_error : error := DriverError "syntax error".

(** [x LIKE pattern]: [%] matches any run of bytes, [_] any one byte, every
    other byte itself.  Escape bytes and case folding, which differ between
    the back-ends, are left out. *)
Fixpoint LIKE (pattern x : string) : bool :=
  match pattern with
  | EmptyString => match x with EmptyString => true | _ => false end
  | String c pattern' =>
      if Ascii.eqb c "%" then
        (fix any (x : string) : bool :=
           LIKE pattern' x
           || match x with
              | EmptyString => false
              | String _ x' => any x'
              end) x
      else
        match x with
        | EmptyString => false
        | String d x' => (Ascii.eqb c "_" || Ascii.eqb c d) && LIKE pattern' x'
        end
  end.

(** [INSERT INTO whatsmeow_identity_keys (our_jid, their_id, identity) VALUES ($1, $2, $3)
     ON CONFLICT (our_jid, their_id) DO UPDATE SET identity=excluded.identity] *)
Definition putIdentityQuery (our_jid their_id : string) (identity : bytes) : statement :=
  fun d => inr (with_identity_keys (insert (our_jid, their_id) identity) d).

(** [DELETE FROM whatsmeow_identity_keys WHERE our_jid=$1 AND their_id LIKE $2] *)
Definition deleteAllIdentitiesQuery (our_jid pattern : string) : statement :=
  fun d => inr (with_identity_keys
                  (filter (fun kv => ~ (kv.1.1 = our_jid /\ LIKE pattern kv.1.2 = true))) d).

(** [DELETE FROM whatsmeow_identity_keys WHERE our_jid=$1 AND their_id=$2] *)
Definition deleteIdentityQuery (our_jid their_id : string) : statement :=
  fun d => inr (with_identity_keys (delete (our_jid, their_id)) d).

(** [SELECT identity FROM whatsmeow_identity_keys WHERE our_jid=$1 AND their_id=$2] *)
Definition getIdentityQuery (our_jid their_id : string) (d : DB) : option bytes :=
  whatsmeow_identity_keys d !! (our_jid, their_id).

(** [MAX] over a column: [NULL] on no rows. *)
Definition MAX (l : list Z) : option Z :=
  foldr (fun x acc => Some (match acc with None => x | Some y => Z.max x y end)) None l.

(** The [key_id]s of the pre-key rows of one account. *)
Definition pre_key_ids (jid : string) (d : DB) : list Z :=
  omap (fun kv : (string * Z) * pre_key_row =>
          if decide (kv.1.1 = jid) then Some kv.1.2 else None)
       (map_to_list (whatsmeow_pre_keys d)).

(** [SELECT MAX(key_id) FROM whatsmeow_pre_keys WHERE jid=$1]: always one row. *)
Definition getLastPreKeyIDQuery (jid : string) (d : DB) : option (option Z) :=
  Some (MAX (pre_key_ids jid d)).

(** [INSERT INTO whatsmeow_pre_keys (jid, key_id, `key`, uploaded) VALUES ($1, $2, $3, $4)] *)
Definition insertPreKeyQuery (jid : string) (key_id : Z) (key : bytes) (uploaded : bool)
  : statement :=
  fun d =>
    match whatsmeow_pre_keys d !! (jid, key_id) with
    | Some _ => inl unique_violation
    | None =>
        inr (with_pre_keys
               (insert (jid, key_id) {| pk_key := key; pk_uploaded := uploaded |}) d)
    end.


(** The rows of one account that are not uploaded, as [(key_id, key)]. *)
Definition unuploaded_pre_keys (jid : string) (d : DB) : list (Z * bytes) :=
  omap (fun kv : (string * Z) * pre_key_row =>
          if decide (kv.1.1 = jid /\ pk_uploaded kv.2 = false)
          then Some (kv.1.2, pk_key kv.2) else None)
       (map_to_list (whatsmeow_pre_keys d)).

(** [ORDER BY key_id]. *)
Definition by_key_id (a b : Z * bytes) : Prop := (a.1 <= b.1)%Z.
#[global] Instance by_key_id_dec : RelDecision by_key_id :=
  fun a b => decide (a.1 <= b.1)%Z.

(** [SELECT key_id, `key` FROM whatsmeow_pre_keys WHERE jid=$1 AND uploaded=false
     ORDER BY key_id LIMIT $2] *)
Definition getUnuploadedPreKeysQuery (jid : string) (limit : nat) (d : DB)
  : list (Z * bytes) :=
  take limit (merge_sort by_key_id (unuploaded_pre_keys jid d)).

(** [SELECT key_id, `key` FROM whatsmeow_pre_keys WHERE jid=$1 AND key_id=$2] *)
Definition getPreKeyQuery (jid : string) (key_id : Z) (d : DB) : option (Z * bytes) :=
  (fun row => (key_id, pk_key row)) <$> whatsmeow_pre_keys d !! (jid, key_id).

(** [DELETE FROM whatsmeow_pre_keys WHERE jid=$1 AND key_id=$2] *)
Definition deletePreKeyQuery (jid : string) (key_id : Z) : statement :=
  fun d => inr (with_pre_keys (delete (jid, key_id)) d).


(** [INSERT INTO whatsmeow_app_state_sync_keys (jid, key_id, key_data, timestamp, fingerprint)
     VALUES ($1, $2, $3, $4, $5)
     ON CONFLICT (jid, key_id) DO UPDATE
       SET key_data=excluded.key_data, timestamp=excluded.timestamp, fingerprint=excluded.fingerprint
       WHERE excluded.timestamp > whatsmeow_app_state_sync_keys.timestamp] *)
Definition putAppStateSyncKeyQuery (jid : string) (key_id key_data : bytes)
  (timestamp : Z) (fingerprint : bytes) : statement :=
  fun d =>
    let excluded := {| sk_key_data := key_data; sk_timestamp := timestamp;
                       sk_fingerprint := fingerprint |} in
    match whatsmeow_app_state_sync_keys d !! (jid, key_id) with
    | Some row =>
        if (sk_timestamp row <? timestamp)%Z
        then inr (with_app_state_sync_keys (insert (jid, key_id) excluded) d)
        else inr d
    | None => inr (with_app_state_sync_keys (insert (jid, key_id) excluded) d)
    end.

(** The text [PutAppStateSyncKey] sends on MySQL:
    [INSERT INTO whatsmeow_app_state_sync_keys (jid, key_id, key_data, timestamp, fingerprint)
     VALUES (?, ?, ?, ?, ?)
     ON DUPLICATE KEY UPDATE key_data=VALUES(key_data), timestamp=VALUES(timestamp),
       fingerprint=VALUES(fingerprint)] *)
Definition putAppStateSyncKeyMySQL (jid : string) (key_id key_data : bytes)
  (timestamp : Z) (fingerprint : bytes) : statement :=
  fun d =>
    inr (with_app_state_sync_keys
           (insert (jid, key_id)
              {| sk_key_data := key_data; sk_timestamp := timestamp;
                 sk_fingerprint := fingerprint |}) d).

(** [SELECT key_data, timestamp, fingerprint FROM whatsmeow_app_state_sync_keys
     WHERE jid=$1 AND key_id=$2]; the MySQL fallback compares [HEX(key_id)]
    with the hexadecimal form of the same id and selects the same row. *)
Definition getAppStateSyncKeyQuery (jid : string) (key_id : bytes) (d : DB)
  : option sync_key_row :=
  whatsmeow_app_state_sync_keys d !! (jid, key_id).

(** [SELECT version, hash FROM whatsmeow_app_state_version WHERE jid=$1 AND name=$2] *)
Definition getAppStateVersionQuery (jid name : string) (d : DB) : option version_row :=
  whatsmeow_app_state_version d !! (jid, name).

(** The row with the highest value of [rank]; of two rows of the same rank
    the back-end is free to return either, here the one met first. *)
Definition highest {A : Type} (rank : A -> Z) (rows : list A) : option A :=
  foldr (fun r acc =>
           match acc with
           | None => Some r
           | Some best => if (rank best <? rank r)%Z then Some r else Some best
           end) None rows.

(** The sync keys of one account, as [(key_id, timestamp)]. *)
Definition sync_key_ids (jid : string) (d : DB) : list (bytes * Z) :=
  omap (fun kv : (string * bytes) * sync_key_row =>
          if decide (kv.1.1 = jid) then Some (kv.1.2, sk_timestamp kv.2) else None)
       (map_to_list (whatsmeow_app_state_sync_keys d)).

(** [SELECT key_id FROM whatsmeow_app_state_sync_keys WHERE jid=$1
     ORDER BY timestamp DESC LIMIT 1] *)
Definition getLatestAppStateSyncKeyIDQuery (jid : string) (d : DB) : option bytes :=
  fst <$> highest snd (sync_key_ids jid d).


(** [DELETE FROM whatsmeow_app_state_version WHERE jid=$1 AND name=$2].  The
    mutation MACs refer to their version row with [FOREIGN KEY (jid, name)
    REFERENCES whatsmeow_app_state_version(jid, name) ON DELETE CASCADE]
    ([upgradeV1], [upgradeV1MySQL]): they go with the row that is deleted. *)
Definition deleteAppStateVersionQuery (jid name : string) : statement :=
  fun d =>
    match whatsmeow_app_state_version d !! (jid, name) with
    | None => inr d
    | Some _ =>
        inr (with_app_state_mutation_macs
               (filter (fun kv : (string * string * Z * bytes) * bytes =>
                          ~ (kv.1.1.1.1 = jid /\ kv.1.1.1.2 = name)))
               (with_app_state_version (delete (jid, name)) d))
    end.

(** The rows a mutation-MAC delete removes: those of the account and the
    name whose [index_mac] is one of the given ones, of every version. *)
Definition deleteMutationMACs (jid name : string) (index_macs : list bytes) (d : DB) : DB :=
  with_app_state_mutation_macs
    (filter (fun kv : (string * string * Z * bytes) * bytes =>
               ~ (kv.1.1.1.1 = jid /\ kv.1.1.1.2 = name /\ kv.1.2 ∈ index_macs))) d.

(** [DELETE FROM whatsmeow_app_state_mutation_macs
     WHERE jid=$1 AND name=$2 AND index_mac=ANY($3::bytea[])] *)
Definition deleteAppStateMutationMACsQueryPostgres (jid name : string)
  (index_macs : list bytes) : statement :=
  fun d => inr (deleteMutationMACs jid name index_macs d).

(** [DELETE FROM whatsmeow_app_state_mutation_macs
     WHERE jid=$1 AND name=$2 AND index_mac IN ] followed by the markers of
    the index MACs in parentheses, one marker for each argument and in their
    order; without a marker the text does not parse. *)
Definition deleteAppStateMutationMACsQueryGeneric (jid name : string)
  (index_macs : list bytes) : statement :=
  fun d =>
    match index_macs with
    | [] => inl syntax_error
    | _ => inr (deleteMutationMACs jid name index_macs d)
    end.

(** The versions at which one index MAC of an account and a name is stored. *)
Definition mutation_mac_versions (jid name : string) (index_mac : bytes) (d : DB)
  : list Z :=
  omap (fun kv : (string * string * Z * bytes) * bytes =>
          if decide (kv.1.1.1.1 = jid /\ kv.1.1.1.2 = name /\ kv.1.2 = index_mac)
          then Some kv.1.1.2 else None)
       (map_to_list (whatsmeow_app_state_mutation_macs d)).

(** [SELECT value_mac FROM whatsmeow_app_state_mutation_macs
     WHERE jid=$1 AND name=$2 AND index_mac=$3 ORDER BY version DESC LIMIT 1] *)
Definition getAppStateMutationMACQuery (jid name : string) (index_mac : bytes) (d : DB)
  : option bytes :=
  match MAX (mutation_mac_versions jid name index_mac d) with
  | None => None
  | Some version => whatsmeow_app_state_mutation_macs d !! (jid, name, version, index_mac)
  end.

(** One row of [INSERT INTO whatsmeow_app_state_mutation_macs
    (jid, name, version, index_mac, value_mac) VALUES (...)]. *)
Definition insertMutationMAC (jid name : string) (version : Z) (m : AppStateMutationMAC)
  : statement :=
  fun d =>
    match whatsmeow_app_state_mutation_macs d !! (jid, name, version, IndexMAC m) with
    | Some _ => inl unique_violation
    | None =>
        inr (with_app_state_mutation_macs
               (insert (jid, name, version, IndexMAC m) (ValueMAC m)) d)
    end.

(** Rows of one statement: all are written or the statement fails. *)
Fixpoint all_rows {A : Type} (row : A -> statement) (rows : list A) : statement :=
  fun d =>
    match rows with
    | [] => inr d
    | r :: rows' =>
        match row r d with
        | inl e => inl e
        | inr d' => all_rows row rows' d'
        end
    end.

(** *** Statements built at run time

    [putAppStateMutationMACs] and [putContactNamesBatch] write the tuples of
    placeholders of their statement themselves and pass a flat list of
    arguments.  (In every other statement modelled here the markers are
    [$1 .. $k] in this order, once each, so that numbered and positional
    binding agree.) *)

Inductive arg := TextArg (s : string) | IntArg (z : Z) | BlobArg (b : bytes).

(** [?] and [$n]. *)
Inductive placeholder := Positional | Numbered (n : nat).

Definition is_positional (p : placeholder) : bool :=
  match p with Positional => true | Numbered _ => false end.
Definition is_numbered (p : placeholder) : bool := negb (is_positional p).
Definition marker_number (p : placeholder) : nat :=
  match p with Positional => 0 | Numbered n => n end.

Definition highest_marker (markers : list placeholder) : nat :=
  foldr (fun p m => Nat.max (marker_number p) m) 0%nat markers.

Definition argument_count_mismatch : error :=
  DriverError "sql: wrong number of arguments for the statement".
Definition type_mismatch : error :=
  DriverError "argument type does not fit the column".

(** Positional binding hands the arguments out in order. *)
Fixpoint bind_positional (rows : list (list placeholder)) (args : list arg)
  : list (list arg) :=
  match rows with
  | [] => []
  | row :: rows' => take (length row) args :: bind_positional rows' (drop (length row) args)
  end.

(** Numbered binding: [$n] is the [n]-th argument. *)
Definition bind_numbered (rows : list (list placeholder)) (args : list arg)
  : option (list (list arg)) :=
  mapM (mapM (fun p => match marker_number p with
                       | O => None
                       | S j => args !! j
                       end)) rows.

(** The arguments each tuple receives.  A statement of [?]s takes as many
    arguments as it has [?]s, a statement of numbered markers as many as its
    highest marker says; the drivers refuse any other number. *)
Definition bind_args (rows : list (list placeholder)) (args : list arg)
  : error + list (list arg) :=
  let markers := concat rows in
  if forallb is_positional markers then
    if (length markers =? length args)%nat then inr (bind_positional rows args)
    else inl argument_count_mismatch
  else if forallb is_numbered markers then
    if (highest_marker markers =? length args)%nat then
      match bind_numbered rows args with
      | Some bound => inr bound
      | None => inl argument_count_mismatch
      end
    else inl argument_count_mismatch
  else inl syntax_error.

(** One bound tuple of the mutation-MAC insert. *)
Definition mutationMACRow (row : list arg) : statement :=
  match row with
  | [TextArg jid; TextArg name; IntArg version; BlobArg index_mac; BlobArg value_mac] =>
      insertMutationMAC jid name version {| IndexMAC := index_mac; ValueMAC := value_mac |}
  | _ => fun _ => inl type_mismatch
  end.

(** [putAppStateMutationMACsQuery] followed by the tuples of placeholders,
    joined by commas; without a tuple the text does not parse. *)
Definition putAppStateMutationMACsQuery (placeholders : list (list placeholder))
  (args : list arg) : statement :=
  fun d =>
    match placeholders with
    | [] => inl syntax_error
    | _ =>
        match bind_args placeholders args with
        | inl e => inl e
        | inr bound => all_rows mutationMACRow bound d
        end
    end.

(** One tuple of [putManyContactNamesQuery]: the names are written, the
    other columns of an existing row stay. *)
Definition upsertContactName (our_jid : string) (v : string * string * string)
  (t : gmap (string * string) contact_row) : gmap (string * string) contact_row :=
  let '(their_jid, first_name, full_name) := v in
  match t !! (our_jid, their_jid) with
  | Some row =>
      <[(our_jid, their_jid) :=
          {| ct_first_name := Some first_name; ct_full_name := Some full_name;
             ct_push_name := ct_push_name row;
             ct_business_name := ct_business_name row |}]> t
  | None =>
      <[(our_jid, their_jid) :=
          {| ct_first_name := Some first_name; ct_full_name := Some full_name;
             ct_push_name := None; ct_business_name := None |}]> t
  end.

(** One bound tuple of the contact-name upsert. *)
Definition contactNameRow (row : list arg) : statement :=
  match row with
  | [TextArg our_jid; TextArg their_jid; TextArg first_name; TextArg full_name] =>
      fun d => inr (with_contacts (upsertContactName our_jid (their_jid, first_name, full_name)) d)
  | _ => fun _ => inl type_mismatch
  end.

(** [INSERT INTO whatsmeow_contacts (our_jid, their_jid, first_name, full_name)
     VALUES %s
     ON CONFLICT (our_jid, their_jid) DO UPDATE
       SET first_name=excluded.first_name, full_name=excluded.full_name]
    with [%s] the tuples joined by commas; no tuple at all does not parse. *)
Definition putManyContactNamesQuery (placeholders : list (list placeholder))
  (args : list arg) : statement :=
  fun d =>
    match placeholders with
    | [] => inl syntax_error
    | _ =>
        match bind_args placeholders args with
        | inl e => inl e
        | inr bound => all_rows contactNameRow bound d
        end
    end.

(** [INSERT INTO whatsmeow_contacts (our_jid, their_jid, first_name, full_name)
     VALUES ($1, $2, $3, $4)
     ON CONFLICT (our_jid, their_jid) DO UPDATE
       SET first_name=excluded.first_name, full_name=excluded.full_name] *)
Definition putContactNameQuery (our_jid their_jid first_name full_name : string)
  : statement :=
  fun d => inr (with_contacts (upsertContactName our_jid (their_jid, first_name, full_name)) d).

(** [INSERT INTO whatsmeow_contacts (our_jid, their_jid, push_name) VALUES ($1, $2, $3)
     ON CONFLICT (our_jid, their_jid) DO UPDATE SET push_name=excluded.push_name] *)
Definition putPushNameQuery (our_jid their_jid push_name : string) : statement :=
  fun d =>
    inr (with_contacts
           (fun t =>
              match t !! (our_jid, their_jid) with
              | Some row =>
                  <[(our_jid, their_jid) :=
                      {| ct_first_name := ct_first_name row; ct_full_name := ct_full_name row;
                         ct_push_name := Some push_name;
                         ct_business_name := ct_business_name row |}]> t
              | None =>
                  <[(our_jid, their_jid) :=
                      {| ct_first_name := None; ct_full_name := None;
                         ct_push_name := Some push_name; ct_business_name := None |}]> t
              end) d).

(** [INSERT INTO whatsmeow_contacts (our_jid, their_jid, business_name) VALUES ($1, $2, $3)
     ON CONFLICT (our_jid, their_jid) DO UPDATE SET business_name=excluded.business_name] *)
Definition putBusinessNameQuery (our_jid their_jid business_name : string) : statement :=
  fun d =>
    inr (with_contacts
           (fun t =>
              match t !! (our_jid, their_jid) with
              | Some row =>
                  <[(our_jid, their_jid) :=
                      {| ct_first_name := ct_first_name row; ct_full_name := ct_full_name row;
                         ct_push_name := ct_push_name row;
                         ct_business_name := Some business_name |}]> t
              | None =>
                  <[(our_jid, their_jid) :=
                      {| ct_first_name := None; ct_full_name := None;
                         ct_push_name := None; ct_business_name := Some business_name |}]> t
              end) d).

(** [SELECT first_name, full_name, push_name, business_name FROM whatsmeow_contacts
     WHERE our_jid=$1 AND their_jid=$2] *)
Definition getContactQuery (our_jid their_jid : string) (d : DB) : option contact_row :=
  whatsmeow_contacts d !! (our_jid, their_jid).

(** [SELECT their_jid, first_name, full_name, push_name, business_name
     FROM whatsmeow_contacts WHERE our_jid=$1] *)
Definition getAllContactsQuery (our_jid : string) (d : DB) : list (string * contact_row) :=
  omap (fun kv : (string * string) * contact_row =>
          if decide (kv.1.1 = our_jid) then Some (kv.1.2, kv.2) else None)
       (map_to_list (whatsmeow_contacts d)).

(** A value bound to the third placeholder of a chat-setting upsert. *)
Inductive setting_value := IntValue (z : Z) | BoolValue (b : bool).

(** The row a chat-setting insert creates: the named column from the
    statement, the others from their [DEFAULT]s (0, false, false); and the
    update of the named column alone on conflict. *)
Definition set_chat_setting (column : string) (v : setting_value)
  (row : chat_settings_row) : option chat_settings_row :=
  match v with
  | IntValue z =>
      if String.eqb column "muted_until"
      then Some {| cs_muted_until := z; cs_pinned := cs_pinned row;
                   cs_archived := cs_archived row |}
      else None
  | BoolValue b =>
      if String.eqb column "pinned"
      then Some {| cs_muted_until := cs_muted_until row; cs_pinned := b;
                   cs_archived := cs_archived row |}
      else if String.eqb column "archived"
      then Some {| cs_muted_until := cs_muted_until row; cs_pinned := cs_pinned row;
                   cs_archived := b |}
      else None
  end.

Definition chat_settings_defaults : chat_settings_row :=
  {| cs_muted_until := 0; cs_pinned := false; cs_archived := false |}.

Definition upsertChatSetting (column our_jid chat_jid : string) (v : setting_value)
  : statement :=
  fun d =>
    let old := default chat_settings_defaults (whatsmeow_chat_settings d !! (our_jid, chat_jid)) in
    match set_chat_setting column v old with
    | Some row => inr (with_chat_settings (insert (our_jid, chat_jid) row) d)
    | None => inl (DriverError "column and value do not fit")
    end.

(** [INSERT INTO whatsmeow_chat_settings (our_jid, chat_jid, %[1]s) VALUES ($1, $2, $3)
     ON CONFLICT (our_jid, chat_jid) DO UPDATE SET %[1]s=excluded.%[1]s] *)
Definition putChatSettingQueryPostgres := upsertChatSetting.
(** [INSERT INTO whatsmeow_chat_settings (our_jid, chat_jid, %[1]s) VALUES (?, ?, ?)
     ON DUPLICATE KEY UPDATE %[1]s=VALUES(%[1]s)] *)
Definition putChatSettingQueryMySQL := upsertChatSetting.
(** [INSERT INTO whatsmeow_chat_settings (our_jid, chat_jid, %[1]s) VALUES (?, ?, ?)
     ON CONFLICT (our_jid, chat_jid) DO UPDATE SET %[1]s=excluded.%[1]s] *)
Definition putChatSettingQuerySQLite := upsertChatSetting.

(** [SELECT muted_until, pinned, archived FROM whatsmeow_chat_settings
     WHERE our_jid=$1 AND chat_jid=$2] *)
Definition getChatSettingsQuery (our_jid chat_jid : string) (d : DB)
  : option chat_settings_row :=
  whatsmeow_chat_settings d !! (our_jid, chat_jid).

Definition insertIfAbsent (k : string * string * string * string) (key : bytes)
  : statement :=
  fun d =>
    match whatsmeow_message_secrets d !! k with
    | Some _ => inr d
    | None => inr (with_message_secrets (insert k key) d)
    end.

(** [INSERT INTO whatsmeow_message_secrets (our_jid, chat_jid, sender_jid, message_id, `key`)
     VALUES ($1, $2, $3, $4, $5)
     ON CONFLICT (our_jid, chat_jid, sender_jid, message_id) DO NOTHING] *)
Definition putMsgSecret (our_jid chat_jid sender_jid message_id : string) (key : bytes)
  : statement :=
  insertIfAbsent (our_jid, chat_jid, sender_jid, message_id) key.

(** The text the message-secret writers send on MySQL:
    [INSERT INTO whatsmeow_message_secrets (our_jid, chat_jid, sender_jid, message_id, `key`)
     VALUES (?, ?, ?, ?, ?)
     ON DUPLICATE KEY UPDATE our_jid=our_jid] *)
Definition putMsgSecretMySQL (our_jid chat_jid sender_jid message_id : string) (key : bytes)
  : statement :=
  insertIfAbsent (our_jid, chat_jid, sender_jid, message_id) key.

(** [SELECT key FROM whatsmeow_message_secrets
     WHERE our_jid=$1 AND chat_jid=$2 AND sender_jid=$3 AND message_id=$4] *)
Definition getMsgSecret (our_jid chat_jid sender_jid message_id : string) (d : DB)
  : option bytes :=
  whatsmeow_message_secrets d !! (our_jid, chat_jid, sender_jid, message_id).

End SQL.

(** ** The store methods *)

Section Store.
Context {types_JID : Type} `{JIDType types_JID}.

Definition lockWaitTimeout : string := "Lock wait timeout exceeded".

(** *** Identity keys *)

Definition PutIdentity (s : SQLStore) (address : string) (key : bytes) : M (option error) :=
  let query :=
    if String.eqb (dialect s) "mysql" then SQL.putIdentityQuery
    else if String.eqb (dialect s) "sqlite3" then SQL.putIdentityQuery
    else SQL.putIdentityQuery in
  Exec sql_DB (query (JID s) address key).

Definition DeleteAllIdentities (s : SQLStore) (phone : string) : M (option error) :=
  Exec sql_DB (SQL.deleteAllIdentitiesQuery (JID s) (phone ++ ":%")).

Definition DeleteIdentity (s : SQLStore) (address : string) : M (option error) :=
  Exec sql_DB (SQL.deleteAllIdentitiesQuery (JID s) address).

Definition IsTrustedIdentity (s : SQLStore) (address : string) (key : bytes)
  : M (bool * option error) :=
  r <- QueryRow (SQL.getIdentityQuery (JID s) address) ;;
  match r with
  | inl err =>
      if is_ErrNoRows err then ret (true, None)
      else ret (false, Some err)
  | inr existingIdentity =>
      if negb (length existingIdentity =? 32)%nat then ret (false, Some ErrInvalidLength)
      else ret (bool_decide (existingIdentity = key), None)
  end.

(** *** Pre-keys *)

Definition uint32 (z : Z) : Z := (z mod 2 ^ 32)%Z.
Definition fits_int32 (z : Z) : bool := (- 2 ^ 31 <=? z)%Z && (z <? 2 ^ 31)%Z.
Definition scan_out_of_range : error :=
  DriverError "sql: Scan error: converting driver.Value type int64: value out of range".

(** [keys.NewPreKey(id)] draws a fresh private key; [priv] is that draw. *)
Definition genOnePreKey (s : SQLStore) (id : Z) (markUploaded : bool) (priv : bytes)
  : M (PreKey * option error) :=
  let key := {| KeyID := id; Priv := priv |} in
  let query :=
    if String.eqb (dialect s) "mysql" then SQL.insertPreKeyQuery
    else SQL.insertPreKeyQuery in
  err <- Exec sql_DB (query (JID s) (KeyID key) (Priv key) markUploaded) ;;
  ret (key, err).

Definition getNextPreKeyID (s : SQLStore) : M (Z * option error) :=
  r <- QueryRow (SQL.getLastPreKeyIDQuery (JID s)) ;;
  match r with
  | inl err => ret (0%Z, Some (Errorf_w "failed to query next prekey ID" err))
  | inr lastKeyID =>
      (* Scan into sql.NullInt32: NULL leaves Int32 at 0 *)
      let Int32 := default 0%Z lastKeyID in
      if fits_int32 Int32 then ret (uint32 (uint32 Int32 + 1), None)
      else ret (0%Z, Some (Errorf_w "failed to query next prekey ID" scan_out_of_range))
  end.

(** The pre-key mutex is held for the whole call; calls are taken one after
    the other here. *)
Definition GenOnePreKey (s : SQLStore) (priv : bytes) : M (option PreKey * option error) :=
  ' (nextKeyID, err) <- getNextPreKeyID s ;;
  match err with
  | Some e => ret (None, Some e)
  | None =>
      ' (key, err) <- genOnePreKey s nextKeyID true priv ;;
      ret (Some key, err)
  end.

(** [GenOnePreKey] called once for every draw in [privs], one call after the
    other. *)
Fixpoint GenOnePreKey_each (s : SQLStore) (privs : list bytes)
  : M (list (option PreKey * option error)) :=
  match privs with
  | [] => ret []
  | priv :: privs' =>
      r <- GenOnePreKey s priv ;;
      rs <- GenOnePreKey_each s privs' ;;
      ret (r :: rs)
  end.

Definition fits_uint32 (z : Z) : bool := (0 <=? z)%Z && (z <? 2 ^ 32)%Z.

(** [scanPreKey(row)]: [Scan(&id, &priv)] with [id] a [uint32], then the
    length check.  The public half of the key pair is computed from [priv]
    and is not kept here. *)
Definition scanPreKey (row : error + Z * bytes) : option PreKey * option error :=
  match row with
  | inl err =>
      if is_ErrNoRows err then (None, None)
      else (None, Some err)
  | inr (id, priv) =>
      if negb (fits_uint32 id) then (None, Some scan_out_of_range)
      else if negb (length priv =? 32)%nat then (None, Some ErrInvalidLength)
      else (Some {| KeyID := id; Priv := priv |}, None)
  end.

(** The [for res.Next()] loop of [GetOrGenPreKeys]: the keys scanned so far
    fill [newKeys] from its start; the first row that does not scan ends the
    call. *)
Fixpoint scanPreKeys (rows : list (Z * bytes)) : error + list PreKey :=
  match rows with
  | [] => inr []
  | row :: rows' =>
      match scanPreKey (inr row) with
      | (_, Some err) => inl err
      | (None, None) => scanPreKeys rows'
      | (Some key, None) =>
          match scanPreKeys rows' with
          | inl err => inl err
          | inr keys => inr (key :: keys)
          end
      end
  end.

(** [for i := existingCount; i < count; i++]: slot [i] of [newKeys] receives
    the key generated with the draw [draw i]; [remaining] is [count - i]. *)
Fixpoint genPreKeys (s : SQLStore) (remaining i : nat) (nextKeyID : Z)
  (draw : nat -> bytes) : M (error + list PreKey) :=
  match remaining with
  | O => ret (inr [])
  | S remaining' =>
      ' (key, err) <- genOnePreKey s nextKeyID false (draw i) ;;
      match err with
      | Some e => ret (inl (Errorf_w "failed to generate prekey" e))
      | None =>
          r <- genPreKeys s remaining' (S i) (uint32 (nextKeyID + 1)) draw ;;
          match r with
          | inl e => ret (inl e)
          | inr keys => ret (inr (key :: keys))
          end
      end
  end.

(** A [nil] slice is the empty list. *)
Definition GetOrGenPreKeys (s : SQLStore) (count : nat) (draw : nat -> bytes)
  : M (list PreKey * option error) :=
  res <- Query (SQL.getUnuploadedPreKeysQuery (JID s) count) ;;
  match res with
  | inl err => ret ([], Some (Errorf_w "failed to query existing prekeys" err))
  | inr rows =>
      match scanPreKeys rows with
      | inl err => ret ([], Some err)
      | inr existing =>
          let existingCount := length existing in
          if (existingCount <? count)%nat then
            ' (nextKeyID, err) <- getNextPreKeyID s ;;
            match err with
            | Some e => ret ([], Some e)
            | None =>
                r <- genPreKeys s (count - existingCount) existingCount nextKeyID draw ;;
                match r with
                | inl e => ret ([], Some e)
                | inr generated => ret ((existing ++ generated)%list, None)
                end
            end
          else ret (existing, None)
      end
  end.

Definition GetPreKey (s : SQLStore) (id : Z) : M (option PreKey * option error) :=
  r <- QueryRow (SQL.getPreKeyQuery (JID s) id) ;;
  ret (scanPreKey r).

Definition RemovePreKey (s : SQLStore) (id : Z) : M (option error) :=
  Exec sql_DB (SQL.deletePreKeyQuery (JID s) id).



(** *** App state sync keys *)

Definition PutAppStateSyncKey (s : SQLStore) (id : bytes) (key : AppStateSyncKey)
  : M (option error) :=
  if String.eqb (dialect s) "mysql" then
    err <- Begin ;;
    match err with
    | Some e => ret (Some e)
    | None =>
        err <- Exec sql_Tx (SQL.putAppStateSyncKeyMySQL (JID s) id (Data key)
                              (Timestamp key) (Fingerprint key)) ;;
        match err with
        | Some e => _ <- Rollback ;; ret (Some e)
        | None => Commit
        end
    end
  else
    Exec sql_DB (SQL.putAppStateSyncKeyQuery (JID s) id (Data key)
                   (Timestamp key) (Fingerprint key)).

Definition key_of_row (row : sync_key_row) : AppStateSyncKey :=
  {| Data := sk_key_data row; Fingerprint := sk_fingerprint row;
     Timestamp := sk_timestamp row |}.
Definition row_of_key (key : AppStateSyncKey) : sync_key_row :=
  {| sk_key_data := Data key; sk_timestamp := Timestamp key;
     sk_fingerprint := Fingerprint key |}.
Definition zero_key : AppStateSyncKey :=
  {| Data := []; Fingerprint := []; Timestamp := 0 |}.

Definition GetAppStateSyncKey (s : SQLStore) (id : bytes)
  : M (option AppStateSyncKey * option error) :=
  if String.eqb (dialect s) "mysql" then
    r <- QueryRow (SQL.getAppStateSyncKeyQuery (JID s) id) ;;
    match r with
    | inr row => ret (Some (key_of_row row), None)
    | inl err =>
        if is_ErrNoRows err then
          (* second lookup, by the hexadecimal form of the id *)
          r <- QueryRow (SQL.getAppStateSyncKeyQuery (JID s) id) ;;
          match r with
          | inr row => ret (Some (key_of_row row), None)
          | inl err =>
              if is_ErrNoRows err then ret (None, None)
              else ret (Some zero_key, Some err)
          end
        else ret (Some zero_key, Some err)
    end
  else
    r <- QueryRow (SQL.getAppStateSyncKeyQuery (JID s) id) ;;
    match r with
    | inr row => ret (Some (key_of_row row), None)
    | inl err =>
        if is_ErrNoRows err then ret (None, None)
        else ret (Some zero_key, Some err)
    end.

(** A [nil] id is [None]. *)
Definition GetLatestAppStateSyncKeyID (s : SQLStore) : M (option bytes * option error) :=
  r <- QueryRow (SQL.getLatestAppStateSyncKeyIDQuery (JID s)) ;;
  match r with
  | inl err =>
      if is_ErrNoRows err then ret (None, None)
      else ret (None, Some err)
  | inr keyID => ret (Some keyID, None)
  end.

(** *** App state versions *)


Definition zero_hash : bytes := repeat x00 128.

Definition GetAppStateVersion (s : SQLStore) (name : string)
  : M (Z * bytes * option error) :=
  r <- QueryRow (SQL.getAppStateVersionQuery (JID s) name) ;;
  match r with
  | inl err =>
      if is_ErrNoRows err then ret (0%Z, zero_hash, None)
      else ret (0%Z, zero_hash, Some err)
  | inr row =>
      (* Scan into uint64 refuses a negative BIGINT *)
      if (av_version row <? 0)%Z then ret (0%Z, zero_hash, Some scan_out_of_range)
      else if negb (length (av_hash row) =? 128)%nat
      then ret (av_version row, zero_hash, Some ErrInvalidLength)
      else ret (av_version row, av_hash row, None)
  end.

Definition DeleteAppStateVersion (s : SQLStore) (name : string) : M (option error) :=
  Exec sql_DB (SQL.deleteAppStateVersionQuery (JID s) name).

(** *** Batches *)

(** [for i := 0; i < len(items); i += size { ... items[i:i+size] or items[i:] ... }]
    with a body that may leave the loop with an error.  Every turn advances
    [i], so [length items] turns of fuel are never used up. *)
Fixpoint for_batches {A : Type} (fuel size i : nat) (items : list A)
  (body : list A -> M (option error)) : M (option error) :=
  match fuel with
  | O => ret None
  | S fuel' =>
      if (i <? length items)%nat then
        let slice :=
          if (i + size <? length items)%nat then take size (drop i items)
          else drop i items in
        err <- body slice ;;
        match err with
        | Some e => ret (Some e)
        | None => for_batches fuel' size (i + size) items body
        end
      else ret None
  end.

(** [for _, x := range items { if err := step(x); err != nil { return err } }] *)
Fixpoint for_each {A : Type} (items : list A) (step : A -> M (option error))
  : M (option error) :=
  match items with
  | [] => ret None
  | x :: items' =>
      err <- step x ;;
      match err with
      | Some e => ret (Some e)
      | None => for_each items' step
      end
  end.

(** *** App state mutation MACs *)

(** The five arguments of one mutation in the MySQL and SQLite branches. *)
Definition mutation_args (s : SQLStore) (name : string) (version : Z)
  (mutation : AppStateMutationMAC) : list SQL.arg :=
  [SQL.TextArg (JID s); SQL.TextArg name; SQL.IntArg version;
   SQL.BlobArg (IndexMAC mutation); SQL.BlobArg (ValueMAC mutation)].

(** The tuples of the last branch: [argsCount] starts at 1 and grows by 2,
    [baseIndex := argsCount], and the tuple is
    [($1, $2, $3, $baseIndex+1, $baseIndex+2)]. *)
Fixpoint numbered_mutation_rows (argsCount : nat) (mutations : list AppStateMutationMAC)
  : list (list SQL.placeholder) :=
  match mutations with
  | [] => []
  | _ :: rest =>
      let baseIndex := argsCount in
      [SQL.Numbered 1; SQL.Numbered 2; SQL.Numbered 3;
       SQL.Numbered (baseIndex + 1); SQL.Numbered (baseIndex + 2)]
      :: numbered_mutation_rows (argsCount + 2) rest
  end.

Definition putAppStateMutationMACs (s : SQLStore) (tx : execable) (name : string)
  (version : Z) (mutations : list AppStateMutationMAC) : M (option error) :=
  if String.eqb (dialect s) "mysql" then
    for_each mutations (fun mutation =>
      Exec tx (SQL.putAppStateMutationMACsQuery [replicate 5 SQL.Positional]
                 (mutation_args s name version mutation)))
  else if String.eqb (dialect s) "sqlite3" then
    let placeholders := map (fun _ => replicate 5 SQL.Positional) mutations in
    let args := concat (map (mutation_args s name version) mutations) in
    Exec tx (SQL.putAppStateMutationMACsQuery placeholders args)
  else
    let placeholders := numbered_mutation_rows 1 mutations in
    let args :=
      ([SQL.TextArg (JID s); SQL.TextArg name; SQL.IntArg version]
       ++ concat (map (fun mutation => [SQL.BlobArg (IndexMAC mutation);
                                        SQL.BlobArg (ValueMAC mutation)]) mutations))%list in
    Exec tx (SQL.putAppStateMutationMACsQuery placeholders args).

Definition mutationBatchSize : nat := 400.

Definition PutAppStateMutationMACs (s : SQLStore) (name : string) (version : Z)
  (mutations : list AppStateMutationMAC) : M (option error) :=
  if (mutationBatchSize <? length mutations)%nat then
    err <- Begin ;;
    match err with
    | Some e => ret (Some (Errorf_w "failed to start transaction" e))
    | None =>
        err <- for_batches (length mutations) mutationBatchSize 0 mutations
                 (fun mutationSlice =>
                    err <- putAppStateMutationMACs s sql_Tx name version mutationSlice ;;
                    match err with
                    | Some e => _ <- Rollback ;; ret (Some e)
                    | None => ret None
                    end) ;;
        match err with
        | Some e => ret (Some e)
        | None =>
            err <- Commit ;;
            match err with
            | Some e => ret (Some (Errorf_w "failed to commit transaction" e))
            | None => ret None
            end
        end
    end
  else if (0 <? length mutations)%nat then
    putAppStateMutationMACs s sql_DB name version mutations
  else ret None.

(** [wrapper] says whether the package variable [PostgresArrayWrapper] is
    set.  In the other branch the statement ends in one marker for each index
    MAC, [?] on the tags mysql and sqlite and [$3], [$4], ... otherwise. *)
Definition DeleteAppStateMutationMACs (s : SQLStore) (wrapper : bool) (name : string)
  (indexMACs : list bytes) : M (option error) :=
  if (length indexMACs =? 0)%nat then ret None
  else if String.eqb (dialect s) "postgres" && wrapper then
    Exec sql_DB (SQL.deleteAppStateMutationMACsQueryPostgres (JID s) name indexMACs)
  else
    Exec sql_DB (SQL.deleteAppStateMutationMACsQueryGeneric (JID s) name indexMACs).

(** A missing row scans nothing: the value MAC stays [nil], here the empty slice. *)
Definition GetAppStateMutationMAC (s : SQLStore) (name : string) (indexMAC : bytes)
  : M (bytes * option error) :=
  r <- QueryRow (SQL.getAppStateMutationMACQuery (JID s) name indexMAC) ;;
  match r with
  | inl err =>
      if is_ErrNoRows err then ret ([], None)
      else ret ([], Some err)
  | inr valueMAC => ret (valueMAC, None)
  end.

(** *** Contacts *)

(** [sql.NullString.String]: the empty string for [NULL]. *)
Definition NullString (column : option string) : string := default "" column.

(** The [ContactInfo] that [getContact] builds from the outcome of its query. *)
Definition contact_info (row : option contact_row) : ContactInfo :=
  match row with
  | None =>
      {| Found := false; FirstName := ""; FullName := ""; PushName := "";
         BusinessName := "" |}
  | Some row =>
      {| Found := true; FirstName := NullString (ct_first_name row);
         FullName := NullString (ct_full_name row);
         PushName := NullString (ct_push_name row);
         BusinessName := NullString (ct_business_name row) |}
  end.

(** [s.contactCache[user] = info].  Every entry of the cache is an object of
    its own, so a write through the pointer that [getContact] returned is a
    write to the entry of that user. *)
Definition cache_contact (user : types_JID) (info : ContactInfo) : M unit :=
  fun w => (tt, set_contactCache (<[user := info]> (contactCache w)) w).

Definition getContact (s : SQLStore) (user : types_JID) : M (error + ContactInfo) :=
  fun w =>
    match contactCache w !! user with
    | Some cached => (inr cached, w)
    | None =>
        (r <- QueryRow (SQL.getContactQuery (JID s) (JID_String user)) ;;
         match r with
         | inl err =>
             if is_ErrNoRows err then
               _ <- cache_contact user (contact_info None) ;;
               ret (inr (contact_info None))
             else ret (inl err)
         | inr row =>
             _ <- cache_contact user (contact_info (Some row)) ;;
             ret (inr (contact_info (Some row)))
         end) w
    end.

Definition PutPushName (s : SQLStore) (user : types_JID) (pushName : string)
  : M (bool * string * option error) :=
  r <- getContact s user ;;
  match r with
  | inl err => ret (false, "", Some err)
  | inr cached =>
      if negb (String.eqb (PushName cached) pushName) then
        err <- Exec sql_DB (SQL.putPushNameQuery (JID s) (JID_String user) pushName) ;;
        match err with
        | Some e => ret (false, "", Some e)
        | None =>
            let previousName := PushName cached in
            _ <- cache_contact user
                   {| Found := true; FirstName := FirstName cached;
                      FullName := FullName cached; PushName := pushName;
                      BusinessName := BusinessName cached |} ;;
            ret (true, previousName, None)
        end
      else ret (false, "", None)
  end.

Definition PutBusinessName (s : SQLStore) (user : types_JID) (businessName : string)
  : M (bool * string * option error) :=
  r <- getContact s user ;;
  match r with
  | inl err => ret (false, "", Some err)
  | inr cached =>
      if negb (String.eqb (BusinessName cached) businessName) then
        err <- Exec sql_DB (SQL.putBusinessNameQuery (JID s) (JID_String user)
                              businessName) ;;
        match err with
        | Some e => ret (false, "", Some e)
        | None =>
            let previousName := BusinessName cached in
            _ <- cache_contact user
                   {| Found := true; FirstName := FirstName cached;
                      FullName := FullName cached; PushName := PushName cached;
                      BusinessName := businessName |} ;;
            ret (true, previousName, None)
        end
      else ret (false, "", None)
  end.

Definition PutContactName (s : SQLStore) (user : types_JID) (firstName fullName : string)
  : M (option error) :=
  r <- getContact s user ;;
  match r with
  | inl err => ret (Some err)
  | inr cached =>
      if negb (String.eqb (FirstName cached) firstName)
         || negb (String.eqb (FullName cached) fullName) then
        err <- Exec sql_DB (SQL.putContactNameQuery (JID s) (JID_String user)
                              firstName fullName) ;;
        match err with
        | Some e => ret (Some e)
        | None =>
            _ <- cache_contact user
                   {| Found := true; FirstName := firstName; FullName := fullName;
                      PushName := PushName cached;
                      BusinessName := BusinessName cached |} ;;
            ret None
        end
      else ret None
  end.

Record ContactEntry := {
  entry_JID : types_JID; entry_FirstName : string; entry_FullName : string }.

(** The tuples [putContactNamesBatch] binds: entries with an empty JID and
    repeated JIDs are skipped (with a warning in the log). *)
Fixpoint contact_values (handledContacts : gset types_JID) (contacts : list ContactEntry)
  : list (string * string * string) :=
  match contacts with
  | [] => []
  | contact :: rest =>
      if IsEmpty (entry_JID contact) then contact_values handledContacts rest
      else if decide (entry_JID contact ∈ handledContacts)
      then contact_values handledContacts rest
      else (JID_String (entry_JID contact), entry_FirstName contact, entry_FullName contact)
           :: contact_values ({[entry_JID contact]} ∪ handledContacts) rest
  end.

(** The tuples for numbered markers: [baseIndex := i*3 + 1] and the tuple is
    [($1, $baseIndex+1, $baseIndex+2, $baseIndex+3)], with [i] counting the
    contacts kept so far. *)
Fixpoint numbered_contact_rows (i : nat) (kept : list (string * string * string))
  : list (list SQL.placeholder) :=
  match kept with
  | [] => []
  | _ :: rest =>
      let baseIndex := (i * 3 + 1)%nat in
      [SQL.Numbered 1; SQL.Numbered (baseIndex + 1); SQL.Numbered (baseIndex + 2);
       SQL.Numbered (baseIndex + 3)]
      :: numbered_contact_rows (S i) rest
  end.

(** The three arguments appended for one contact. *)
Definition contact_args (v : string * string * string) : list SQL.arg :=
  [SQL.TextArg v.1.1; SQL.TextArg v.1.2; SQL.TextArg v.2].

Definition putContactNamesBatch (s : SQLStore) (tx : execable)
  (contacts : list ContactEntry) : M (option error) :=
  let kept := contact_values ∅ contacts in
  let values := SQL.TextArg (JID s) :: concat (map contact_args kept) in
  let queryParts :=
    if String.eqb (dialect s) "sqlite3" || String.eqb (dialect s) "mysql"
    then map (fun _ => replicate 4 SQL.Positional) kept
    else numbered_contact_rows 0 kept in
  Exec tx (SQL.putManyContactNamesQuery queryParts values).

Definition contactBatchSize : nat := 300.

Definition clear_contactCache : M unit :=
  fun w => (tt, set_contactCache ∅ w).

Definition PutAllContactNames (s : SQLStore) (contacts : list ContactEntry)
  : M (option error) :=
  if (contactBatchSize <? length contacts)%nat then
    err <- Begin ;;
    match err with
    | Some e => ret (Some (Errorf_w "failed to start transaction" e))
    | None =>
        err <- for_batches (length contacts) contactBatchSize 0 contacts
                 (fun contactSlice =>
                    err <- putContactNamesBatch s sql_Tx contactSlice ;;
                    match err with
                    | Some e => _ <- Rollback ;; ret (Some e)
                    | None => ret None
                    end) ;;
        match err with
        | Some e => ret (Some e)
        | None =>
            err <- Commit ;;
            match err with
            | Some e => ret (Some (Errorf_w "failed to commit transaction" e))
            | None => _ <- clear_contactCache ;; ret None
            end
        end
    end
  else if (0 <? length contacts)%nat then
    err <- putContactNamesBatch s sql_DB contacts ;;
    match err with
    | Some e => ret (Some e)
    | None => _ <- clear_contactCache ;; ret None
    end
  else ret None.

Definition no_contact : ContactInfo :=
  {| Found := false; FirstName := ""; FullName := ""; PushName := ""; BusinessName := "" |}.

Definition GetContact (s : SQLStore) (user : types_JID) : M (ContactInfo * option error) :=
  r <- getContact s user ;;
  match r with
  | inl err => ret (no_contact, Some err)
  | inr info => ret (info, None)
  end.

Definition scan_jid_error : error :=
  DriverError "sql: Scan error on column index 0: the text is not a JID".

(** The [for rows.Next()] loop of [GetAllContacts]: every row becomes an
    entry of [output] and of the cache; a row whose JID does not scan ends
    the call, with the cache entries written so far left in place. *)
Fixpoint scanContacts `{JIDScanner types_JID} (rows : list (string * contact_row))
  (output : gmap types_JID ContactInfo)
  : M (gmap types_JID ContactInfo * option error) :=
  match rows with
  | [] => ret (output, None)
  | (their_jid, row) :: rows' =>
      match JID_Scan their_jid with
      | None => ret (∅, Some (Errorf_w "error scanning row" scan_jid_error))
      | Some jid =>
          let info := contact_info (Some row) in
          _ <- cache_contact jid info ;;
          scanContacts rows' (<[jid := info]> output)
      end
  end.

(** A [nil] map is the empty map. *)
Definition GetAllContacts `{JIDScanner types_JID} (s : SQLStore)
  : M (gmap types_JID ContactInfo * option error) :=
  res <- Query (SQL.getAllContactsQuery (JID s)) ;;
  match res with
  | inl err => ret (∅, Some err)
  | inr rows => scanContacts rows ∅
  end.

(** *** Chat settings *)

Definition PutMutedUntil (s : SQLStore) (chat : types_JID) (mutedUntil : Time)
  : M (option error) :=
  let val := if negb (IsZero mutedUntil) then Unix mutedUntil else 0%Z in
  let query :=
    if String.eqb (dialect s) "mysql" then SQL.putChatSettingQueryMySQL "muted_until"
    else if String.eqb (dialect s) "sqlite3" then SQL.putChatSettingQuerySQLite "muted_until"
    else SQL.putChatSettingQueryPostgres "muted_until" in
  Exec sql_DB (query (JID s) (JID_String chat) (SQL.IntValue val)).

Definition PutPinned (s : SQLStore) (chat : types_JID) (pinned : bool) : M (option error) :=
  let query :=
    if String.eqb (dialect s) "mysql" then SQL.putChatSettingQueryMySQL "pinned"
    else if String.eqb (dialect s) "sqlite3" then SQL.putChatSettingQuerySQLite "pinned"
    else SQL.putChatSettingQueryPostgres "pinned" in
  Exec sql_DB (query (JID s) (JID_String chat) (SQL.BoolValue pinned)).

Definition PutArchived (s : SQLStore) (chat : types_JID) (archived : bool)
  : M (option error) :=
  let query :=
    if String.eqb (dialect s) "mysql" then SQL.putChatSettingQueryMySQL "archived"
    else if String.eqb (dialect s) "sqlite3" then SQL.putChatSettingQuerySQLite "archived"
    else SQL.putChatSettingQueryPostgres "archived" in
  Exec sql_DB (query (JID s) (JID_String chat) (SQL.BoolValue archived)).

Definition no_settings : LocalChatSettings :=
  {| settings_Found := false; MutedUntil := None; Pinned := false; Archived := false |}.

(** [MutedUntil] is [Some t] for [time.Unix(t, 0)] and [None] for the zero time. *)
Definition GetChatSettings (s : SQLStore) (chat : types_JID)
  : M (LocalChatSettings * option error) :=
  r <- QueryRow (SQL.getChatSettingsQuery (JID s) (JID_String chat)) ;;
  match r with
  | inl err =>
      if is_ErrNoRows err then ret (no_settings, None)
      else ret (no_settings, Some err)
  | inr row =>
      ret ({| settings_Found := true;
              MutedUntil := if negb (cs_muted_until row =? 0)%Z
                            then Some (cs_muted_until row) else None;
              Pinned := cs_pinned row; Archived := cs_archived row |}, None)
  end.

(** *** Message secrets *)

Record MessageSecretInsert := {
  Chat : types_JID; Sender : types_JID; ID : string; Secret : bytes }.

(** The loop of [putMessageSecretsWithRetry], with [remaining] the turns
    left, [maxRetries - attempt]. *)
Fixpoint retry_loop (s : SQLStore) (maxRetries remaining attempt : nat)
  (write : M (option error)) : M (option error) :=
  match remaining with
  | O =>
      ret (Some (Errorf_d "failed to store message secrets after " maxRetries
                   " retry attempts"))
  | S remaining' =>
      err <- write ;;
      match err with
      | None => ret None
      | Some e =>
          if String.eqb (dialect s) "mysql" && negb (Contains (Error e) lockWaitTimeout)
          then ret (Some e)
          else
            let backoffMs := (100 * (Z.of_nat attempt + 1))%Z in
            _ <- Sleep backoffMs ;;
            retry_loop s maxRetries remaining' (S attempt) write
      end
  end.

Definition putMessageSecretsInternal (s : SQLStore) (inserts : list MessageSecretInsert)
  : M (option error) :=
  err <- Begin ;;
  match err with
  | Some e => ret (Some (Errorf_w "failed to begin transaction" e))
  | None =>
      let query :=
        if String.eqb (dialect s) "mysql" then SQL.putMsgSecretMySQL
        else SQL.putMsgSecret in
      err <- for_each inserts (fun insert =>
               err <- Exec sql_Tx (query (JID s) (JID_String (ToNonAD (Chat insert)))
                                     (JID_String (ToNonAD (Sender insert)))
                                     (ID insert) (Secret insert)) ;;
               match err with
               | Some e =>
                   _ <- Rollback ;;
                   ret (Some (Errorf_w "failed to insert message secret" e))
               | None => ret None
               end) ;;
      match err with
      | Some e => ret (Some e)
      | None =>
          err <- Commit ;;
          match err with
          | Some e => ret (Some (Errorf_w "failed to commit transaction" e))
          | None => ret None
          end
      end
  end.

Definition putMessageSecretsWithRetry (s : SQLStore) (inserts : list MessageSecretInsert)
  : M (option error) :=
  let maxRetries := 3%nat in
  retry_loop s maxRetries maxRetries 0 (putMessageSecretsInternal s inserts).

Definition msgSecretBatchSize : nat := 50.

Definition PutMessageSecrets (s : SQLStore) (inserts : list MessageSecretInsert)
  : M (option error) :=
  if (msgSecretBatchSize <? length inserts)%nat then
    for_batches (length inserts) msgSecretBatchSize 0 inserts
      (fun batch => putMessageSecretsWithRetry s batch)
  else putMessageSecretsWithRetry s inserts.

(** The MySQL loop of [PutMessageSecret]: [for attempt := 0; attempt < 3; attempt++],
    leaving with [break]; [err] is the named result. *)
Fixpoint put_secret_loop (remaining attempt : nat) (write : M (option error))
  (err : option error) : M (option error) :=
  match remaining with
  | O => ret err
  | S remaining' =>
      err <- write ;;
      match err with
      | None => ret None
      | Some e =>
          if negb (Contains (Error e) lockWaitTimeout) then ret (Some e)
          else
            _ <- Sleep (50 * (Z.of_nat attempt + 1))%Z ;;
            put_secret_loop remaining' (S attempt) write (Some e)
      end
  end.

Definition PutMessageSecret (s : SQLStore) (chat sender : types_JID) (id : string)
  (secret : bytes) : M (option error) :=
  if String.eqb (dialect s) "mysql" then
    put_secret_loop 3 0
      (Exec sql_DB (SQL.putMsgSecretMySQL (JID s) (JID_String (ToNonAD chat))
                      (JID_String (ToNonAD sender)) id secret))
      None
  else
    Exec sql_DB (SQL.putMsgSecret (JID s) (JID_String (ToNonAD chat))
                   (JID_String (ToNonAD sender)) id secret).

(** A missing row scans nothing: the secret stays [nil], here the empty slice. *)
Definition GetMessageSecret (s : SQLStore) (chat sender : types_JID) (id : string)
  : M (bytes * option error) :=
  r <- QueryRow (SQL.getMsgSecret (JID s) (JID_String (ToNonAD chat))
                   (JID_String (ToNonAD sender)) id) ;;
  match r with
  | inl err =>
      if is_ErrNoRows err then ret ([], None)
      else ret ([], Some err)
  | inr secret => ret (secret, None)
  end.

(** The primary key under which the secret of a message is stored. *)
Definition secret_key (s : SQLStore) (chat sender : types_JID) (id : string)
  : string * string * string * string :=
  (JID s, JID_String (ToNonAD chat), JID_String (ToNonAD sender), id).

End Store.

(** ** What a run writes *)

(** The slices the loop of [for_batches] hands to its body, in order. *)
Fixpoint batches_from {A : Type} (fuel size i : nat) (items : list A) : list (list A) :=
  match fuel with
  | O => []
  | S fuel' =>
      if (i <? length items)%nat then
        (if (i + size <? length items)%nat then take size (drop i items)
         else drop i items)
        :: batches_from fuel' size (i + size) items
      else []
  end.

Definition batches {A : Type} (size : nat) (items : list A) : list (list A) :=
  batches_from (length items) size 0 items.

Section Written.
Context {types_JID : Type} `{JIDType types_JID}.

(** A computation that leaves the committed tables alone. *)
Definition keeps_committed {A : Type} (m : M A) : Prop :=
  forall w : World types_JID, committed (m w).2 = committed w.

(** The tables after one message secret, and after a list of them, has been
    inserted where absent. *)
Definition write_secret (s : SQLStore) (d : DB) (i : MessageSecretInsert) : DB :=
  match whatsmeow_message_secrets d !! secret_key s (Chat i) (Sender i) (ID i) with
  | Some _ => d
  | None =>
      SQL.with_message_secrets
        (insert (secret_key s (Chat i) (Sender i) (ID i)) (Secret i)) d
  end.

Definition write_secrets (s : SQLStore) (inserts : list MessageSecretInsert) (d : DB) : DB :=
  foldl (write_secret s) d inserts.

(** The tables after the contact names of one batch have been written. *)
Definition write_contact_batch (s : SQLStore) (d : DB) (batch : list ContactEntry) : DB :=
  SQL.with_contacts
    (fun t => foldl (fun t v => SQL.upsertContactName (JID s) v t) t
                (contact_values ∅ batch)) d.

(** What a method that either commits the effect [f] or fails may do to the
    committed tables. *)
Definition commits_or_keeps (f : DB -> DB) (m : M (option error)) : Prop :=
  forall w : World types_JID,
    match m w with
    | (None, w') => committed w' = f (committed w)
    | (Some _, w') => committed w' = committed w
    end.

(** *** What the further methods write and keep *)

(** The key a row of the pre-key queries scans to. *)
Definition scanned (r : Z * bytes) : PreKey := {| KeyID := r.1; Priv := r.2 |}.



(** The foreign key of the mutation MACs: every MAC row has its version row. *)
Definition references_hold (d : DB) : Prop :=
  forall jid name version index_mac value_mac,
    whatsmeow_app_state_mutation_macs d !! (jid, name, version, index_mac) = Some value_mac ->
    is_Some (whatsmeow_app_state_version d !! (jid, name)).

(** The tables after one mutation MAC has been inserted. *)
Definition write_mutation_mac (jid name : string) (version : Z) (d : DB)
  (m : AppStateMutationMAC) : DB :=
  SQL.with_app_state_mutation_macs
    (insert (jid, name, version, IndexMAC m) (ValueMAC m)) d.

(** The contact cache agrees with the table: every cached entry is what
    [getContact] would build from the row of its user now. *)
Definition cache_coherent (s : SQLStore) (w : World types_JID) : Prop :=
  forall user info, contactCache w !! user = Some info ->
    info = contact_info (whatsmeow_contacts (committed w) !! (JID s, JID_String user)).


(** No cached user other than [user] has the JID text of [user]. *)
Definition alone_in_cache (user : types_JID) (w : World types_JID) : Prop :=
  forall u, is_Some (contactCache w !! u) -> JID_String u = JID_String user -> u = user.

End Written.

(** ** A sample JID type

    User, device and server, enough to run the store on concrete inputs. *)

Module SampleJID.

Record t := { User : string; Device : nat; Server : string }.

#[global] Instance t_eq_dec : EqDecision t.
Proof. solve_decision. Defined.

#[global] Instance t_countable : Countable t :=
  inj_countable'
    (fun j => (User j, Device j, Server j))
    (fun p => {| User := p.1.1; Device := p.1.2; Server := p.2 |})
    (fun j => match j with Build_t _ _ _ => eq_refl end).

Definition NonAD (j : t) : t := {| User := User j; Device := 0; Server := Server j |}.

(** The text before and after the first [c] of a text. *)
Fixpoint split_at (c : ascii) (s : string) : option (string * string) :=
  match s with
  | EmptyString => None
  | String d s' =>
      if Ascii.eqb d c then Some (EmptyString, s')
      else match split_at c s' with
           | None => None
           | Some (before, after) => Some (String d before, after)
           end
  end.

Definition String (j : t) : string :=
  if (Device j =? 0)%nat then User j ++ "@" ++ Server j
  else User j ++ ":" ++ Sprintf_d (Device j) ++ "@" ++ Server j.

#[global] Instance jid_type : JIDType t := {|
  ToNonAD := NonAD;
  JID_String := String;
  IsEmpty := fun j => String.eqb (Server j) "";
|}.

(** [user@server] and [user:device@server]. *)
Definition Scan (text : string) : option t :=
  match split_at "@" text with
  | None => None
  | Some (u, server) =>
      match split_at ":" u with
      | None => Some {| User := u; Device := 0; Server := server |}
      | Some (user, device) =>
          match NilEmpty.uint_of_string device with
          | None => None
          | Some d => Some {| User := user; Device := Nat.of_uint d; Server := server |}
          end
      end
  end.

#[global] Instance jid_scanner : JIDScanner t := {| JID_Scan := Scan |}.

Definition user (u : string) : t := {| User := u; Device := 0; Server := "s.whatsapp.net" |}.

(** A world with nothing stored, no transaction open and a healthy back-end. *)
Definition fresh : World t :=
  {| committed := empty_DB; open_tx := None; faults := []; slept := [];
     contactCache := ∅ |}.

Definition on (d : DB) (f : list (option string)) : World t :=
  {| committed := d; open_tx := None; faults := f; slept := []; contactCache := ∅ |}.

Definition store (tag : string) : SQLStore :=
  {| dialect := tag; JID := "111:1@s.whatsapp.net" |}.

(** Inputs of the sample runs. *)
Definition secret_no (n : nat) : MessageSecretInsert :=
  {| Chat := user "chat"; Sender := user "sender"; ID := Sprintf_d n; Secret := [x01] |}.
Definition fifty_one_secrets : list MessageSecretInsert := map secret_no (seq 0 51).

Definition refused : list (option string) := replicate 3 (Some "connection refused").

Definition fresher : AppStateSyncKey :=
  {| Data := [xd1]; Fingerprint := [xf1]; Timestamp := 100 |}.
Definition staler : AppStateSyncKey :=
  {| Data := [xd2]; Fingerprint := [xf2]; Timestamp := 50 |}.

(** Identities of two peers whose addresses differ in one byte, where the
    first has an underscore (the separator of user and agent). *)
Definition two_identities : DB :=
  SQL.with_identity_keys
    (fun _ => <[("111:1@s.whatsapp.net", "123_1:0") := replicate 32 x01]>
                (<[("111:1@s.whatsapp.net", "12391:0") := replicate 32 x02]> ∅))
    empty_DB.

(** An identity of 31 bytes, as a raw statement can leave one behind. *)
Definition short_identity : DB :=
  SQL.with_identity_keys
    (fun _ => <[("111:1@s.whatsapp.net", "555:0") := replicate 31 x05]> ∅) empty_DB.

(** A chat that is muted and neither pinned nor archived. *)
Definition muted_chat : DB :=
  SQL.with_chat_settings
    (fun _ => <[("111:1@s.whatsapp.net", "chat@s.whatsapp.net") :=
                  {| cs_muted_until := 1700000000; cs_pinned := false;
                     cs_archived := false |}]> ∅) empty_DB.

Definition mac (b : byte) : AppStateMutationMAC :=
  {| IndexMAC := replicate 32 b; ValueMAC := replicate 32 b |}.
Definition entry (u : string) : ContactEntry :=
  {| entry_JID := user u; entry_FirstName := u; entry_FullName := u |}.

(** Two pre-keys: the first uploaded, the second not. *)
Definition two_pre_keys : DB :=
  SQL.with_pre_keys
    (fun _ => <[("111:1@s.whatsapp.net", 1%Z) :=
                  {| pk_key := replicate 32 x01; pk_uploaded := true |}]>
                (<[("111:1@s.whatsapp.net", 2%Z) :=
                     {| pk_key := replicate 32 x02; pk_uploaded := false |}]> ∅))
    empty_DB.

(** Two sync keys with the timestamps 100 and 50. *)
Definition two_sync_keys : DB :=
  SQL.with_app_state_sync_keys
    (fun _ => <[("111:1@s.whatsapp.net", [xab]) :=
                  {| sk_key_data := [xd1]; sk_timestamp := 100; sk_fingerprint := [xf1] |}]>
                (<[("111:1@s.whatsapp.net", [xcd]) :=
                     {| sk_key_data := [xd2]; sk_timestamp := 50;
                        sk_fingerprint := [xf2] |}]> ∅))
    empty_DB.

(** A contact with a push name and no other name. *)
Definition one_contact : DB :=
  SQL.with_contacts
    (fun _ => <[("111:1@s.whatsapp.net", "ann@s.whatsapp.net") :=
                  {| ct_first_name := None; ct_full_name := None;
                     ct_push_name := Some "Annie"; ct_business_name := None |}]> ∅)
    empty_DB.

(** A version row with one mutation MAC that refers to it. *)
Definition one_version : DB :=
  SQL.with_app_state_mutation_macs
    (fun _ => <[("111:1@s.whatsapp.net", "regular", 3%Z, replicate 32 x01) :=
                  replicate 32 x02]> ∅)
    (SQL.with_app_state_version
       (fun _ => <[("111:1@s.whatsapp.net", "regular") :=
                     {| av_version := 3; av_hash := replicate 128 x03 |}]> ∅)
       empty_DB).

End SampleJID.

(** * The schema upgrades ([upgrade.go])

    The upgrades talk to the same kind of back-end as the store, but what
    they change is the schema and the table [whatsmeow_version], so they get
    a state of their own.  The state is that of a back-end whose transactions
    cover schema statements (PostgreSQL, SQLite): a statement taken on a
    transaction lasts if and only if the transaction commits.  MySQL and
    MariaDB commit at every [CREATE TABLE] and [ALTER TABLE]; there the state
    shows what a transaction that commits has done, and nothing is stated
    below about a MySQL transaction that does not commit.  As in the store, a
    statement that the back-end refuses (a table that exists already, a text
    in another dialect's syntax such as the [?] of [setVersion] on
    PostgreSQL) reaches the code as a back-end error of the round trip. *)

Module Migration.

(** [Container], as far as the upgrades look at it: the dialect tag.  Its [db]
    is the [Server] below. *)
Record Container := { dialect : string }.

(** What the upgrades change in a database: the rows of [whatsmeow_version]
    (no table before it is created; a row holds an integer or NULL) and the
    statements on the rest of the schema taken so far, oldest first. *)
Record Schema := {
  whatsmeow_version : option (list (option Z));
  taken : list string;
}.

Definition empty_Schema : Schema := {| whatsmeow_version := None; taken := [] |}.

(** What a run can change or observe: the committed schema, the working copy
    of the open transaction, the errors the back-end is going to report (one
    entry per round trip, as for the store), whether the connection enforces
    foreign keys, and the order in which the runtime is going to walk the Go
    map [textColumns] of [upgradeV7]. *)
Record Server := {
  committed : Schema;
  open_tx : option Schema;
  faults : list (option string);
  foreign_keys : bool;
  contacts_first : bool;
}.

Definition set_committed (d : Schema) (w : Server) : Server :=
  {| committed := d; open_tx := open_tx w; faults := faults w;
     foreign_keys := foreign_keys w; contacts_first := contacts_first w |}.
Definition set_open_tx (t : option Schema) (w : Server) : Server :=
  {| committed := committed w; open_tx := t; faults := faults w;
     foreign_keys := foreign_keys w; contacts_first := contacts_first w |}.
Definition set_faults (f : list (option string)) (w : Server) : Server :=
  {| committed := committed w; open_tx := open_tx w; faults := f;
     foreign_keys := foreign_keys w; contacts_first := contacts_first w |}.

Definition U (A : Type) : Type := Server -> A * Server.

Definition ret {A : Type} (a : A) : U A := fun w => (a, w).
Definition bind {A B : Type} (m : U A) (k : A -> U B) : U B :=
  fun w => let '(a, w') := m w in k a w'.

(** [_, err = m; if err != nil { return err }] and then [k]. *)
Definition or_return (m k : U (option error)) : U (option error) :=
  bind m (fun err => match err with
                     | Some e => ret (Some e)
                     | None => k
                     end).

(** [_, err = m; if err != nil { return fmt.Errorf("<context>: %w", err) }]
    and then [k]. *)
Definition or_return_wrapped (m : U (option error)) (context : string)
  (k : U (option error)) : U (option error) :=
  bind m (fun err => match err with
                     | Some e => ret (Some (Errorf_w context e))
                     | None => k
                     end).

Declare Scope upgrade_scope.
Delimit Scope upgrade_scope with upgrade.
Notation "x <- m ;; k" := (bind m (fun x => k))
  (at level 20, m at level 99, k at level 200, only parsing) : upgrade_scope.
Notation "' p <- m ;; k" := (bind m (fun p => k))
  (at level 20, p pattern, m at level 99, k at level 200, only parsing) : upgrade_scope.
Notation "'exec!' m ;; k" := (or_return m k)
  (at level 20, m at level 99, k at level 200, only parsing) : upgrade_scope.
Notation "'exec!' m 'wrapped' context ;; k" := (or_return_wrapped m context k)
  (at level 20, m at level 99, context at level 0, k at level 200, only parsing)
  : upgrade_scope.
Local Open Scope upgrade_scope.

Definition next_fault : U (option string) :=
  fun w => match faults w with
           | [] => (None, w)
           | f :: rest => (f, set_faults rest w)
           end.

(** [fmt.Errorf(text)] for a text without verbs: an error that is its text. *)
Definition Errorf (text : string) : error := DriverError text.

(** ** The statements on [whatsmeow_version] *)

Definition statement := Schema -> error + Schema.

Definition no_such_table : error := DriverError "no such table: whatsmeow_version".
Definition wrong_arguments : error := DriverError "wrong number of arguments".

Definition createVersionTable_sql : string :=
  "CREATE TABLE IF NOT EXISTS whatsmeow_version (version INTEGER)".
Definition deleteVersions_sql : string := "DELETE FROM whatsmeow_version".
Definition insertVersion_sql : string :=
  "INSERT INTO whatsmeow_version (version) VALUES (?)".

(** What a statement does: the three statements on [whatsmeow_version] change
    its rows; any other text is a statement on the rest of the schema and is
    put on record. *)
Definition meaning (query : string) (args : list Z) : statement :=
  fun d =>
    if String.eqb query createVersionTable_sql then
      inr {| whatsmeow_version := Some (default [] (whatsmeow_version d));
             taken := taken d |}
    else if String.eqb query deleteVersions_sql then
      match whatsmeow_version d with
      | None => inl no_such_table
      | Some _ => inr {| whatsmeow_version := Some []; taken := taken d |}
      end
    else if String.eqb query insertVersion_sql then
      match whatsmeow_version d, args with
      | None, _ => inl no_such_table
      | Some rows, [version] =>
          inr {| whatsmeow_version := Some (rows ++ [Some version])%list; taken := taken d |}
      | Some _, _ => inl wrong_arguments
      end
    else inr {| whatsmeow_version := whatsmeow_version d; taken := (taken d ++ [query])%list |}.

(** [h.Exec(query, args...)], on [c.db] or on a transaction. *)
Definition Exec (h : execable) (query : string) (args : list Z) : U (option error) :=
  f <- next_fault ;;
  match f with
  | Some msg => ret (Some (DriverError msg))
  | None => fun w =>
      match h with
      | sql_DB =>
          match meaning query args (committed w) with
          | inl e => (Some e, w)
          | inr d => (None, set_committed d w)
          end
      | sql_Tx =>
          match open_tx w with
          | None => (Some tx_done, w)
          | Some t =>
              match meaning query args t with
              | inl e => (Some e, w)
              | inr d => (None, set_open_tx (Some d) w)
              end
          end
      end
  end.

(** [c.db.QueryRow(query).Scan(&v)]. *)
Definition QueryRow {A : Type} (q : Server -> error + A) : U (error + A) :=
  f <- next_fault ;;
  match f with
  | Some msg => ret (inl (DriverError msg))
  | None => fun w => (q w, w)
  end.

Definition scan_null : error :=
  DriverError "sql: Scan error on column index 0: converting NULL to int is unsupported".

(** [SELECT version FROM whatsmeow_version LIMIT 1] scanned into an [int]; of
    several rows, the one met first. *)
Definition select_version (w : Server) : error + Z :=
  match whatsmeow_version (committed w) with
  | None => inl no_such_table
  | Some [] => inl ErrNoRows
  | Some (None :: _) => inl scan_null
  | Some (Some version :: _) => inr version
  end.

(** [PRAGMA foreign_keys] scanned into a [bool]. *)
Definition pragma_foreign_keys (w : Server) : error + bool := inr (foreign_keys w).

(** [SELECT @@foreign_key_checks] scanned into an [int]. *)
Definition select_foreign_key_checks (w : Server) : error + Z :=
  inr (if foreign_keys w then 1 else 0)%Z.

(** [SELECT VERSION()]; the answer is never looked at. *)
Definition select_VERSION (w : Server) : error + unit := inr tt.

(** [c.db.Begin()], [tx.Commit()] and [tx.Rollback()], as for the store. *)
Definition Begin : U (option error) :=
  f <- next_fault ;;
  match f with
  | Some msg => ret (Some (DriverError msg))
  | None => fun w => (None, set_open_tx (Some (committed w)) w)
  end.

Definition Commit : U (option error) :=
  f <- next_fault ;;
  fun w =>
    match f with
    | Some msg => (Some (DriverError msg), set_open_tx None w)
    | None =>
        match open_tx w with
        | None => (Some tx_done, w)
        | Some t => (None, set_open_tx None (set_committed t w))
        end
    end.

Definition Rollback : U unit :=
  fun w => (tt, set_open_tx None w).

(** ** [getVersion] and [setVersion] *)

(** The result of the [Scan] is thrown away: whatever goes wrong with the
    question leaves [version] at 0. *)
Definition getVersion (c : Container) : U (Z * option error) :=
  err <- Exec sql_DB createVersionTable_sql [] ;;
  match err with
  | Some e => ret ((-1)%Z, Some e)
  | None =>
      r <- QueryRow select_version ;;
      match r with
      | inr version => ret (version, None)
      | inl _ => ret (0%Z, None)
      end
  end.

Definition setVersion (c : Container) (version : Z) : U (option error) :=
  exec! Exec sql_Tx deleteVersions_sql [] ;;
  Exec sql_Tx insertVersion_sql [version].

(** ** The upgrades *)

(** [upgradeV1MySQL]: the schema for MySQL and MariaDB.  The server version is
    asked for first and neither the answer nor a failure of the question is
    used. *)
Definition upgradeV1MySQL (c : Container) : U (option error) :=
  _ <- QueryRow select_VERSION ;;
  exec! Exec sql_Tx
"CREATE TABLE IF NOT EXISTS whatsmeow_device (
        jid VARCHAR(255) PRIMARY KEY,
        registration_id BIGINT NOT NULL,
        noise_key    LONGBLOB NOT NULL,
        identity_key LONGBLOB NOT NULL,
        signed_pre_key     LONGBLOB NOT NULL,
        signed_pre_key_id  INTEGER NOT NULL,
        signed_pre_key_sig LONGBLOB NOT NULL,
        adv_key         LONGBLOB NOT NULL,
        adv_details     LONGBLOB NOT NULL,
        adv_account_sig LONGBLOB NOT NULL,
        adv_device_sig  LONGBLOB NOT NULL,
        platform      TEXT NOT NULL,
        business_name TEXT NOT NULL,
        push_name     TEXT NOT NULL
    )" []
    wrapped "failed to create whatsmeow_device table" ;;
  exec! Exec sql_Tx
"CREATE TABLE IF NOT EXISTS whatsmeow_identity_keys (
        our_jid  VARCHAR(255),
        their_id VARCHAR(255),
        identity LONGBLOB NOT NULL,
        PRIMARY KEY (our_jid, their_id),
        FOREIGN KEY (our_jid) REFERENCES whatsmeow_device(jid) ON DELETE CASCADE ON UPDATE CASCADE
    )" []
    wrapped "failed to create whatsmeow_identity_keys table" ;;
  exec! Exec sql_Tx
"CREATE TABLE IF NOT EXISTS whatsmeow_pre_keys (
        jid VARCHAR(255),
        key_id INTEGER,
        `key` LONGBLOB NOT NULL,
        uploaded TINYINT(1) NOT NULL,
        PRIMARY KEY (jid, key_id),
        FOREIGN KEY (jid) REFERENCES whatsmeow_device(jid) ON DELETE CASCADE ON UPDATE CASCADE
    )" []
    wrapped "failed to create whatsmeow_pre_keys table" ;;
  exec! Exec sql_Tx
"CREATE TABLE IF NOT EXISTS whatsmeow_sessions (
        our_jid VARCHAR(255),
        their_id VARCHAR(255),
        session LONGBLOB,
        PRIMARY KEY (our_jid, their_id),
        FOREIGN KEY (our_jid) REFERENCES whatsmeow_device(jid) ON DELETE CASCADE ON UPDATE CASCADE
    )" []
    wrapped "failed to create whatsmeow_sessions table" ;;
  exec! Exec sql_Tx
"CREATE TABLE IF NOT EXISTS whatsmeow_sender_keys (
        our_jid VARCHAR(255),
        chat_id VARCHAR(255),
        sender_id VARCHAR(255),
        sender_key LONGBLOB NOT NULL,
        PRIMARY KEY (our_jid, chat_id, sender_id),
        FOREIGN KEY (our_jid) REFERENCES whatsmeow_device(jid) ON DELETE CASCADE ON UPDATE CASCADE
    )" []
    wrapped "failed to create whatsmeow_sender_keys table" ;;
  exec! Exec sql_Tx
"CREATE TABLE IF NOT EXISTS whatsmeow_app_state_sync_keys (
        jid VARCHAR(255),
        key_id LONGBLOB,
        key_data LONGBLOB NOT NULL,
        timestamp BIGINT NOT NULL,
        fingerprint LONGBLOB NOT NULL,
        PRIMARY KEY (jid, key_id(255)),
        FOREIGN KEY (jid) REFERENCES whatsmeow_device(jid) ON DELETE CASCADE ON UPDATE CASCADE
    )" []
    wrapped "failed to create whatsmeow_app_state_sync_keys table" ;;
  exec! Exec sql_Tx
"CREATE TABLE IF NOT EXISTS whatsmeow_app_state_version (
        jid VARCHAR(255),
        name VARCHAR(255),
        version BIGINT NOT NULL,
        hash LONGBLOB NOT NULL,
        PRIMARY KEY (jid, name),
        FOREIGN KEY (jid) REFERENCES whatsmeow_device(jid) ON DELETE CASCADE ON UPDATE CASCADE
    )" []
    wrapped "failed to create whatsmeow_app_state_version table" ;;
  exec! Exec sql_Tx
"CREATE TABLE IF NOT EXISTS whatsmeow_app_state_mutation_macs (
        jid VARCHAR(255),
        name VARCHAR(255),
        version BIGINT,
        index_mac LONGBLOB,
        value_mac LONGBLOB NOT NULL,
        PRIMARY KEY (jid, name, version, index_mac(32)),
        FOREIGN KEY (jid, name) REFERENCES whatsmeow_app_state_version(jid, name) ON DELETE CASCADE ON UPDATE CASCADE
    )" []
    wrapped "failed to create whatsmeow_app_state_mutation_macs table" ;;
  exec! Exec sql_Tx
"CREATE TABLE IF NOT EXISTS whatsmeow_contacts (
        our_jid VARCHAR(255),
        their_jid VARCHAR(255),
        first_name TEXT,
        full_name TEXT,
        push_name TEXT,
        business_name TEXT,
        PRIMARY KEY (our_jid, their_jid),
        FOREIGN KEY (our_jid) REFERENCES whatsmeow_device(jid) ON DELETE CASCADE ON UPDATE CASCADE
    )" []
    wrapped "failed to create whatsmeow_contacts table" ;;
  exec! Exec sql_Tx
"CREATE TABLE IF NOT EXISTS whatsmeow_chat_settings (
        our_jid VARCHAR(255),
        chat_jid VARCHAR(255),
        muted_until BIGINT NOT NULL DEFAULT 0,
        pinned TINYINT(1) NOT NULL DEFAULT 0,
        archived TINYINT(1) NOT NULL DEFAULT 0,
        PRIMARY KEY (our_jid, chat_jid),
        FOREIGN KEY (our_jid) REFERENCES whatsmeow_device(jid) ON DELETE CASCADE ON UPDATE CASCADE
    )" []
    wrapped "failed to create whatsmeow_chat_settings table" ;;
  ret None.

(** [upgradeV1]: the schema for PostgreSQL and SQLite. *)
Definition upgradeV1 (c : Container) : U (option error) :=
  if String.eqb (dialect c) "mysql" then upgradeV1MySQL c else
  exec! Exec sql_Tx
"CREATE TABLE whatsmeow_device (
		jid TEXT PRIMARY KEY,

		registration_id BIGINT NOT NULL CHECK ( registration_id >= 0 AND registration_id < 4294967296 ),

		noise_key    bytea NOT NULL CHECK ( length(noise_key) = 32 ),
		identity_key bytea NOT NULL CHECK ( length(identity_key) = 32 ),

		signed_pre_key     bytea   NOT NULL CHECK ( length(signed_pre_key) = 32 ),
		signed_pre_key_id  INTEGER NOT NULL CHECK ( signed_pre_key_id >= 0 AND signed_pre_key_id < 16777216 ),
		signed_pre_key_sig bytea   NOT NULL CHECK ( length(signed_pre_key_sig) = 64 ),

		adv_key         bytea NOT NULL,
		adv_details     bytea NOT NULL,
		adv_account_sig bytea NOT NULL CHECK ( length(adv_account_sig) = 64 ),
		adv_device_sig  bytea NOT NULL CHECK ( length(adv_device_sig) = 64 ),

		platform      TEXT NOT NULL DEFAULT '',
		business_name TEXT NOT NULL DEFAULT '',
		push_name     TEXT NOT NULL DEFAULT ''
	)" [] ;;
  exec! Exec sql_Tx
"CREATE TABLE whatsmeow_identity_keys (
		our_jid  TEXT,
		their_id TEXT,
		identity bytea NOT NULL CHECK ( length(identity) = 32 ),

		PRIMARY KEY (our_jid, their_id),
		FOREIGN KEY (our_jid) REFERENCES whatsmeow_device(jid) ON DELETE CASCADE ON UPDATE CASCADE
	)" [] ;;
  exec! Exec sql_Tx
"CREATE TABLE whatsmeow_pre_keys (
		jid      TEXT,
		key_id   INTEGER          CHECK ( key_id >= 0 AND key_id < 16777216 ),
		key      bytea   NOT NULL CHECK ( length(key) = 32 ),
		uploaded BOOLEAN NOT NULL,

		PRIMARY KEY (jid, key_id),
		FOREIGN KEY (jid) REFERENCES whatsmeow_device(jid) ON DELETE CASCADE ON UPDATE CASCADE
	)" [] ;;
  exec! Exec sql_Tx
"CREATE TABLE whatsmeow_sessions (
		our_jid  TEXT,
		their_id TEXT,
		session  bytea,

		PRIMARY KEY (our_jid, their_id),
		FOREIGN KEY (our_jid) REFERENCES whatsmeow_device(jid) ON DELETE CASCADE ON UPDATE CASCADE
	)" [] ;;
  exec! Exec sql_Tx
"CREATE TABLE whatsmeow_sender_keys (
		our_jid    TEXT,
		chat_id    TEXT,
		sender_id  TEXT,
		sender_key bytea NOT NULL,

		PRIMARY KEY (our_jid, chat_id, sender_id),
		FOREIGN KEY (our_jid) REFERENCES whatsmeow_device(jid) ON DELETE CASCADE ON UPDATE CASCADE
	)" [] ;;
  exec! Exec sql_Tx
"CREATE TABLE whatsmeow_app_state_sync_keys (
		jid         TEXT,
		key_id      bytea,
		key_data    bytea  NOT NULL,
		timestamp   BIGINT NOT NULL,
		fingerprint bytea  NOT NULL,

		PRIMARY KEY (jid, key_id),
		FOREIGN KEY (jid) REFERENCES whatsmeow_device(jid) ON DELETE CASCADE ON UPDATE CASCADE
	)" [] ;;
  exec! Exec sql_Tx
"CREATE TABLE whatsmeow_app_state_version (
		jid     TEXT,
		name    TEXT,
		version BIGINT NOT NULL,
		hash    bytea  NOT NULL CHECK ( length(hash) = 128 ),

		PRIMARY KEY (jid, name),
		FOREIGN KEY (jid) REFERENCES whatsmeow_device(jid) ON DELETE CASCADE ON UPDATE CASCADE
	)" [] ;;
  exec! Exec sql_Tx
"CREATE TABLE whatsmeow_app_state_mutation_macs (
		jid       TEXT,
		name      TEXT,
		version   BIGINT,
		index_mac bytea          CHECK ( length(index_mac) = 32 ),
		value_mac bytea NOT NULL CHECK ( length(value_mac) = 32 ),

		PRIMARY KEY (jid, name, version, index_mac),
		FOREIGN KEY (jid, name) REFERENCES whatsmeow_app_state_version(jid, name) ON DELETE CASCADE ON UPDATE CASCADE
	)" [] ;;
  exec! Exec sql_Tx
"CREATE TABLE whatsmeow_contacts (
		our_jid       TEXT,
		their_jid     TEXT,
		first_name    TEXT,
		full_name     TEXT,
		push_name     TEXT,
		business_name TEXT,

		PRIMARY KEY (our_jid, their_jid),
		FOREIGN KEY (our_jid) REFERENCES whatsmeow_device(jid) ON DELETE CASCADE ON UPDATE CASCADE
	)" [] ;;
  exec! Exec sql_Tx
"CREATE TABLE whatsmeow_chat_settings (
		our_jid       TEXT,
		chat_jid      TEXT,
		muted_until   BIGINT  NOT NULL DEFAULT 0,
		pinned        BOOLEAN NOT NULL DEFAULT false,
		archived      BOOLEAN NOT NULL DEFAULT false,

		PRIMARY KEY (our_jid, chat_jid),
		FOREIGN KEY (our_jid) REFERENCES whatsmeow_device(jid) ON DELETE CASCADE ON UPDATE CASCADE
	)" [] ;;
  ret None.

Definition fillSigKeyPostgres : string :=
  "
UPDATE whatsmeow_device SET adv_account_sig_key=(
	SELECT identity
	FROM whatsmeow_identity_keys
	WHERE our_jid=whatsmeow_device.jid
	  AND their_id=concat(split_part(whatsmeow_device.jid, '.', 1), ':0')
);
DELETE FROM whatsmeow_device WHERE adv_account_sig_key IS NULL;
ALTER TABLE whatsmeow_device ALTER COLUMN adv_account_sig_key SET NOT NULL;
".

Definition fillSigKeySQLite : string :=
  "
UPDATE whatsmeow_device SET adv_account_sig_key=(
	SELECT identity
	FROM whatsmeow_identity_keys
	WHERE our_jid=whatsmeow_device.jid
	  AND their_id=substr(whatsmeow_device.jid, 0, instr(whatsmeow_device.jid, '.')) || ':0'
)
".

Definition fillSigKeyMySQL : string :=
  "
UPDATE whatsmeow_device SET adv_account_sig_key=(
	SELECT identity
	FROM whatsmeow_identity_keys
	WHERE our_jid=whatsmeow_device.jid
	  AND their_id=CONCAT(SUBSTRING_INDEX(whatsmeow_device.jid, '.', 1), ':0')
)
".

(** [upgradeV2]: on MySQL a column that exists already is no failure. *)
Definition upgradeV2 (container : Container) : U (option error) :=
  err <- (if String.eqb (dialect container) "mysql"
          then Exec sql_Tx "ALTER TABLE whatsmeow_device ADD COLUMN adv_account_sig_key BLOB" []
          else Exec sql_Tx "ALTER TABLE whatsmeow_device ADD COLUMN adv_account_sig_key bytea" []) ;;
  let fill :=
    if Contains (dialect container) "postgres" || String.eqb (dialect container) "pgx"
    then Exec sql_Tx fillSigKeyPostgres []
    else if String.eqb (dialect container) "mysql" then
      exec! Exec sql_Tx fillSigKeyMySQL [] ;;
      exec! Exec sql_Tx "DELETE FROM whatsmeow_device WHERE adv_account_sig_key IS NULL" [] ;;
      Exec sql_Tx "ALTER TABLE whatsmeow_device MODIFY adv_account_sig_key BLOB NOT NULL" []
    else Exec sql_Tx fillSigKeySQLite [] in
  match err with
  | Some e =>
      if String.eqb (dialect container) "mysql" && Contains (Error e) "Duplicate column name"
      then fill
      else ret (Some e)
  | None => fill
  end.

Definition upgradeV3 (container : Container) : U (option error) :=
  if String.eqb (dialect container) "mysql" then
    Exec sql_Tx
("CREATE TABLE IF NOT EXISTS whatsmeow_message_secrets (
            our_jid VARCHAR(255),
            chat_jid VARCHAR(255),
            sender_jid VARCHAR(255),
            message_id VARCHAR(255),
            " ++ "`key`" ++ " LONGBLOB NOT NULL,
            PRIMARY KEY (our_jid, chat_jid, sender_jid, message_id),
            FOREIGN KEY (our_jid) REFERENCES whatsmeow_device(jid) ON DELETE CASCADE ON UPDATE CASCADE
        )") []
  else
    let blobType := "bytea" in
    Exec sql_Tx
("CREATE TABLE whatsmeow_message_secrets (
            our_jid TEXT,
            chat_jid TEXT,
            sender_jid TEXT,
            message_id TEXT,
            key " ++ blobType ++ " NOT NULL,
            PRIMARY KEY (our_jid, chat_jid, sender_jid, message_id),
            FOREIGN KEY (our_jid) REFERENCES whatsmeow_device(jid) ON DELETE CASCADE ON UPDATE CASCADE
        )") [].

Definition upgradeV4 (container : Container) : U (option error) :=
  if String.eqb (dialect container) "mysql" then
    Exec sql_Tx
"CREATE TABLE IF NOT EXISTS whatsmeow_privacy_tokens (
            our_jid VARCHAR(255),
            their_jid VARCHAR(255),
            token LONGBLOB NOT NULL,
            timestamp BIGINT NOT NULL,
            PRIMARY KEY (our_jid, their_jid)
        )" []
  else
    let blobType := "bytea" in
    Exec sql_Tx
("CREATE TABLE whatsmeow_privacy_tokens (
            our_jid TEXT,
            their_jid TEXT,
            token " ++ blobType ++ " NOT NULL,
            timestamp BIGINT NOT NULL,
            PRIMARY KEY (our_jid, their_jid)
        )") [].

Definition upgradeV5 (container : Container) : U (option error) :=
  Exec sql_Tx "UPDATE whatsmeow_device SET jid=REPLACE(jid, '.0', '')" [].

Definition upgradeV6 (container : Container) : U (option error) :=
  if String.eqb (dialect container) "mysql"
  then Exec sql_Tx "ALTER TABLE whatsmeow_device ADD COLUMN facebook_uuid VARCHAR(36)" []
  else Exec sql_Tx "ALTER TABLE whatsmeow_device ADD COLUMN facebook_uuid uuid" [].

(** The tables and text columns that [upgradeV7] converts. *)
Definition tables : list string :=
  [ "whatsmeow_contacts"; "whatsmeow_device"; "whatsmeow_chat_settings";
    "whatsmeow_message_secrets"; "whatsmeow_app_state_sync_keys";
    "whatsmeow_app_state_version"; "whatsmeow_identity_keys"; "whatsmeow_pre_keys";
    "whatsmeow_sessions"; "whatsmeow_sender_keys"; "whatsmeow_privacy_tokens" ].

Definition contacts_columns : string * list string :=
  ("whatsmeow_contacts", ["first_name"; "full_name"; "push_name"; "business_name"]).
Definition device_columns : string * list string :=
  ("whatsmeow_device", ["platform"; "business_name"; "push_name"]).

(** [range textColumns]: a Go map is walked in an order of the runtime's
    choosing. *)
Definition textColumns (w : Server) : list (string * list string) :=
  if contacts_first w then [contacts_columns; device_columns]
  else [device_columns; contacts_columns].

(** [_, _ = tx.Exec("SET FOREIGN_KEY_CHECKS = 1"); return fmt.Errorf(...)]. *)
Definition reenable_and_fail (context : string) (e : error) : U (option error) :=
  _ <- Exec sql_Tx "SET FOREIGN_KEY_CHECKS = 1" [] ;;
  ret (Some (Errorf_w context e)).

(** [for _, table := range tables { ... }] and then [k]. *)
Fixpoint convert_tables (tables : list string) (k : U (option error)) : U (option error) :=
  match tables with
  | [] => k
  | table :: rest =>
      err <- Exec sql_Tx
               ("ALTER TABLE " ++ table ++ " CHARACTER SET = utf8mb4 COLLATE utf8mb4_unicode_ci") [] ;;
      match err with
      | Some e => reenable_and_fail ("failed to convert " ++ table ++ " table to utf8mb4") e
      | None => convert_tables rest k
      end
  end.

(** [for _, column := range columns { ... }] and then [k]. *)
Fixpoint convert_columns (table : string) (columns : list string) (k : U (option error))
  : U (option error) :=
  match columns with
  | [] => k
  | column :: rest =>
      err <- Exec sql_Tx
               ("ALTER TABLE " ++ table ++ " MODIFY " ++ column
                ++ " TEXT CHARACTER SET utf8mb4 COLLATE utf8mb4_unicode_ci") [] ;;
      match err with
      | Some e =>
          reenable_and_fail
            ("failed to modify " ++ table ++ "." ++ column ++ " column to utf8mb4") e
      | None => convert_columns table rest k
      end
  end.

(** [for table, columns := range textColumns { ... }] and then [k]. *)
Fixpoint convert_text_columns (textColumns : list (string * list string))
  (k : U (option error)) : U (option error) :=
  match textColumns with
  | [] => k
  | (table, columns) :: rest =>
      convert_columns table columns (convert_text_columns rest k)
  end.

(** [upgradeV7]: only MySQL and MariaDB have anything to do. *)
Definition upgradeV7 (container : Container) : U (option error) :=
  if String.eqb (dialect container) "mysql" then
    exec! Exec sql_Tx "SET FOREIGN_KEY_CHECKS = 0" []
      wrapped "failed to disable foreign key checks" ;;
    err <- Exec sql_Tx "SET NAMES utf8mb4" [] ;;
    match err with
    | Some e => reenable_and_fail "failed to set default character set" e
    | None =>
        convert_tables tables (
          fun w =>
            convert_text_columns (textColumns w) (
              exec! Exec sql_Tx "SET FOREIGN_KEY_CHECKS = 1" []
                wrapped "failed to re-enable foreign key checks" ;;
              ret None) w)
    end
  else ret None.

(** [type upgradeFunc]: a function of the transaction and the container that
    returns an [error]; the transaction is the open one. *)
Definition upgradeFunc : Type := Container -> U (option error).

Definition Upgrades : list upgradeFunc :=
  [upgradeV1; upgradeV2; upgradeV3; upgradeV4; upgradeV5; upgradeV6; upgradeV7].

(** ** [Upgrade] *)

(** How a call ends: it returns, or the runtime panics. *)
Inductive outcome :=
  | Returned (err : option error)
  | Panicked (msg : string).

Definition index_out_of_range : string := "runtime error: index out of range".

(** The loop [for ; version < len(Upgrades); version++].  Every turn adds one
    to [version], so [fuel] turns are enough when [fuel] is at least
    [len(Upgrades) - version].  [Upgrades[version]] panics for a negative
    [version], with the transaction begun. *)
Fixpoint upgrade_loop (c : Container) (fuel : nat) (version : Z) : U outcome :=
  if (version <? Z.of_nat (length Upgrades))%Z then
    match fuel with
    | O => ret (Returned None)
    | S fuel' =>
        err <- Begin ;;
        match err with
        | Some e => ret (Returned (Some e))
        | None =>
            if (version <? 0)%Z then ret (Panicked index_out_of_range) else
            match Upgrades !! Z.to_nat version with
            | None => ret (Panicked index_out_of_range)
            | Some migrateFunc =>
                err <- migrateFunc c ;;
                match err with
                | Some e => _ <- Rollback ;; ret (Returned (Some e))
                | None =>
                    err <- setVersion c (version + 1) ;;
                    match err with
                    | Some e => ret (Returned (Some e))
                    | None =>
                        err <- Commit ;;
                        match err with
                        | Some e => ret (Returned (Some e))
                        | None => upgrade_loop c fuel' (version + 1)
                        end
                    end
                end
            end
        end
    end
  else ret (Returned None).

Definition foreign_keys_not_enabled : error := Errorf "foreign keys are not enabled".

(** The check of the foreign keys: for the dialects [sqlite] and [mysql]. *)
Definition check_foreign_keys (c : Container) : U (option error) :=
  if String.eqb (dialect c) "sqlite" then
    r <- QueryRow pragma_foreign_keys ;;
    match r with
    | inl e => ret (Some (Errorf_w "failed to check if foreign keys are enabled" e))
    | inr foreignKeysEnabled =>
        if negb foreignKeysEnabled then ret (Some foreign_keys_not_enabled)
        else ret None
    end
  else if String.eqb (dialect c) "mysql" then
    r <- QueryRow select_foreign_key_checks ;;
    match r with
    | inl e => ret (Some (Errorf_w "failed to check if foreign keys are enabled" e))
    | inr foreignKeysEnabled =>
        if negb (foreignKeysEnabled =? 1)%Z then ret (Some foreign_keys_not_enabled)
        else ret None
    end
  else ret None.

Definition Upgrade (c : Container) : U outcome :=
  err <- check_foreign_keys c ;;
  match err with
  | Some e => ret (Returned (Some e))
  | None =>
      '(version, err) <- getVersion c ;;
      match err with
      | Some e => ret (Returned (Some e))
      | None => upgrade_loop c (Z.to_nat (Z.of_nat (length Upgrades) - version)) version
      end
  end.

(** The statements a migration sends when nothing fails. *)
Definition statements_of (c : Container) (contactsFirst : bool) (migrateFunc : upgradeFunc)
  : list string :=
  let w := {| committed := empty_Schema; open_tx := Some empty_Schema; faults := [];
              foreign_keys := true; contacts_first := contactsFirst |} in
  match open_tx (migrateFunc c w).2 with
  | Some t => taken t
  | None => []
  end.

(** The version a database is at: what [getVersion] makes of the table. *)
Definition stored_version (d : Schema) : Z :=
  match whatsmeow_version d with
  | Some (Some version :: _) => version
  | _ => 0%Z
  end.

(** ** What the upgrades leave behind *)

(** A schema with further statements taken. *)
Definition log (t : Schema) (texts : list string) : Schema :=
  {| whatsmeow_version := whatsmeow_version t; taken := (taken t ++ texts)%list |}.

(** The schema once [setVersion] has run: the one row. *)
Definition at_version (version : Z) (t : Schema) : Schema :=
  {| whatsmeow_version := Some [Some version]; taken := taken t |}.

(** The schema once [whatsmeow_version] exists. *)
Definition created (d : Schema) : Schema :=
  {| whatsmeow_version := Some (default [] (whatsmeow_version d)); taken := taken d |}.

(** The schema after the migrations from [version] on have run. *)
Definition migrated (c : Container) (contactsFirst : bool) (version : Z) (d : Schema)
  : Schema :=
  {| whatsmeow_version := Some [Some (Z.of_nat (length Upgrades))];
     taken := (taken d ++ concat (map (statements_of c contactsFirst)
                                      (drop (Z.to_nat version) Upgrades)))%list |}.

(** A text that is none of the three statements on [whatsmeow_version]. *)
Definition plain (query : string) : bool :=
  negb (String.eqb query createVersionTable_sql)
  && negb (String.eqb query deleteVersions_sql)
  && negb (String.eqb query insertVersion_sql).

(** [m], run on an open transaction, never touches the committed schema, and
    if it returns no error it has added [texts] to the transaction. *)
Definition sends (m : U (option error)) (texts : list string) : Prop :=
  forall w t, open_tx w = Some t ->
    exists r w',
      m w = (r, w') /\ committed w' = committed w /\
      contacts_first w' = contacts_first w /\
      (r = None -> open_tx w' = Some (log t texts)).

(** [d] is [d0] after [j] whole migrations from version [u] on, each with its
    change of the stored version. *)
Definition advanced (c : Container) (contactsFirst : bool) (u : Z) (j : nat)
  (d0 d : Schema) : Prop :=
  taken d = (taken d0 ++ concat (map (statements_of c contactsFirst)
                                     (take j (drop (Z.to_nat u) Upgrades))))%list /\
  match j with
  | O => whatsmeow_version d = whatsmeow_version d0
  | S _ => (0 <= u)%Z /\ (u + Z.of_nat j <= 7)%Z /\
           whatsmeow_version d = Some [Some (u + Z.of_nat j)%Z]
  end.

(** ** Sample containers and servers *)

Definition container (dialect : string) : Container := {| dialect := dialect |}.

(** A server without foreign keys that holds [d] and fails as [f] says. *)
Definition server (d : Schema) (f : list (option string)) : Server :=
  {| committed := d; open_tx := None; faults := f;
     foreign_keys := false; contacts_first := true |}.

Definition schema_at (version : Z) : Schema :=
  {| whatsmeow_version := Some [Some version]; taken := [] |}.

End Migration.

(** * Theorems *)

(** ** The dialect layer: the marker loop *)

Section MarkerLoop.

Lemma string_ind2 (P : string -> Prop) :
  P "" ->
  (forall c, P (String c "")) ->
  (forall c e s, P s -> P (String e s) -> P (String c (String e s))) ->
  forall s, P s.
Proof.
  intros H0 H1 H2 s.
  assert (P s /\ forall c, P (String c s)) as [? _]; [|assumption].
  induction s as [|e s [IHa IHb]]; split; auto.
Qed.

Lemma replace_pairs_cons_other P c s :
  Ascii.eqb c "$" = false ->
  replace_pairs P (String c s) = String c (replace_pairs P s).
Proof.
  intros Hc. destruct s as [|e s]; simpl; [reflexivity|].
  rewrite Hc. reflexivity.
Qed.

Lemma replace_pairs_ext P Q s :
  (forall e, P e = Q e) -> replace_pairs P s = replace_pairs Q s.
Proof.
  intros HPQ. induction s as [|c|c e s IH1 IH2] using string_ind2; simpl; auto.
  rewrite HPQ. destruct (Ascii.eqb c "$" && Q e); f_equal; auto.
Qed.

(** One pass of the loop with a two-byte pattern [$d]. *)
Lemma ReplaceAll_pair d s :
  ReplaceAll s (String "$" (String d "")) "?" = replace_pairs (Ascii.eqb d) s.
Proof.
  unfold ReplaceAll.
  induction s as [|c|c e s IH1 IH2] using string_ind2.
  - reflexivity.
  - simpl. destruct (Ascii.eqb c "$"); reflexivity.
  - change (replace_from (String "$" (String d "")) "?" 0 (String c (String e s)))
      with (if HasPrefix (String c (String e s)) (String "$" (String d ""))
            then "?" ++ replace_from (String "$" (String d "")) "?" 0 s
            else String c (replace_from (String "$" (String d "")) "?" 0 (String e s))).
    change (replace_pairs (Ascii.eqb d) (String c (String e s)))
      with (if Ascii.eqb c "$" && Ascii.eqb d e
            then String "?" (replace_pairs (Ascii.eqb d) s)
            else String c (replace_pairs (Ascii.eqb d) (String e s))).
    rewrite IH1, IH2. simpl HasPrefix.
    rewrite (Ascii.eqb_sym d e).
    destruct (Ascii.eqb c "$"), (Ascii.eqb e d); reflexivity.
Qed.

Lemma head_replace_pairs P Q e s :
  Q "?"%char = false ->
  head_sat Q (replace_pairs P (String e s)) = true -> Q e = true.
Proof.
  intros HQ. destruct s as [|e' s]; simpl; [auto|].
  destruct (Ascii.eqb e "$" && P e'); simpl; [congruence|auto].
Qed.

(** A later pass on top of earlier ones is one simultaneous pass. *)
Lemma replace_pairs_compose P d s :
  Ascii.eqb d "?" = false ->
  Ascii.eqb d "$" = false ->
  replace_pairs (Ascii.eqb d) (replace_pairs P s)
  = replace_pairs (fun e => P e || Ascii.eqb d e) s.
Proof.
  intros Hd Hd'.
  induction s as [|c|c e s IH1 IH2] using string_ind2.
  - reflexivity.
  - reflexivity.
  - change (replace_pairs P (String c (String e s)))
      with (if Ascii.eqb c "$" && P e
            then String "?" (replace_pairs P s)
            else String c (replace_pairs P (String e s))).
    change (replace_pairs (fun e0 => P e0 || Ascii.eqb d e0) (String c (String e s)))
      with (if Ascii.eqb c "$" && (P e || Ascii.eqb d e)
            then String "?" (replace_pairs (fun e0 => P e0 || Ascii.eqb d e0) s)
            else String c (replace_pairs (fun e0 => P e0 || Ascii.eqb d e0) (String e s))).
    destruct (Ascii.eqb c "$") eqn:Hc; simpl andb; cbv iota.
    + destruct (P e) eqn:HPe; simpl orb; cbv iota.
      * rewrite replace_pairs_cons_other by reflexivity. now rewrite IH1.
      * destruct (Ascii.eqb d e) eqn:Hde.
        -- cbv iota. apply Ascii.eqb_eq in Hde. subst e.
           rewrite (replace_pairs_cons_other P d s Hd').
           simpl. rewrite Hc, Ascii.eqb_refl. simpl. now rewrite IH1.
        -- destruct (replace_pairs P (String e s)) as [|h t] eqn:Hr.
           ++ rewrite <- IH2. reflexivity.
           ++ assert (Hh : Ascii.eqb d h = false).
              { destruct (Ascii.eqb d h) eqn:E; [|reflexivity].
                assert (Ascii.eqb d e = true); [|congruence].
                apply (head_replace_pairs P (Ascii.eqb d) e s Hd).
                rewrite Hr. exact E. }
              rewrite <- IH2.
              change (replace_pairs (Ascii.eqb d) (String c (String h t)))
                with (if Ascii.eqb c "$" && Ascii.eqb d h
                      then String "?" (replace_pairs (Ascii.eqb d) t)
                      else String c (replace_pairs (Ascii.eqb d) (String h t))).
              rewrite Hh, Bool.andb_false_r. reflexivity.
    + rewrite (replace_pairs_cons_other _ c _ Hc). now rewrite IH2.
Qed.

Lemma no_pair_replace_pairs P s :
  P "?"%char = false -> no_pair P (replace_pairs P s) = true.
Proof.
  intros HP.
  induction s as [|c|c e s IH1 IH2] using string_ind2.
  - reflexivity.
  - simpl. now rewrite Bool.andb_false_r.
  - change (replace_pairs P (String c (String e s)))
      with (if Ascii.eqb c "$" && P e
            then String "?" (replace_pairs P s)
            else String c (replace_pairs P (String e s))).
    destruct (Ascii.eqb c "$" && P e) eqn:Hce.
    + simpl. exact IH1.
    + change (negb (Ascii.eqb c "$" && head_sat P (replace_pairs P (String e s)))
              && no_pair P (replace_pairs P (String e s)) = true).
      rewrite IH2, Bool.andb_true_r.
      destruct (Ascii.eqb c "$"); [|reflexivity].
      destruct (head_sat P (replace_pairs P (String e s))) eqn:Hh; [|reflexivity].
      apply head_replace_pairs in Hh; [|exact HP].
      simpl in Hce. congruence.
Qed.

(** A pattern that begins with a pair which does not occur is never matched. *)
Lemma ReplaceAll_absent P d rest new s :
  P d = true -> no_pair P s = true ->
  ReplaceAll s (String "$" (String d rest)) new = s.
Proof.
  intros HP. unfold ReplaceAll.
  induction s as [|c s IH]; [reflexivity|].
  intros Hs. simpl in Hs. apply andb_prop in Hs as [Hh Hs].
  change (replace_from (String "$" (String d rest)) new 0 (String c s))
    with (if HasPrefix (String c s) (String "$" (String d rest))
          then new ++ replace_from (String "$" (String d rest)) new
                        (String.length (String "$" (String d rest)) - 1) s
          else String c (replace_from (String "$" (String d rest)) new 0 s)).
  assert (Hpre : HasPrefix (String c s) (String "$" (String d rest)) = false).
  { simpl. destruct (Ascii.eqb c "$"); [|reflexivity].
    destruct s as [|e s']; [reflexivity|].
    destruct (Ascii.eqb e d) eqn:Hed; [|reflexivity].
    apply Ascii.eqb_eq in Hed. subst e. simpl in Hh. rewrite HP in Hh. discriminate. }
  rewrite Hpre. f_equal. auto.
Qed.

Lemma is_digit19_cases e :
  (((((((((Ascii.eqb "1" e || Ascii.eqb "2" e) || Ascii.eqb "3" e) || Ascii.eqb "4" e)
     || Ascii.eqb "5" e) || Ascii.eqb "6" e) || Ascii.eqb "7" e) || Ascii.eqb "8" e)
     || Ascii.eqb "9" e)) = is_digit19 e.
Proof.
  destruct e as [[] [] [] [] [] [] [] []]; reflexivity.
Qed.

(** The whole loop: the passes for [$1 .. $9] replace every such pair, and the
    passes for [$10 .. $20] find nothing left to match. *)
Lemma replace_markers_pairs q : replace_markers q = replace_pairs is_digit19 q.
Proof.
  set (r9 := replace_pairs is_digit19 q).
  assert (H9 : fold_left (fun result i => ReplaceAll result (Sprintf_marker i) "?")
                 (seq 1 9) q = r9).
  { change (ReplaceAll (ReplaceAll (ReplaceAll (ReplaceAll (ReplaceAll (ReplaceAll
            (ReplaceAll (ReplaceAll (ReplaceAll q "$1" "?") "$2" "?") "$3" "?")
            "$4" "?") "$5" "?") "$6" "?") "$7" "?") "$8" "?") "$9" "?" = r9).
    rewrite !ReplaceAll_pair.
    do 8 (rewrite (fun P d => replace_pairs_compose P d q) by reflexivity).
    apply replace_pairs_ext, is_digit19_cases. }
  assert (Hno : no_pair is_digit19 r9 = true)
    by (apply no_pair_replace_pairs; reflexivity).
  unfold replace_markers.
  change (seq 1 20) with (seq 1 9 ++ seq 10 11)%list.
  rewrite fold_left_app, H9.
  change (ReplaceAll (ReplaceAll (ReplaceAll (ReplaceAll (ReplaceAll (ReplaceAll
          (ReplaceAll (ReplaceAll (ReplaceAll (ReplaceAll (ReplaceAll r9
          "$10" "?") "$11" "?") "$12" "?") "$13" "?") "$14" "?") "$15" "?")
          "$16" "?") "$17" "?") "$18" "?") "$19" "?") "$20" "?" = r9).
  do 11 (rewrite (fun d rest => ReplaceAll_absent is_digit19 d rest "?" r9)
           by (reflexivity || exact Hno)).
  reflexivity.
Qed.




End MarkerLoop.

(** ** Round trips on a healthy back-end *)

Section Healthy.
Context {types_JID : Type} `{JIDType types_JID}.
Implicit Types (w : World types_JID) (s : SQLStore).

Lemma faults_set_committed d w : faults (set_committed d w) = faults w.
Proof. reflexivity. Qed.

Lemma Exec_DB_healthy stmt w :
  faults w = [] ->
  Exec sql_DB stmt w =
    match stmt (committed w) with
    | inl e => (Some e, w)
    | inr d => (None, set_committed d w)
    end.
Proof. intros Hf. unfold Exec, bind, next_fault. rewrite Hf. reflexivity. Qed.

Lemma QueryRow_healthy {A} (q : DB -> option A) w :
  faults w = [] ->
  QueryRow q w =
    match q (committed w) with
    | None => (inl ErrNoRows, w)
    | Some row => (inr row, w)
    end.
Proof. intros Hf. unfold QueryRow, bind, next_fault. rewrite Hf. reflexivity. Qed.

(** [IsTrustedIdentity] by cases on the stored row. *)
Lemma IsTrustedIdentity_cases s address key w :
  faults w = [] ->
  IsTrustedIdentity s address key w =
    match whatsmeow_identity_keys (committed w) !! (JID s, address) with
    | None => ((true, None), w)
    | Some existing =>
        if (length existing =? 32)%nat
        then ((bool_decide (existing = key), None), w)
        else ((false, Some ErrInvalidLength), w)
    end.
Proof.
  intros Hf. unfold IsTrustedIdentity, bind.
  rewrite QueryRow_healthy by exact Hf. unfold SQL.getIdentityQuery.
  destruct (whatsmeow_identity_keys (committed w) !! (JID s, address)) as [existing|];
    [|reflexivity].
  destruct (length existing =? 32)%nat; reflexivity.
Qed.

(** C5. With no identity row for the peer [IsTrustedIdentity] answers true
    without error; with a stored 32-byte identity it answers whether the
    stored bytes equal the given key; with a stored blob of any other length
    it fails with [ErrInvalidLength]. *)
Theorem IsTrustedIdentity_trust s address key w :
  faults w = [] ->
  length key = 32%nat ->
  (whatsmeow_identity_keys (committed w) !! (JID s, address) = None ->
   IsTrustedIdentity s address key w = ((true, None), w)) /\
  (forall existing,
     whatsmeow_identity_keys (committed w) !! (JID s, address) = Some existing ->
     length existing = 32%nat ->
     IsTrustedIdentity s address key w = ((bool_decide (existing = key), None), w)) /\
  (forall existing,
     whatsmeow_identity_keys (committed w) !! (JID s, address) = Some existing ->
     length existing <> 32%nat ->
     IsTrustedIdentity s address key w = ((false, Some ErrInvalidLength), w)).
Proof.
  intros Hf _. rewrite (IsTrustedIdentity_cases s address key w Hf).
  split; [|split].
  - intros ->. reflexivity.
  - intros existing -> Hlen. rewrite Hlen. reflexivity.
  - intros existing -> Hlen.
    destruct (Nat.eqb_spec (length existing) 32); [contradiction|reflexivity].
Qed.

(** [PutIdentity] then [IsTrustedIdentity]: the answer is the byte-wise
    comparison of the two keys, on every dialect. *)
Lemma PutIdentity_IsTrustedIdentity s peer k k' w :
  faults w = [] ->
  length k = 32%nat ->
  exists w1,
    PutIdentity s peer k w = (None, w1) /\
    IsTrustedIdentity s peer k' w1 = ((bool_decide (k = k'), None), w1).
Proof.
  intros Hf Hk.
  exists (set_committed
            (SQL.with_identity_keys (insert (JID s, peer) k) (committed w)) w).
  split.
  - unfold PutIdentity.
    destruct (String.eqb (dialect s) "mysql"), (String.eqb (dialect s) "sqlite3");
      rewrite Exec_DB_healthy by exact Hf; reflexivity.
  - rewrite IsTrustedIdentity_cases by exact Hf. simpl.
    rewrite lookup_insert_eq, Hk. reflexivity.
Qed.

(** C10. Without a stored version row for [name], [GetAppStateVersion]
    returns version 0, a hash of 128 zero bytes and no error. *)
Theorem GetAppStateVersion_missing s name w :
  faults w = [] ->
  whatsmeow_app_state_version (committed w) !! (JID s, name) = None ->
  GetAppStateVersion s name w = ((0%Z, zero_hash, None), w) /\
  length zero_hash = 128%nat /\
  Forall (fun b => b = x00) zero_hash.
Proof.
  intros Hf Hrow. split; [|split].
  - unfold GetAppStateVersion, bind. rewrite QueryRow_healthy by exact Hf.
    unfold SQL.getAppStateVersionQuery. rewrite Hrow. reflexivity.
  - reflexivity.
  - unfold zero_hash. apply Forall_forall. intros b Hb.
    apply list_elem_of_In, repeat_spec in Hb. exact Hb.
Qed.

(** The three chat-setting writers send the same upsert on every dialect. *)
Lemma PutMutedUntil_healthy s chat mutedUntil w :
  PutMutedUntil s chat mutedUntil w =
    Exec sql_DB (SQL.upsertChatSetting "muted_until" (JID s) (JID_String chat)
                   (SQL.IntValue (if IsZero mutedUntil then 0%Z else Unix mutedUntil))) w.
Proof.
  unfold PutMutedUntil.
  destruct (IsZero mutedUntil);
    destruct (String.eqb (dialect s) "mysql"), (String.eqb (dialect s) "sqlite3");
    reflexivity.
Qed.

Lemma PutPinned_healthy s chat pinned w :
  PutPinned s chat pinned w =
    Exec sql_DB (SQL.upsertChatSetting "pinned" (JID s) (JID_String chat)
                   (SQL.BoolValue pinned)) w.
Proof.
  unfold PutPinned.
  destruct (String.eqb (dialect s) "mysql"), (String.eqb (dialect s) "sqlite3");
    reflexivity.
Qed.

Lemma PutArchived_healthy s chat archived w :
  PutArchived s chat archived w =
    Exec sql_DB (SQL.upsertChatSetting "archived" (JID s) (JID_String chat)
                   (SQL.BoolValue archived)) w.
Proof.
  unfold PutArchived.
  destruct (String.eqb (dialect s) "mysql"), (String.eqb (dialect s) "sqlite3");
    reflexivity.
Qed.

(** C9. On every dialect each of [PutMutedUntil], [PutPinned] and
    [PutArchived] writes its own column of the chat's row and keeps the other
    two as they were; where the chat has no row yet, the other two take the
    defaults 0, false and false.  Nothing else in the database changes. *)
Theorem chat_setting_upserts s chat mutedUntil flag w :
  faults w = [] ->
  let key := (JID s, JID_String chat) in
  let old := default SQL.chat_settings_defaults
               (whatsmeow_chat_settings (committed w) !! key) in
  let written row :=
    (None, set_committed (SQL.with_chat_settings (insert key row) (committed w)) w) in
  SQL.chat_settings_defaults
    = {| cs_muted_until := 0; cs_pinned := false; cs_archived := false |} /\
  PutMutedUntil s chat mutedUntil w =
    written {| cs_muted_until := if IsZero mutedUntil then 0%Z else Unix mutedUntil;
               cs_pinned := cs_pinned old; cs_archived := cs_archived old |} /\
  PutPinned s chat flag w =
    written {| cs_muted_until := cs_muted_until old;
               cs_pinned := flag; cs_archived := cs_archived old |} /\
  PutArchived s chat flag w =
    written {| cs_muted_until := cs_muted_until old;
               cs_pinned := cs_pinned old; cs_archived := flag |}.
Proof.
  intros Hf key old written. split; [reflexivity|].
  rewrite PutMutedUntil_healthy, PutPinned_healthy, PutArchived_healthy.
  rewrite !Exec_DB_healthy by exact Hf.
  repeat split; reflexivity.
Qed.

Lemma PutMessageSecret_healthy s chat sender id secret w :
  faults w = [] ->
  PutMessageSecret s chat sender id secret w =
    match whatsmeow_message_secrets (committed w) !! secret_key s chat sender id with
    | Some _ => (None, set_committed (committed w) w)
    | None =>
        (None, set_committed
                 (SQL.with_message_secrets
                    (insert (secret_key s chat sender id) secret) (committed w)) w)
    end.
Proof.
  intros Hf. unfold PutMessageSecret, secret_key.
  destruct (String.eqb (dialect s) "mysql").
  - unfold put_secret_loop, bind. rewrite Exec_DB_healthy by exact Hf.
    unfold SQL.putMsgSecretMySQL, SQL.insertIfAbsent.
    destruct (whatsmeow_message_secrets (committed w) !! _); reflexivity.
  - rewrite Exec_DB_healthy by exact Hf.
    unfold SQL.putMsgSecret, SQL.insertIfAbsent.
    destruct (whatsmeow_message_secrets (committed w) !! _); reflexivity.
Qed.

Lemma GetMessageSecret_healthy s chat sender id w :
  faults w = [] ->
  GetMessageSecret s chat sender id w =
    ((default [] (whatsmeow_message_secrets (committed w) !! secret_key s chat sender id),
      None), w).
Proof.
  intros Hf. unfold GetMessageSecret, bind. rewrite QueryRow_healthy by exact Hf.
  unfold SQL.getMsgSecret, secret_key.
  destruct (whatsmeow_message_secrets (committed w) !! _); reflexivity.
Qed.

Lemma PutMessageSecret_fresh s chat sender id k1 k2 w :
  faults w = [] ->
  whatsmeow_message_secrets (committed w) !! secret_key s chat sender id = None ->
  exists w1 w2,
    PutMessageSecret s chat sender id k1 w = (None, w1) /\
    PutMessageSecret s chat sender id k2 w1 = (None, w2) /\
    committed w2 = committed w1 /\
    GetMessageSecret s chat sender id w2 = ((k1, None), w2).
Proof.
  intros Hf Hnew.
  eexists _, _. split; [|split; [|split]].
  - rewrite PutMessageSecret_healthy by exact Hf. rewrite Hnew. reflexivity.
  - rewrite PutMessageSecret_healthy by exact Hf. simpl.
    rewrite lookup_insert_eq. reflexivity.
  - reflexivity.
  - rewrite GetMessageSecret_healthy by exact Hf. simpl.
    rewrite lookup_insert_eq. reflexivity.
Qed.

(** Whatever is stored, a second [PutMessageSecret] for the same message
    leaves the tables as the first one left them. *)
Lemma PutMessageSecret_twice s chat sender id k1 k2 w :
  faults w = [] ->
  exists w1 w2,
    PutMessageSecret s chat sender id k1 w = (None, w1) /\
    PutMessageSecret s chat sender id k2 w1 = (None, w2) /\
    committed w2 = committed w1.
Proof.
  intros Hf.
  destruct (whatsmeow_message_secrets (committed w) !! secret_key s chat sender id)
    as [k0|] eqn:Hrow.
  - eexists _, _. split; [|split].
    + rewrite PutMessageSecret_healthy by exact Hf. rewrite Hrow. reflexivity.
    + rewrite PutMessageSecret_healthy by exact Hf. simpl. rewrite Hrow. reflexivity.
    + reflexivity.
  - destruct (PutMessageSecret_fresh s chat sender id k1 k2 w Hf Hrow)
      as (w1 & w2 & H1 & H2 & H3 & _).
    eauto.
Qed.


(** *** Pre-key allocation *)

Lemma MAX_spec l :
  match SQL.MAX l with
  | None => l = []
  | Some m => m ∈ l /\ forall x, x ∈ l -> (x <= m)%Z
  end.
Proof.
  induction l as [|a l IH]; [reflexivity|].
  simpl. destruct (SQL.MAX l) as [m|].
  - destruct IH as [Hin Hmax]. split.
    + destruct (Z.max_spec a m) as [[_ ->]|[_ ->]]; [right; exact Hin|left].
    + intros x Hx. apply elem_of_cons in Hx as [->|Hx]; [lia|].
      specialize (Hmax x Hx). lia.
  - subst l. split; [left|].
    intros x Hx. apply elem_of_cons in Hx as [->|Hx]; [lia|].
    apply elem_of_nil in Hx. contradiction.
Qed.

Lemma elem_of_pre_key_ids jid d id :
  id ∈ SQL.pre_key_ids jid d <-> is_Some (whatsmeow_pre_keys d !! (jid, id)).
Proof.
  unfold SQL.pre_key_ids. rewrite list_elem_of_omap. split.
  - intros ([[j i] row] & Hin & Hf). simpl in Hf.
    destruct (decide (j = jid)) as [->|]; [|discriminate].
    injection Hf as ->. apply elem_of_map_to_list in Hin. eauto.
  - intros [row Hrow]. exists ((jid, id), row). split.
    + apply elem_of_map_to_list. exact Hrow.
    + simpl. destruct (decide (jid = jid)); [reflexivity|contradiction].
Qed.

(** The id the next [GenOnePreKey] is going to use. *)
Lemma next_id_fresh jid d :
  let next := (default 0 (SQL.MAX (SQL.pre_key_ids jid d)) + 1)%Z in
  (forall id, id ∈ SQL.pre_key_ids jid d -> (0 <= id)%Z) ->
  whatsmeow_pre_keys d !! (jid, next) = None.
Proof.
  intros next Hpos.
  destruct (whatsmeow_pre_keys d !! (jid, next)) as [row|] eqn:Hrow; [|reflexivity].
  assert (Hin : next ∈ SQL.pre_key_ids jid d) by (apply elem_of_pre_key_ids; eauto).
  pose proof (MAX_spec (SQL.pre_key_ids jid d)) as Hmax. subst next.
  destruct (SQL.MAX (SQL.pre_key_ids jid d)) as [m|]; simpl in *.
  - destruct Hmax as [_ Hmax]. specialize (Hmax _ Hin). lia.
  - rewrite Hmax in Hin. apply elem_of_nil in Hin. contradiction.
Qed.

Lemma GenOnePreKey_step s priv w :
  faults w = [] ->
  (forall id, id ∈ SQL.pre_key_ids (JID s) (committed w) -> (0 <= id < 2 ^ 31 - 1)%Z) ->
  let next := (default 0 (SQL.MAX (SQL.pre_key_ids (JID s) (committed w))) + 1)%Z in
  GenOnePreKey s priv w =
    ((Some {| KeyID := next; Priv := priv |}, None),
     set_committed
       (SQL.with_pre_keys
          (insert (JID s, next) {| pk_key := priv; pk_uploaded := true |})
          (committed w)) w).
Proof.
  intros Hf Hrange next.
  assert (Hfresh : whatsmeow_pre_keys (committed w) !! (JID s, next) = None).
  { apply next_id_fresh. intros id Hid. specialize (Hrange id Hid). lia. }
  assert (Hlast : (0 <= next - 1 < 2 ^ 31 - 1)%Z).
  { subst next. pose proof (MAX_spec (SQL.pre_key_ids (JID s) (committed w))) as Hmax.
    destruct (SQL.MAX (SQL.pre_key_ids (JID s) (committed w))) as [m|]; simpl.
    - destruct Hmax as [Hin _]. specialize (Hrange m Hin). lia.
    - lia. }
  unfold GenOnePreKey, getNextPreKeyID, bind.
  rewrite QueryRow_healthy by exact Hf. unfold SQL.getLastPreKeyIDQuery.
  replace (default 0%Z (SQL.MAX (SQL.pre_key_ids (JID s) (committed w))))
    with (next - 1)%Z by (subst next; lia).
  assert (Hfits : fits_int32 (next - 1) = true).
  { unfold fits_int32. apply andb_true_intro. split; [apply Z.leb_le|apply Z.ltb_lt]; lia. }
  rewrite Hfits.
  assert (Hwrap : uint32 (uint32 (next - 1) + 1) = next).
  { unfold uint32. rewrite (Z.mod_small (next - 1)) by lia.
    rewrite Z.mod_small by lia. lia. }
  unfold ret. rewrite Hwrap.
  unfold genOnePreKey, bind.
  assert (Hq : (if String.eqb (dialect s) "mysql"
                then SQL.insertPreKeyQuery else SQL.insertPreKeyQuery)
               = SQL.insertPreKeyQuery)
    by (destruct (String.eqb (dialect s) "mysql"); reflexivity).
  rewrite Hq. simpl KeyID. simpl Priv.
  rewrite Exec_DB_healthy by exact Hf.
  unfold SQL.insertPreKeyQuery. rewrite Hfresh. reflexivity.
Qed.

Lemma pre_key_ids_insert jid d next row id :
  id ∈ SQL.pre_key_ids jid (SQL.with_pre_keys (insert (jid, next) row) d)
  <-> id = next \/ id ∈ SQL.pre_key_ids jid d.
Proof.
  rewrite !elem_of_pre_key_ids. simpl.
  destruct (decide (id = next)) as [->|Hne].
  - rewrite lookup_insert_eq. split; eauto.
  - rewrite lookup_insert_ne by congruence. split; [eauto|].
    intros [?|?]; [contradiction|assumption].
Qed.

Lemma MAX_insert_next jid d row :
  (forall id, id ∈ SQL.pre_key_ids jid d -> (0 <= id)%Z) ->
  let next := (default 0 (SQL.MAX (SQL.pre_key_ids jid d)) + 1)%Z in
  SQL.MAX (SQL.pre_key_ids jid (SQL.with_pre_keys (insert (jid, next) row) d))
  = Some next.
Proof.
  intros Hpos next.
  pose proof (MAX_spec (SQL.pre_key_ids jid d)) as Hold.
  pose proof (MAX_spec
    (SQL.pre_key_ids jid (SQL.with_pre_keys (insert (jid, next) row) d))) as Hnew.
  destruct (SQL.MAX (SQL.pre_key_ids jid (SQL.with_pre_keys (insert (jid, next) row) d)))
    as [m'|].
  - destruct Hnew as [Hin Hmax]. f_equal.
    assert (Hge : (next <= m')%Z) by (apply Hmax, pre_key_ids_insert; left; reflexivity).
    apply pre_key_ids_insert in Hin as [->|Hin]; [reflexivity|].
    subst next. destruct (SQL.MAX (SQL.pre_key_ids jid d)) as [m|]; simpl in *.
    + destruct Hold as [_ Hold]. specialize (Hold _ Hin). lia.
    + rewrite Hold in Hin. apply elem_of_nil in Hin. contradiction.
  - assert (Hin : next ∈ SQL.pre_key_ids jid (SQL.with_pre_keys (insert (jid, next) row) d))
      by (apply pre_key_ids_insert; left; reflexivity).
    rewrite Hnew in Hin. apply elem_of_nil in Hin. contradiction.
Qed.





(** Any number of calls in a row: all succeed, with the ids [max + 1],
    [max + 2], ... in this order. *)
Lemma GenOnePreKey_each_ids s (privs : list bytes) w :
  faults w = [] ->
  (forall id, id ∈ SQL.pre_key_ids (JID s) (committed w) -> (0 <= id)%Z) ->
  let last := default 0%Z (SQL.MAX (SQL.pre_key_ids (JID s) (committed w))) in
  (last + Z.of_nat (length privs) < 2 ^ 24)%Z ->
  (GenOnePreKey_each s privs w).1
  = imap (fun i priv => (Some {| KeyID := last + 1 + Z.of_nat i; Priv := priv |}, None))
      privs.
Proof.
  revert w. induction privs as [|priv privs IH]; intros w Hf Hpos last Hroom;
    [reflexivity|].
  assert (Hle : forall id, id ∈ SQL.pre_key_ids (JID s) (committed w) -> (id <= last)%Z).
  { intros id Hid. subst last.
    pose proof (MAX_spec (SQL.pre_key_ids (JID s) (committed w))) as Hmax.
    destruct (SQL.MAX (SQL.pre_key_ids (JID s) (committed w))) as [m|]; simpl.
    - apply Hmax. exact Hid.
    - rewrite Hmax in Hid. apply elem_of_nil in Hid. contradiction. }
  assert (Hlast : (0 <= last)%Z).
  { subst last.
    pose proof (MAX_spec (SQL.pre_key_ids (JID s) (committed w))) as Hmax.
    destruct (SQL.MAX (SQL.pre_key_ids (JID s) (committed w))) as [m|]; simpl; [|lia].
    apply Hpos, Hmax. }
  simpl length in Hroom.
  cbn [GenOnePreKey_each]. unfold bind at 1.
  rewrite GenOnePreKey_step; [|exact Hf|].
  2:{ intros id Hid. specialize (Hpos id Hid). specialize (Hle id Hid). lia. }
  fold last.
  set (row := {| pk_key := priv; pk_uploaded := true |}).
  set (w1 := set_committed (SQL.with_pre_keys (insert (JID s, (last + 1)%Z) row) (committed w)) w).
  assert (Hmax1 : SQL.MAX (SQL.pre_key_ids (JID s) (committed w1)) = Some (last + 1)%Z).
  { apply (MAX_insert_next (JID s) (committed w) row Hpos). }
  assert (Hpos1 : forall id, id ∈ SQL.pre_key_ids (JID s) (committed w1) -> (0 <= id)%Z).
  { intros id Hid. apply pre_key_ids_insert in Hid as [->|Hid]; [lia|].
    apply Hpos, Hid. }
  specialize (IH w1 Hf Hpos1). cbv zeta in IH. rewrite Hmax1 in IH. simpl default in IH.
  assert (Hroom1 : (last + 1 + Z.of_nat (length privs) < 2 ^ 24)%Z) by lia.
  specialize (IH Hroom1).
  unfold bind. destruct (GenOnePreKey_each s privs w1) as [rs w2].
  simpl in IH. simpl. f_equal; [do 3 f_equal; lia|].
  rewrite IH. apply imap_ext. intros i p _. unfold compose.
  replace (last + 1 + Z.of_nat (S i))%Z with (last + 1 + 1 + Z.of_nat i)%Z by lia.
  reflexivity.
Qed.


(** *** App state sync keys *)

Lemma PutAppStateSyncKey_other_dialects s id key w :
  faults w = [] ->
  String.eqb (dialect s) "mysql" = false ->
  PutAppStateSyncKey s id key w =
    (None,
     set_committed
       (match whatsmeow_app_state_sync_keys (committed w) !! (JID s, id) with
        | Some row =>
            if (sk_timestamp row <? Timestamp key)%Z
            then SQL.with_app_state_sync_keys (insert (JID s, id) (row_of_key key))
                   (committed w)
            else committed w
        | None =>
            SQL.with_app_state_sync_keys (insert (JID s, id) (row_of_key key)) (committed w)
        end) w).
Proof.
  intros Hf Hd. unfold PutAppStateSyncKey. rewrite Hd.
  rewrite Exec_DB_healthy by exact Hf. unfold SQL.putAppStateSyncKeyQuery.
  destruct (whatsmeow_app_state_sync_keys (committed w) !! (JID s, id)) as [row|];
    [|reflexivity].
  destruct (sk_timestamp row <? Timestamp key)%Z; reflexivity.
Qed.

Lemma PutAppStateSyncKey_mysql s id key w :
  faults w = [] ->
  String.eqb (dialect s) "mysql" = true ->
  PutAppStateSyncKey s id key w =
    (None,
     set_open_tx None
       (set_committed
          (SQL.with_app_state_sync_keys (insert (JID s, id) (row_of_key key)) (committed w))
          (set_open_tx
             (Some (SQL.with_app_state_sync_keys (insert (JID s, id) (row_of_key key))
                      (committed w)))
             (set_open_tx (Some (committed w)) w)))).
Proof.
  intros Hf Hd. unfold PutAppStateSyncKey. rewrite Hd.
  unfold bind, Begin, Exec, Commit, bind, next_fault, ret. rewrite Hf. simpl.
  rewrite Hf. simpl. rewrite Hf. reflexivity.
Qed.

(** Away from MySQL the second of two writes is stored exactly when its
    timestamp is the greater one. *)
Lemma PutAppStateSyncKey_guarded s id key key' w :
  faults w = [] ->
  String.eqb (dialect s) "mysql" = false ->
  whatsmeow_app_state_sync_keys (committed w) !! (JID s, id) = None ->
  exists w1 w2,
    PutAppStateSyncKey s id key w = (None, w1) /\
    PutAppStateSyncKey s id key' w1 = (None, w2) /\
    whatsmeow_app_state_sync_keys (committed w2) !! (JID s, id)
    = Some (if (Timestamp key <? Timestamp key')%Z then row_of_key key' else row_of_key key).
Proof.
  intros Hf Hd Hnew. eexists _, _. split; [|split].
  - rewrite PutAppStateSyncKey_other_dialects by assumption. rewrite Hnew. reflexivity.
  - rewrite PutAppStateSyncKey_other_dialects by assumption. reflexivity.
  - simpl. rewrite lookup_insert_eq. simpl.
    destruct (Timestamp key <? Timestamp key')%Z; simpl; apply lookup_insert_eq.
Qed.

(** On MySQL the second of two writes is stored whatever the timestamps. *)
Lemma PutAppStateSyncKey_mysql_overwrites s id key key' w :
  faults w = [] ->
  String.eqb (dialect s) "mysql" = true ->
  exists w1 w2,
    PutAppStateSyncKey s id key w = (None, w1) /\
    PutAppStateSyncKey s id key' w1 = (None, w2) /\
    whatsmeow_app_state_sync_keys (committed w2) !! (JID s, id) = Some (row_of_key key').
Proof.
  intros Hf Hd. eexists _, _. split; [|split].
  - rewrite PutAppStateSyncKey_mysql by assumption. reflexivity.
  - rewrite PutAppStateSyncKey_mysql by assumption. reflexivity.
  - simpl. apply lookup_insert_eq.
Qed.

(** *** Deleting identities *)

Lemma LIKE_samples :
  SQL.LIKE "1234:%" "1234:17" = true /\
  SQL.LIKE "1234:%" "12345:1" = false /\
  SQL.LIKE "123_1:0" "123_1:0" = true /\
  SQL.LIKE "123_1:0" "12391:0" = true /\
  SQL.LIKE "1234:0" "1234:0" = true /\
  SQL.LIKE "1234:0" "1234:01" = false.
Proof. repeat split; reflexivity. Qed.

(** [DeleteAllIdentities] removes the identities of the account whose peer
    id matches the phone followed by [:%]. *)
Lemma DeleteAllIdentities_lookup s phone w our_jid their_id identity :
  faults w = [] ->
  exists w',
    DeleteAllIdentities s phone w = (None, w') /\
    (whatsmeow_identity_keys (committed w') !! (our_jid, their_id) = Some identity <->
     whatsmeow_identity_keys (committed w) !! (our_jid, their_id) = Some identity /\
     ~ (our_jid = JID s /\ SQL.LIKE (phone ++ ":%") their_id = true)).
Proof.
  intros Hf. eexists. split.
  - unfold DeleteAllIdentities. rewrite Exec_DB_healthy by exact Hf. reflexivity.
  - simpl. rewrite map_lookup_filter_Some. reflexivity.
Qed.

(** [DeleteIdentity] removes every identity of the account whose peer id
    matches the address read as a [LIKE] pattern, and no other row. *)
Lemma DeleteIdentity_lookup s address w our_jid their_id identity :
  faults w = [] ->
  exists w',
    DeleteIdentity s address w = (None, w') /\
    (whatsmeow_identity_keys (committed w') !! (our_jid, their_id) = Some identity <->
     whatsmeow_identity_keys (committed w) !! (our_jid, their_id) = Some identity /\
     ~ (our_jid = JID s /\ SQL.LIKE address their_id = true)).
Proof.
  intros Hf. eexists. split.
  - unfold DeleteIdentity. rewrite Exec_DB_healthy by exact Hf. reflexivity.
  - simpl. rewrite map_lookup_filter_Some. reflexivity.
Qed.

End Healthy.

(** ** Placeholders and arguments of the statements built at run time *)

Section Binding.





Section ForStore.
Context {types_JID : Type} `{JIDType types_JID}.
Implicit Types (s : SQLStore).

Lemma mutationMACRow_args s name version m d :
  SQL.mutationMACRow (mutation_args s name version m) d
  = SQL.insertMutationMAC (JID s) name version m d.
Proof. destruct m. reflexivity. Qed.

(** MySQL: one statement per mutation, five question marks, five arguments. *)
Lemma putAppStateMutationMACsQuery_one s name version m d :
  SQL.putAppStateMutationMACsQuery [replicate 5 SQL.Positional]
    (mutation_args s name version m) d
  = SQL.insertMutationMAC (JID s) name version m d.
Proof.
  unfold SQL.putAppStateMutationMACsQuery.
  change (SQL.bind_args [replicate 5 SQL.Positional] (mutation_args s name version m))
    with (inr [mutation_args s name version m] : error + list (list SQL.arg)).
  cbn [SQL.all_rows]. rewrite mutationMACRow_args.
  destruct (SQL.insertMutationMAC (JID s) name version m d); reflexivity.
Qed.


Lemma highest_numbered_mutation_rows argsCount (mutations : list AppStateMutationMAC) :
  (SQL.highest_marker (concat (numbered_mutation_rows argsCount mutations))
   <= Nat.max 3 (argsCount + 2 * length mutations))%nat.
Proof.
  revert argsCount. induction mutations as [|m mutations IH]; intros argsCount; simpl.
  - lia.
  - specialize (IH (argsCount + 2)%nat). unfold SQL.highest_marker in *. lia.
Qed.

(** The last branch: the markers of the MACs start at [$2] instead of [$4],
    so that the statement has two markers fewer than it gets arguments, and
    no back-end takes it. *)
Lemma putAppStateMutationMACsQuery_numbered s name version mutations d :
  exists e,
    SQL.putAppStateMutationMACsQuery (numbered_mutation_rows 1 mutations)
      ([SQL.TextArg (JID s); SQL.TextArg name; SQL.IntArg version]
       ++ concat (map (fun mutation => [SQL.BlobArg (IndexMAC mutation);
                                        SQL.BlobArg (ValueMAC mutation)]) mutations)) d
    = inl e.
Proof.
  unfold SQL.putAppStateMutationMACsQuery.
  destruct mutations as [|m mutations]; [eauto|].
  set (rows := numbered_mutation_rows 1 (m :: mutations)).
  set (args := ([SQL.TextArg (JID s); SQL.TextArg name; SQL.IntArg version] ++ _)%list).
  assert (Hargs : length args = (3 + 2 * length (m :: mutations))%nat).
  { unfold args. rewrite length_app. simpl. f_equal. f_equal. f_equal.
    clear. induction mutations as [|x l IH]; simpl; [reflexivity|]. rewrite IH. lia. }
  pose proof (highest_numbered_mutation_rows 1 (m :: mutations)) as Hhigh.
  fold rows in Hhigh.
  assert (Hbind : exists e, SQL.bind_args rows args = inl e).
  { unfold SQL.bind_args.
    change (forallb SQL.is_positional (concat rows)) with false. cbv iota.
    destruct (forallb SQL.is_numbered (concat rows)); [|eauto].
    destruct (Nat.eqb_spec (SQL.highest_marker (concat rows)) (length args)) as [Heq|_];
      [|eauto].
    rewrite Hargs in Heq. simpl length in *. lia. }
  destruct Hbind as [e ->]. subst rows. simpl. eauto.
Qed.

(** *** Contact names *)

Lemma contact_rows_written our_jid (kept : list (string * string * string)) d :
  SQL.all_rows SQL.contactNameRow
    (map (fun v => SQL.TextArg our_jid :: contact_args v) kept) d
  = inr (SQL.with_contacts
           (fun t => foldl (fun t v => SQL.upsertContactName our_jid v t) t kept) d).
Proof.
  revert d. induction kept as [|[[their first] full] kept IH]; intros d.
  - destruct d. reflexivity.
  - cbn [map SQL.all_rows]. unfold contact_args at 1. cbn [SQL.contactNameRow fst snd].
    rewrite IH. reflexivity.
Qed.

Lemma length_contact_args (kept : list (string * string * string)) :
  length (concat (map contact_args kept)) = (3 * length kept)%nat.
Proof. induction kept as [|v kept IH]; simpl; [reflexivity|]. rewrite IH. lia. Qed.

Lemma numbered_contact_rows_numbered i (kept : list (string * string * string)) :
  forallb SQL.is_numbered (concat (numbered_contact_rows i kept)) = true.
Proof. revert i. induction kept as [|v kept IH]; intros i; simpl; auto. Qed.

Lemma highest_numbered_contact_rows i v (kept : list (string * string * string)) :
  SQL.highest_marker (concat (numbered_contact_rows i (v :: kept)))
  = (3 * (i + length (v :: kept)) + 1)%nat.
Proof.
  revert i v. induction kept as [|v' kept IH]; intros i v.
  - simpl. lia.
  - specialize (IH (S i) v').
    change (concat (numbered_contact_rows i (v :: v' :: kept)))
      with ([SQL.Numbered 1; SQL.Numbered (i * 3 + 1 + 1); SQL.Numbered (i * 3 + 1 + 2);
             SQL.Numbered (i * 3 + 1 + 3)]
            ++ concat (numbered_contact_rows (S i) (v' :: kept)))%list.
    unfold SQL.highest_marker in *. rewrite foldr_app.
    cbn [foldr SQL.marker_number]. rewrite IH. simpl length. lia.
Qed.

(** With numbered markers the tuple of the [i]-th kept contact names the
    account and the three arguments of that contact. *)
Lemma bind_numbered_contact_rows our_jid (kept : list (string * string * string)) i prefix :
  length prefix = (3 * i + 1)%nat ->
  prefix !! 0%nat = Some (SQL.TextArg our_jid) ->
  SQL.bind_numbered (numbered_contact_rows i kept) (prefix ++ concat (map contact_args kept))
  = Some (map (fun v => SQL.TextArg our_jid :: contact_args v) kept).
Proof.
  revert i prefix. induction kept as [|v kept IH]; intros i prefix Hlen Hhead.
  - reflexivity.
  - unfold SQL.bind_numbered in *.
    cbn [numbered_contact_rows map concat mapM].
    specialize (IH (S i) (prefix ++ contact_args v)%list).
    rewrite <- app_assoc in IH. rewrite IH.
    + clear IH. cbn [SQL.marker_number].
      replace (i * 3 + 1 + 1)%nat with (S (length prefix + 0)) by lia.
      replace (i * 3 + 1 + 2)%nat with (S (length prefix + 1)) by lia.
      replace (i * 3 + 1 + 3)%nat with (S (length prefix + 2)) by lia.
      rewrite (lookup_app_l prefix _ 0) by lia. rewrite Hhead.
      rewrite (lookup_app_r prefix _ (length prefix + 0)) by lia.
      rewrite (lookup_app_r prefix _ (length prefix + 1)) by lia.
      rewrite (lookup_app_r prefix _ (length prefix + 2)) by lia.
      replace (length prefix + 0 - length prefix)%nat with 0%nat by lia.
      replace (length prefix + 1 - length prefix)%nat with 1%nat by lia.
      replace (length prefix + 2 - length prefix)%nat with 2%nat by lia.
      reflexivity.
    + rewrite length_app. simpl. lia.
    + rewrite lookup_app_l by lia. exact Hhead.
Qed.


End ForStore.

End Binding.

(** ** Batches, transactions and retries under any back-end behaviour *)

Section Batches.
Context {types_JID : Type} `{JIDType types_JID}.
Implicit Types (w : World types_JID) (s : SQLStore).

(** The loop runs its body on the slices of [batches_from], in order, up to
    the first error. *)
Lemma for_batches_trace {A} fuel size i (items : list A) body w :
  for_batches fuel size i items body w
  = for_each (batches_from fuel size i items) body w.
Proof.
  revert i w. induction fuel as [|fuel IH]; intros i w; simpl; [reflexivity|].
  destruct (i <? length items)%nat; [|reflexivity].
  simpl. unfold bind.
  destruct (body _ w) as [[e|] w']; [reflexivity|]. apply IH.
Qed.

(** The slices are consecutive: put together they are the items from [i] on. *)
Lemma concat_batches_from {A} fuel size i (items : list A) :
  (0 < size)%nat -> (length items - i <= fuel)%nat ->
  concat (batches_from fuel size i items) = drop i items.
Proof.
  intros Hsize. revert i. induction fuel as [|fuel IH]; intros i Hfuel; simpl.
  - rewrite drop_ge by lia. reflexivity.
  - destruct (Nat.ltb_spec i (length items)) as [Hi|Hi].
    + simpl. destruct (Nat.ltb_spec (i + size) (length items)) as [Hn|Hn].
      * rewrite IH by lia. rewrite <- drop_drop. apply take_drop.
      * rewrite IH by lia. rewrite (drop_ge items (i + size)) by lia.
        apply app_nil_r.
    + rewrite drop_ge by lia. reflexivity.
Qed.


(** Every slice but the last is full. *)
Lemma batches_from_full {A} fuel size i (items : list A) k b :
  batches_from fuel size i items !! k = Some b ->
  is_Some (batches_from fuel size i items !! S k) ->
  length b = size.
Proof.
  revert i k. induction fuel as [|fuel IH]; intros i k; simpl; [discriminate|].
  destruct (Nat.ltb_spec i (length items)) as [Hi|Hi]; [|discriminate].
  destruct k as [|k]; simpl.
  - intros [= <-] Hnext.
    destruct fuel as [|fuel]; simpl in Hnext; [destruct Hnext; discriminate|].
    destruct (Nat.ltb_spec (i + size) (length items)) as [Hn|Hn];
      [|destruct Hnext; discriminate].
    rewrite length_take, length_drop. lia.
  - apply IH.
Qed.

(** More fuel than [length items - i] turns changes nothing. *)
Lemma batches_from_enough {A} fuel size i (items : list A) :
  (0 < size)%nat -> (length items - i <= fuel)%nat ->
  batches_from (S fuel) size i items = batches_from fuel size i items.
Proof.
  intros Hsize. revert i. induction fuel as [|fuel IH]; intros i Hfuel.
  - simpl. destruct (Nat.ltb_spec i (length items)); [lia|reflexivity].
  - change (batches_from (S (S fuel)) size i items)
      with (if (i <? length items)%nat
            then (if (i + size <? length items)%nat then take size (drop i items)
                  else drop i items) :: batches_from (S fuel) size (i + size) items
            else []).
    change (batches_from (S fuel) size i items)
      with (if (i <? length items)%nat
            then (if (i + size <? length items)%nat then take size (drop i items)
                  else drop i items) :: batches_from fuel size (i + size) items
            else []).
    destruct (i <? length items)%nat; [|reflexivity].
    rewrite IH by lia. reflexivity.
Qed.

Lemma concat_batches {A} size (items : list A) :
  (0 < size)%nat -> concat (batches size items) = items.
Proof.
  intros Hsize. unfold batches. rewrite concat_batches_from by lia. apply drop_0.
Qed.

(** *** What leaves the committed tables alone *)

Lemma next_fault_frame w :
  committed (next_fault w).2 = committed w /\ open_tx (next_fault w).2 = open_tx w.
Proof. unfold next_fault. destruct (faults w); split; reflexivity. Qed.

Lemma keeps_ret {A} (a : A) : keeps_committed (ret a).
Proof. intros w. reflexivity. Qed.

Lemma keeps_bind {A B} (m : M A) (k : A -> M B) :
  keeps_committed m -> (forall a, keeps_committed (k a)) -> keeps_committed (bind m k).
Proof.
  intros Hm Hk w. unfold bind. specialize (Hm w).
  destruct (m w) as [a w']. simpl in Hm. rewrite (Hk a w'). exact Hm.
Qed.

Lemma keeps_Exec_Tx stmt : keeps_committed (Exec sql_Tx stmt).
Proof.
  intros w. unfold Exec, bind.
  destruct (next_fault_frame w) as [Hc _].
  destruct (next_fault w) as [[msg|] w']; simpl in *; [exact Hc|].
  destruct (open_tx w') as [t|]; [|exact Hc].
  destruct (stmt t); exact Hc.
Qed.

Lemma keeps_Begin : keeps_committed Begin.
Proof.
  intros w. unfold Begin, bind.
  destruct (next_fault_frame w) as [Hc _].
  destruct (next_fault w) as [[msg|] w']; simpl in *; exact Hc.
Qed.

Lemma keeps_Rollback : keeps_committed Rollback.
Proof. intros w. reflexivity. Qed.

Lemma keeps_Sleep ms : keeps_committed (Sleep ms).
Proof. intros w. reflexivity. Qed.

Lemma keeps_for_each {A} (items : list A) step :
  (forall x, keeps_committed (step x)) -> keeps_committed (for_each items step).
Proof.
  intros Hstep. induction items as [|x items IH]; simpl; [apply keeps_ret|].
  apply keeps_bind; [apply Hstep|].
  intros [e|]; [apply keeps_ret|exact IH].
Qed.


(** A commit that reports an error has not changed the committed tables. *)
Lemma Commit_error w e w' :
  Commit w = (Some e, w') -> committed w' = committed w.
Proof.
  unfold Commit, bind. destruct (next_fault_frame w) as [Hc _].
  destruct (next_fault w) as [[msg|] w0]; simpl in *.
  - intros [= _ <-]. exact Hc.
  - destruct (open_tx w0); intros Heq; inversion Heq; subst. exact Hc.
Qed.

(** *** Inside a transaction *)

Lemma Begin_success w w' :
  Begin w = (None, w') -> committed w' = committed w /\ open_tx w' = Some (committed w).
Proof.
  unfold Begin, bind. destruct (next_fault_frame w) as [Hc _].
  destruct (next_fault w) as [[msg|] w0]; simpl in *; [discriminate|].
  intros [= <-]. simpl. rewrite Hc. auto.
Qed.

Lemma Commit_success w w' :
  Commit w = (None, w') -> open_tx w = Some (committed w').
Proof.
  unfold Commit, bind. destruct (next_fault_frame w) as [_ Ho].
  destruct (next_fault w) as [[msg|] w0]; simpl in *; [discriminate|].
  destruct (open_tx w0) as [t|]; [|discriminate].
  intros [= <-]. simpl. congruence.
Qed.

Lemma Exec_Tx_success stmt w w' t :
  open_tx w = Some t ->
  Exec sql_Tx stmt w = (None, w') ->
  exists t', stmt t = inr t' /\ open_tx w' = Some t'.
Proof.
  intros Ht. unfold Exec, bind. destruct (next_fault_frame w) as [_ Ho].
  destruct (next_fault w) as [[msg|] w0]; simpl in *; [discriminate|].
  rewrite Ho, Ht. destruct (stmt t) as [e|t']; [discriminate|].
  intros [= <-]. eauto.
Qed.

(** *** [PutAppStateMutationMACs] *)

Lemma keeps_putAppStateMutationMACs_Tx s name version mutations :
  keeps_committed (putAppStateMutationMACs s sql_Tx name version mutations).
Proof.
  unfold putAppStateMutationMACs.
  destruct (String.eqb (dialect s) "mysql"); [|destruct (String.eqb (dialect s) "sqlite3")].
  - apply keeps_for_each. intros x. apply keeps_Exec_Tx.
  - apply keeps_Exec_Tx.
  - apply keeps_Exec_Tx.
Qed.




(** *** [PutAllContactNames] *)




(** *** Message secrets *)

Lemma write_secrets_app s l1 l2 d :
  write_secrets s (l1 ++ l2) d = write_secrets s l2 (write_secrets s l1 d).
Proof. unfold write_secrets. apply foldl_app. Qed.

Lemma insertIfAbsent_write_secret s (i : MessageSecretInsert) d :
  SQL.insertIfAbsent (secret_key s (Chat i) (Sender i) (ID i)) (Secret i) d
  = inr (write_secret s d i).
Proof.
  unfold SQL.insertIfAbsent, write_secret.
  destruct (whatsmeow_message_secrets d !! _); reflexivity.
Qed.

Lemma secret_inserts_success s (query : string -> string -> string -> string -> bytes -> statement)
  (inserts : list MessageSecretInsert) w w' t :
  (forall i d, query (JID s) (JID_String (ToNonAD (Chat i)))
                 (JID_String (ToNonAD (Sender i))) (ID i) (Secret i) d
               = inr (write_secret s d i)) ->
  open_tx w = Some t ->
  for_each inserts (fun i =>
      err <- Exec sql_Tx (query (JID s) (JID_String (ToNonAD (Chat i)))
                            (JID_String (ToNonAD (Sender i))) (ID i) (Secret i)) ;;
      match err with
      | Some e => _ <- Rollback ;; ret (Some (Errorf_w "failed to insert message secret" e))
      | None => ret None
      end) w = (None, w') ->
  open_tx w' = Some (write_secrets s inserts t).
Proof.
  intros Hq. revert w t. induction inserts as [|i inserts IH]; intros w t Ho; simpl.
  - intros [= <-]. exact Ho.
  - unfold bind at 1. unfold bind at 1.
    destruct (Exec sql_Tx _ w) as [[e|] w2] eqn:Hex; [discriminate|].
    intros HL. unfold ret in HL.
    destruct (Exec_Tx_success _ _ _ _ Ho Hex) as (t' & Hst & Ho').
    rewrite Hq in Hst. injection Hst as <-.
    apply (IH w2 _ Ho' HL).
Qed.

(** One attempt: a transaction that inserts every secret of the batch where
    absent, or changes nothing. *)
Lemma putMessageSecretsInternal_outcome s inserts :
  commits_or_keeps (write_secrets s inserts) (putMessageSecretsInternal s inserts).
Proof.
  intros w. unfold putMessageSecretsInternal. unfold bind at 1.
  pose proof (keeps_Begin w) as HkB.
  destruct (Begin w) as [[e0|] w0] eqn:HB; simpl in HkB; [exact HkB|].
  apply Begin_success in HB as [_ Ho0].
  set (query := if String.eqb (dialect s) "mysql" then SQL.putMsgSecretMySQL
                else SQL.putMsgSecret).
  assert (Hq : forall i d, query (JID s) (JID_String (ToNonAD (Chat i)))
                 (JID_String (ToNonAD (Sender i))) (ID i) (Secret i) d
               = inr (write_secret s d i)).
  { intros i d. unfold query.
    destruct (String.eqb (dialect s) "mysql"); apply insertIfAbsent_write_secret. }
  set (step := fun i : MessageSecretInsert =>
         err <- Exec sql_Tx (query (JID s) (JID_String (ToNonAD (Chat i)))
                               (JID_String (ToNonAD (Sender i))) (ID i) (Secret i)) ;;
         match err with
         | Some e => _ <- Rollback ;; ret (Some (Errorf_w "failed to insert message secret" e))
         | None => ret None
         end).
  assert (Hkeep : keeps_committed (for_each inserts step)).
  { apply keeps_for_each. intros i. apply keeps_bind; [apply keeps_Exec_Tx|].
    intros [e|]; [|apply keeps_ret].
    apply keeps_bind; [apply keeps_Rollback|intros; apply keeps_ret]. }
  unfold bind at 1. specialize (Hkeep w0).
  destruct (for_each inserts step w0) as [[e1|] w1] eqn:HL; simpl in Hkeep;
    [unfold ret; congruence|].
  pose proof (secret_inserts_success s query inserts w0 w1 _ Hq Ho0 HL) as Ho1.
  unfold bind.
  destruct (Commit w1) as [[e2|] w2] eqn:HC.
  - apply Commit_error in HC. unfold ret. congruence.
  - apply Commit_success in HC. unfold ret. congruence.
Qed.

(** Retrying an attempt that commits or changes nothing commits once or
    changes nothing. *)
Lemma retry_loop_outcome s f maxRetries remaining attempt write :
  commits_or_keeps f write ->
  commits_or_keeps f (retry_loop s maxRetries remaining attempt write).
Proof.
  intros Hw. revert attempt.
  induction remaining as [|remaining IH]; intros attempt w; simpl; [reflexivity|].
  unfold bind at 1. specialize (Hw w).
  destruct (write w) as [[e|] w1]; [|exact Hw].
  destruct (String.eqb (dialect s) "mysql" && negb (Contains (Error e) lockWaitTimeout));
    [exact Hw|].
  unfold bind, Sleep.
  specialize (IH (S attempt) (set_slept (slept w1 ++ [(100 * (Z.of_nat attempt + 1))%Z]) w1)).
  destruct (retry_loop s maxRetries remaining (S attempt) write _) as [[e'|] w2];
    simpl in IH; congruence.
Qed.

(** The loop, one turn at a time: success ends it; on MySQL so does an
    error that is no lock wait timeout; every other error is followed by a
    sleep of 100 ms times the number of the attempt and the next turn, and
    after the last turn the error for exhausted retries is returned. *)
Lemma retry_loop_turn s maxRetries remaining attempt write w :
  retry_loop s maxRetries (S remaining) attempt write w =
    match write w with
    | (None, w1) => (None, w1)
    | (Some e, w1) =>
        if String.eqb (dialect s) "mysql" && negb (Contains (Error e) lockWaitTimeout)
        then (Some e, w1)
        else retry_loop s maxRetries remaining (S attempt) write
               (set_slept (slept w1 ++ [(100 * (Z.of_nat attempt + 1))%Z]) w1)
    end.
Proof.
  simpl. unfold bind at 1. destruct (write w) as [[e|] w1]; [|reflexivity].
  destruct (String.eqb (dialect s) "mysql" && negb (Contains (Error e) lockWaitTimeout));
    reflexivity.
Qed.

Lemma retry_loop_exhausted s maxRetries attempt write w :
  retry_loop s maxRetries 0 attempt write w =
    (Some (Errorf_d "failed to store message secrets after " maxRetries " retry attempts"), w).
Proof. reflexivity. Qed.

(** Three failures in a row that the loop retries: 100, 200 and 300 ms of
    sleep and the error that carries the number of attempts. *)
Lemma putMessageSecretsWithRetry_three_failures s e w :
  String.eqb (dialect s) "mysql" && negb (Contains (Error e) lockWaitTimeout) = false ->
  retry_loop s 3 3 0 (fun w => (Some e, w)) w =
    (Some (Errorf_d "failed to store message secrets after " 3 " retry attempts"),
     set_slept (slept w ++ [100; 200; 300]%Z) w).
Proof.
  intros Hretry. rewrite !retry_loop_turn, Hretry, retry_loop_exhausted.
  unfold set_slept. simpl. rewrite <- !app_assoc. reflexivity.
Qed.

Lemma putMessageSecretsWithRetry_outcome s inserts :
  commits_or_keeps (write_secrets s inserts) (putMessageSecretsWithRetry s inserts).
Proof. apply retry_loop_outcome, putMessageSecretsInternal_outcome. Qed.

(** Batches that each commit or change nothing: after a failure the batches
    before the failing one are committed and nothing else is. *)
Lemma secret_batches_outcome s (bs : list (list MessageSecretInsert)) w :
  match for_each bs (fun batch => putMessageSecretsWithRetry s batch) w with
  | (None, w') => committed w' = write_secrets s (concat bs) (committed w)
  | (Some _, w') =>
      exists n, (n < length bs)%nat /\
        committed w' = write_secrets s (concat (take n bs)) (committed w)
  end.
Proof.
  revert w. induction bs as [|b bs IH]; intros w; simpl; [reflexivity|].
  unfold bind.
  pose proof (putMessageSecretsWithRetry_outcome s b w) as Hb.
  destruct (putMessageSecretsWithRetry s b w) as [[e|] w1].
  - exists 0%nat. split; [lia|]. exact Hb.
  - specialize (IH w1).
    destruct (for_each bs _ w1) as [[e|] w2].
    + destruct IH as (n & Hn & Hc). exists (S n). split; [lia|].
      simpl. rewrite write_secrets_app, <- Hb. exact Hc.
    + rewrite write_secrets_app, <- Hb. exact IH.
Qed.

(** With more than [msgSecretBatchSize] inserts every batch is a transaction
    of its own. *)
Lemma PutMessageSecrets_outcome s inserts w :
  (msgSecretBatchSize < length inserts)%nat ->
  match PutMessageSecrets s inserts w with
  | (None, w') => committed w' = write_secrets s inserts (committed w)
  | (Some _, w') =>
      exists n, (n < length (batches msgSecretBatchSize inserts))%nat /\
        committed w'
        = write_secrets s (concat (take n (batches msgSecretBatchSize inserts))) (committed w)
  end.
Proof.
  intros Hlen. unfold PutMessageSecrets.
  apply Nat.ltb_lt in Hlen. rewrite Hlen.
  rewrite for_batches_trace. fold (batches msgSecretBatchSize inserts).
  pose proof (secret_batches_outcome s (batches msgSecretBatchSize inserts) w) as Hout.
  rewrite concat_batches in Hout by (unfold msgSecretBatchSize; lia).
  exact Hout.
Qed.

(** *** Branches whose statement no back-end takes *)

Lemma Exec_refused h stmt w :
  (forall d, exists e, stmt d = inl e) -> exists e, (Exec h stmt w).1 = Some e.
Proof.
  intros Hst. unfold Exec, bind.
  destruct (next_fault w) as [[msg|] w0]; simpl; [eauto|].
  destruct h.
  - destruct (Hst (committed w0)) as [e ->]. eauto.
  - destruct (open_tx w0) as [t|]; [|eauto].
    destruct (Hst t) as [e ->]. eauto.
Qed.

(** With a dialect other than [mysql] and [sqlite3], [putAppStateMutationMACs]
    never succeeds. *)
Lemma putAppStateMutationMACs_numbered_fails s tx name version mutations w :
  String.eqb (dialect s) "mysql" = false ->
  String.eqb (dialect s) "sqlite3" = false ->
  exists e, (putAppStateMutationMACs s tx name version mutations w).1 = Some e.
Proof.
  intros Hm Hs. unfold putAppStateMutationMACs. rewrite Hm, Hs.
  apply Exec_refused. intros d. apply putAppStateMutationMACsQuery_numbered.
Qed.


End Batches.

(** ** The dialect tags and the marker rewriting *)




(** Whatever the template, the marker loop replaces the pairs [$1 .. $9]. *)
Lemma dialectQuery_sqlite3_pairs query :
  dialectQuery "sqlite3" query = replace_pairs is_digit19 query.
Proof. unfold dialectQuery. simpl. apply replace_markers_pairs. Qed.

(** ** Sample runs *)

Section SampleRuns.
Import SampleJID.

(** C1 on MySQL: a key with timestamp 100 is stored, then one with timestamp
    50 for the same id; both calls succeed and the key read back is the
    second, staler one.  The statement [PutAppStateSyncKey] sends there has
    no timestamp guard. *)
Theorem PutAppStateSyncKey_mysql_stale_write :
  let s := store "mysql" in
  let '(err1, w1) := PutAppStateSyncKey s [xab] fresher fresh in
  let '(err2, w2) := PutAppStateSyncKey s [xab] staler w1 in
  err1 = None /\ err2 = None /\
  (Timestamp staler <? Timestamp fresher)%Z = true /\
  (GetAppStateSyncKey s [xab] w2).1 = (Some staler, None).
Proof. vm_compute. auto. Qed.

(** The same run on the other dialects keeps the fresher key. *)
Lemma PutAppStateSyncKey_stale_write_elsewhere :
  Forall (fun tag =>
    let s := store tag in
    let '(err1, w1) := PutAppStateSyncKey s [xab] fresher fresh in
    let '(err2, w2) := PutAppStateSyncKey s [xab] staler w1 in
    err1 = None /\ err2 = None /\
    (GetAppStateSyncKey s [xab] w2).1 = (Some fresher, None))
  ["postgres"; "sqlite3"; "sqlite"].
Proof. repeat (constructor; [vm_compute; auto|]). constructor. Qed.

(** C3 away from MySQL: the back-end refuses the connection, which is no
    lock wait timeout; the write is attempted three times all the same, with
    sleeps of 100, 200 and 300 ms, and the error returned is the one for
    exhausted retries, not the back-end's. *)
Theorem putMessageSecretsWithRetry_retries_any_error :
  Contains "connection refused" lockWaitTimeout = false /\
  Forall (fun tag =>
    let '(err, w') :=
      putMessageSecretsWithRetry (store tag) [secret_no 0] (on empty_DB refused) in
    err = Some (Errorf_d "failed to store message secrets after " 3 " retry attempts") /\
    faults w' = [] /\ slept w' = [100; 200; 300]%Z)
  ["postgres"; "sqlite3"; "sqlite"].
Proof.
  split; [vm_compute; reflexivity|].
  repeat (constructor; [vm_compute; auto|]). constructor.
Qed.

(** On MySQL the same error is returned at once, and a lock wait timeout is
    retried. *)
Lemma putMessageSecretsWithRetry_mysql :
  (let '(err, w') :=
     putMessageSecretsWithRetry (store "mysql") [secret_no 0] (on empty_DB refused) in
   err = Some (Errorf_w "failed to begin transaction" (DriverError "connection refused")) /\
   length (faults w') = 2%nat /\ slept w' = []) /\
  (let '(err, w') :=
     putMessageSecretsWithRetry (store "mysql") [secret_no 0]
       (on empty_DB [Some "Error 1205: Lock wait timeout exceeded; try restarting transaction"]) in
   err = None /\ slept w' = [100%Z] /\
   whatsmeow_message_secrets (committed w')
     !! secret_key (store "mysql") (user "chat") (user "sender") "0" = Some [x01]).
Proof. split; vm_compute; auto. Qed.

(** C6: the identities of two peers are stored; [DeleteIdentity] for the
    address [123_1:0] succeeds and the identity of the peer [12391:0], which
    the address matches as a [LIKE] pattern, is gone too.  The exact-match
    statement [deleteIdentityQuery], which the method does not use, keeps it. *)
Theorem DeleteIdentity_deletes_another_peer :
  let s := store "postgres" in
  let '(err, w') := DeleteIdentity s "123_1:0" (on two_identities []) in
  err = None /\
  whatsmeow_identity_keys two_identities !! (JID s, "12391:0") = Some (replicate 32 x02) /\
  whatsmeow_identity_keys (committed w') !! (JID s, "12391:0") = None /\
  match SQL.deleteIdentityQuery (JID s) "123_1:0" two_identities with
  | inr d => whatsmeow_identity_keys d !! (JID s, "12391:0") = Some (replicate 32 x02)
  | inl _ => False
  end.
Proof. vm_compute. repeat split; reflexivity. Qed.


(** *** The theorems at sample inputs *)

Lemma IsTrustedIdentity_trust_witness :
  let s := store "mysql" in
  IsTrustedIdentity s "12391:0" (replicate 32 x02) (on two_identities [])
    = ((true, None), on two_identities []) /\
  IsTrustedIdentity s "12391:0" (replicate 32 x01) (on two_identities [])
    = ((false, None), on two_identities []) /\
  IsTrustedIdentity s "777:0" (replicate 32 x01) (on two_identities [])
    = ((true, None), on two_identities []) /\
  IsTrustedIdentity s "555:0" (replicate 32 x05) (on short_identity [])
    = ((false, Some ErrInvalidLength), on short_identity []).
Proof.
  intros s.
  destruct (IsTrustedIdentity_trust s "12391:0" (replicate 32 x02) (on two_identities [])
              eq_refl eq_refl) as (_ & Hsame & _).
  destruct (IsTrustedIdentity_trust s "12391:0" (replicate 32 x01) (on two_identities [])
              eq_refl eq_refl) as (_ & Hother & _).
  destruct (IsTrustedIdentity_trust s "777:0" (replicate 32 x01) (on two_identities [])
              eq_refl eq_refl) as (Hunknown & _ & _).
  destruct (IsTrustedIdentity_trust s "555:0" (replicate 32 x05) (on short_identity [])
              eq_refl eq_refl) as (_ & _ & Hshort).
  split; [exact (Hsame (replicate 32 x02) eq_refl eq_refl)|].
  split; [exact (Hother (replicate 32 x02) eq_refl eq_refl)|].
  split; [exact (Hunknown eq_refl)|].
  apply (Hshort (replicate 31 x05)); [reflexivity|]. simpl. lia.
Defined.

Lemma GetAppStateVersion_missing_witness :
  GetAppStateVersion (store "sqlite3") "regular_high" fresh = ((0%Z, zero_hash, None), fresh).
Proof.
  apply (GetAppStateVersion_missing (store "sqlite3") "regular_high" fresh); reflexivity.
Defined.

Lemma chat_setting_upserts_witness :
  let s := store "mysql" in
  let run := PutPinned s (user "chat") true (on muted_chat []) in
  run.1 = None /\
  whatsmeow_chat_settings (committed run.2) !! (JID s, "chat@s.whatsapp.net")
  = Some {| cs_muted_until := 1700000000; cs_pinned := true; cs_archived := false |}.
Proof.
  intros s run. unfold run.
  destruct (chat_setting_upserts s (user "chat") {| unix := 0; nanosecond := 0 |} true
              (on muted_chat []) eq_refl) as (_ & _ & Hpinned & _).
  rewrite Hpinned. split; reflexivity.
Defined.




End SampleRuns.

(** ** The texts the store sends *)

(** The chat-setting writers format the template of their dialect and pass
    it through [dialectQuery], which leaves it as it is. *)
Lemma chat_setting_texts :
  Forall (fun column =>
    dialectQuery "mysql" (Sprintf_1s putChatSettingQueryMySQL_sql column)
      = Sprintf_1s putChatSettingQueryMySQL_sql column /\
    dialectQuery "sqlite3" (Sprintf_1s putChatSettingQuerySQLite_sql column)
      = Sprintf_1s putChatSettingQuerySQLite_sql column /\
    dialectQuery "postgres" (Sprintf_1s putChatSettingQueryPostgres_sql column)
      = Sprintf_1s putChatSettingQueryPostgres_sql column)
  ["muted_until"; "pinned"; "archived"].
Proof. repeat (constructor; [vm_compute; auto|]). constructor. Qed.

Lemma identity_and_secret_texts :
  dialectQuery "sqlite3" deleteAllIdentitiesQuery_sql
    = "DELETE FROM whatsmeow_identity_keys WHERE our_jid=? AND their_id LIKE ?" /\
  dialectQuery "sqlite3" deleteIdentityQuery_sql
    = "DELETE FROM whatsmeow_identity_keys WHERE our_jid=? AND their_id=?" /\
  dialectQuery "mysql" getIdentityQuery_sql
    = "SELECT identity FROM whatsmeow_identity_keys WHERE our_jid=? AND their_id=?" /\
  dialectQuery "mysql" getMsgSecret_sql
    = "SELECT `key` FROM whatsmeow_message_secrets WHERE our_jid=? AND chat_jid=? AND sender_jid=? AND message_id=?" /\
  dialectQuery "sqlite3" getMsgSecret_sql
    = "SELECT key FROM whatsmeow_message_secrets WHERE our_jid=? AND chat_jid=? AND sender_jid=? AND message_id=?".
Proof. repeat split; vm_compute; reflexivity. Qed.

(** ** Pre-keys: handing out, looking up, removing and marking *)

Section PreKeys.
Context {types_JID : Type} `{JIDType types_JID}.
Implicit Types (w : World types_JID) (s : SQLStore).

Lemma Query_healthy {A} (q : DB -> list A) w :
  faults w = [] -> Query q w = (inr (q (committed w)), w).
Proof. intros Hf. unfold Query, bind, next_fault. rewrite Hf. reflexivity. Qed.

#[local] Instance by_key_id_total : Total SQL.by_key_id.
Proof. intros a b. unfold SQL.by_key_id. lia. Qed.
#[local] Instance by_key_id_trans : Transitive SQL.by_key_id.
Proof. intros a b c. unfold SQL.by_key_id. lia. Qed.

Lemma elem_of_unuploaded_pre_keys jid d id key :
  (id, key) ∈ SQL.unuploaded_pre_keys jid d <->
  whatsmeow_pre_keys d !! (jid, id) = Some {| pk_key := key; pk_uploaded := false |}.
Proof.
  unfold SQL.unuploaded_pre_keys. rewrite list_elem_of_omap. split.
  - intros ([[j i] [k u]] & Hin & Hf). simpl in Hf.
    destruct (decide (j = jid /\ u = false)) as [[-> ->]|]; [|discriminate].
    injection Hf as -> ->. apply elem_of_map_to_list in Hin. exact Hin.
  - intros Hrow. exists ((jid, id), {| pk_key := key; pk_uploaded := false |}). split.
    + apply elem_of_map_to_list. exact Hrow.
    + simpl. destruct (decide (jid = jid /\ false = false)) as [|Hn]; [reflexivity|].
      exfalso. apply Hn. split; reflexivity.
Qed.

Lemma elem_of_getUnuploadedPreKeysQuery jid n d id key :
  (id, key) ∈ SQL.getUnuploadedPreKeysQuery jid n d ->
  whatsmeow_pre_keys d !! (jid, id) = Some {| pk_key := key; pk_uploaded := false |}.
Proof.
  unfold SQL.getUnuploadedPreKeysQuery. intros Hin.
  apply elem_of_unuploaded_pre_keys.
  rewrite <- (merge_sort_Permutation SQL.by_key_id).
  apply elem_of_take in Hin as (i & Hi & _).
  eapply list_elem_of_lookup_2; eauto.
Qed.

Lemma scanPreKeys_well_formed (rows : list (Z * bytes)) :
  Forall (fun r => (0 <= r.1 < 2 ^ 32)%Z /\ length r.2 = 32%nat) rows ->
  scanPreKeys rows = inr (map scanned rows).
Proof.
  induction 1 as [|[id key] rows [Hid Hlen] _ IH]; [reflexivity|].
  simpl in *. unfold fits_uint32.
  replace (0 <=? id)%Z with true by (symmetry; apply Z.leb_le; lia).
  replace (id <? 2 ^ 32)%Z with true by (symmetry; apply Z.ltb_lt; lia).
  simpl. rewrite Hlen. simpl. rewrite IH. reflexivity.
Qed.







(** X2. With at least [count] keys of the account stored as not uploaded,
    [GetOrGenPreKeys(count)] writes nothing and hands out [count] of them:
    those with the lowest ids, in ascending order of id. *)
Theorem GetOrGenPreKeys_existing s count draw w :
  faults w = [] ->
  (forall id row, whatsmeow_pre_keys (committed w) !! (JID s, id) = Some row ->
     (0 <= id < 2 ^ 32)%Z /\ length (pk_key row) = 32%nat) ->
  (count <= length (SQL.unuploaded_pre_keys (JID s) (committed w)))%nat ->
  exists keys,
    GetOrGenPreKeys s count draw w = ((keys, None), w) /\
    length keys = count /\
    StronglySorted (fun a b => (KeyID a <= KeyID b)%Z) keys /\
    (forall key, key ∈ keys ->
       whatsmeow_pre_keys (committed w) !! (JID s, KeyID key)
       = Some {| pk_key := Priv key; pk_uploaded := false |}) /\
    (forall id row,
       whatsmeow_pre_keys (committed w) !! (JID s, id) = Some row ->
       pk_uploaded row = false ->
       {| KeyID := id; Priv := pk_key row |} ∈ keys \/
       forall key, key ∈ keys -> (KeyID key <= id)%Z).
Proof.
  intros Hf Hwf Hcount.
  set (sorted := merge_sort SQL.by_key_id (SQL.unuploaded_pre_keys (JID s) (committed w))).
  assert (Hperm : sorted ≡ₚ SQL.unuploaded_pre_keys (JID s) (committed w))
    by apply merge_sort_Permutation.
  assert (Hsorted : StronglySorted SQL.by_key_id (take count sorted ++ drop count sorted)).
  { rewrite take_drop. apply StronglySorted_merge_sort; apply _. }
  assert (Hrows : forall id key, (id, key) ∈ take count sorted ->
            whatsmeow_pre_keys (committed w) !! (JID s, id)
            = Some {| pk_key := key; pk_uploaded := false |}).
  { intros id key Hin. eapply elem_of_getUnuploadedPreKeysQuery. exact Hin. }
  exists (map scanned (take count sorted)).
  split; [|split; [|split; [|split]]].
  - unfold GetOrGenPreKeys. unfold bind at 1. rewrite Query_healthy by exact Hf.
    unfold SQL.getUnuploadedPreKeysQuery. fold sorted.
    rewrite scanPreKeys_well_formed.
    + cbv zeta. rewrite length_map, length_take.
      rewrite (Permutation_length Hperm).
      replace (count `min` _ <? count)%nat with false; [reflexivity|].
      symmetry. apply Nat.ltb_ge. lia.
    + apply Forall_forall. intros [id key] Hin. apply Hrows in Hin.
      destruct (Hwf _ _ Hin) as [Hid Hlen]. split; assumption.
  - rewrite length_map, length_take, (Permutation_length Hperm). lia.
  - apply StronglySorted_app_1_l in Hsorted.
    change (map scanned (take count sorted)) with (scanned <$> take count sorted).
    eapply StronglySorted_fmap; [|exact Hsorted].
    intros a b Hab. exact Hab.
  - intros key Hin. apply list_elem_of_In, in_map_iff in Hin as ([id k] & <- & Hin).
    apply list_elem_of_In in Hin. apply Hrows in Hin. exact Hin.
  - intros id [key uploaded] Hrow Hup. simpl in Hup. subst uploaded.
    apply elem_of_unuploaded_pre_keys in Hrow. rewrite <- Hperm in Hrow.
    rewrite <- (take_drop count sorted) in Hrow.
    apply elem_of_app in Hrow as [Hin|Hin].
    + left. apply list_elem_of_In, in_map_iff. exists (id, key).
      split; [reflexivity|]. apply list_elem_of_In. exact Hin.
    + right. intros k Hk.
      apply list_elem_of_In, in_map_iff in Hk as ([id' key'] & <- & Hk).
      apply list_elem_of_In in Hk.
      exact (StronglySorted_app_1_elem_of _ _ _ _ _ Hsorted Hk Hin).
Qed.

(** [GetPreKey] by cases on the stored row. *)
Lemma GetPreKey_healthy s id w :
  faults w = [] ->
  GetPreKey s id w =
    (scanPreKey (match whatsmeow_pre_keys (committed w) !! (JID s, id) with
                 | Some row => inr (id, pk_key row)
                 | None => inl ErrNoRows
                 end), w).
Proof.
  intros Hf. unfold GetPreKey, bind. rewrite QueryRow_healthy by exact Hf.
  unfold SQL.getPreKeyQuery.
  destruct (whatsmeow_pre_keys (committed w) !! (JID s, id)); reflexivity.
Qed.



(** X4. After [RemovePreKey(id)] the key is gone: [GetPreKey(id)] returns
    neither a key nor an error, and every other key of every account is
    stored as before. *)
Theorem RemovePreKey_GetPreKey s id w :
  faults w = [] ->
  exists w1,
    RemovePreKey s id w = (None, w1) /\
    GetPreKey s id w1 = ((None, None), w1) /\
    (forall jid id', (jid, id') <> (JID s, id) ->
       whatsmeow_pre_keys (committed w1) !! (jid, id')
       = whatsmeow_pre_keys (committed w) !! (jid, id')).
Proof.
  intros Hf. eexists. split; [|split].
  - unfold RemovePreKey. rewrite Exec_DB_healthy by exact Hf. reflexivity.
  - rewrite GetPreKey_healthy by exact Hf. simpl. rewrite lookup_delete_eq. reflexivity.
  - intros jid id' Hne. simpl. apply lookup_delete_ne. congruence.
Qed.

Lemma MAX_same_elements (l1 l2 : list Z) :
  (forall x, x ∈ l1 <-> x ∈ l2) -> SQL.MAX l1 = SQL.MAX l2.
Proof.
  intros Hsame.
  pose proof (MAX_spec l1) as H1. pose proof (MAX_spec l2) as H2.
  destruct (SQL.MAX l1) as [m1|], (SQL.MAX l2) as [m2|].
  - destruct H1 as [Hin1 Hmax1], H2 as [Hin2 Hmax2].
    apply Hsame in Hin1. apply Hsame in Hin2.
    specialize (Hmax1 _ Hin2). specialize (Hmax2 _ Hin1). f_equal. lia.
  - destruct H1 as [Hin1 _]. apply Hsame in Hin1. rewrite H2 in Hin1.
    apply elem_of_nil in Hin1. contradiction.
  - destruct H2 as [Hin2 _]. apply Hsame in Hin2. rewrite H1 in Hin2.
    apply elem_of_nil in Hin2. contradiction.
  - reflexivity.
Qed.



End PreKeys.

(** ** App state: sync keys, versions and mutation MACs *)

Lemma lookup_filter_keep `{Countable K} {A} (P : K * A -> Prop) `{!forall x, Decision (P x)}
  (m : gmap K A) (i : K) :
  (forall x, m !! i = Some x -> P (i, x)) -> filter P m !! i = m !! i.
Proof.
  intros HP. destruct (m !! i) as [x|] eqn:Hx.
  - apply map_lookup_filter_Some_2; auto.
  - apply map_lookup_filter_None_2. left. exact Hx.
Qed.

Lemma lookup_filter_drop `{Countable K} {A} (P : K * A -> Prop) `{!forall x, Decision (P x)}
  (m : gmap K A) (i : K) :
  (forall x, m !! i = Some x -> ~ P (i, x)) -> filter P m !! i = None.
Proof. intros HP. apply map_lookup_filter_None_2. right. exact HP. Qed.

Section AppState.
Context {types_JID : Type} `{JIDType types_JID}.
Implicit Types (w : World types_JID) (s : SQLStore).

Lemma GetAppStateSyncKey_healthy s id w :
  faults w = [] ->
  GetAppStateSyncKey s id w
  = ((key_of_row <$> whatsmeow_app_state_sync_keys (committed w) !! (JID s, id), None), w).
Proof.
  intros Hf. unfold GetAppStateSyncKey.
  destruct (String.eqb (dialect s) "mysql").
  - unfold bind. rewrite QueryRow_healthy by exact Hf. unfold SQL.getAppStateSyncKeyQuery.
    destruct (whatsmeow_app_state_sync_keys (committed w) !! (JID s, id)) as [row|] eqn:Hrow;
      [reflexivity|].
    simpl. rewrite QueryRow_healthy by exact Hf. rewrite Hrow. reflexivity.
  - unfold bind. rewrite QueryRow_healthy by exact Hf. unfold SQL.getAppStateSyncKeyQuery.
    destruct (whatsmeow_app_state_sync_keys (committed w) !! (JID s, id)); reflexivity.
Qed.

Lemma key_of_row_of_key key : key_of_row (row_of_key key) = key.
Proof. destruct key. reflexivity. Qed.

Lemma PutAppStateSyncKey_newer s id key w :
  faults w = [] ->
  (forall row, whatsmeow_app_state_sync_keys (committed w) !! (JID s, id) = Some row ->
     (sk_timestamp row < Timestamp key)%Z) ->
  exists w1,
    PutAppStateSyncKey s id key w = (None, w1) /\
    faults w1 = [] /\
    committed w1
    = SQL.with_app_state_sync_keys (insert (JID s, id) (row_of_key key)) (committed w).
Proof.
  intros Hf Hnewer.
  destruct (String.eqb (dialect s) "mysql") eqn:Hd.
  - eexists. split; [apply PutAppStateSyncKey_mysql; assumption|].
    split; [exact Hf|reflexivity].
  - rewrite PutAppStateSyncKey_other_dialects by assumption.
    destruct (whatsmeow_app_state_sync_keys (committed w) !! (JID s, id)) as [row|] eqn:Hrow.
    + specialize (Hnewer row eq_refl). apply Z.ltb_lt in Hnewer. rewrite Hnewer.
      eexists. split; [reflexivity|]. split; [exact Hf|reflexivity].
    + eexists. split; [reflexivity|]. split; [exact Hf|reflexivity].
Qed.

(** X6. On every dialect [GetAppStateSyncKey] returns neither a key nor an
    error for an id without a row, and after [PutAppStateSyncKey] with a key
    newer than the stored one (or with none stored) it returns that key. *)
Theorem PutAppStateSyncKey_GetAppStateSyncKey s id key w :
  faults w = [] ->
  (whatsmeow_app_state_sync_keys (committed w) !! (JID s, id) = None ->
   GetAppStateSyncKey s id w = ((None, None), w)) /\
  ((forall row, whatsmeow_app_state_sync_keys (committed w) !! (JID s, id) = Some row ->
      (sk_timestamp row < Timestamp key)%Z) ->
   exists w1,
     PutAppStateSyncKey s id key w = (None, w1) /\
     GetAppStateSyncKey s id w1 = ((Some key, None), w1)).
Proof.
  intros Hf. split.
  - intros Hnone. rewrite GetAppStateSyncKey_healthy by exact Hf. rewrite Hnone. reflexivity.
  - intros Hnewer.
    destruct (PutAppStateSyncKey_newer s id key w Hf Hnewer) as (w1 & Hput & Hf1 & Hc).
    exists w1. split; [exact Hput|].
    rewrite GetAppStateSyncKey_healthy by exact Hf1. rewrite Hc. simpl.
    rewrite lookup_insert_eq. simpl. rewrite key_of_row_of_key. reflexivity.
Qed.

Lemma highest_spec {A} (rank : A -> Z) (rows : list A) :
  match SQL.highest rank rows with
  | None => rows = []
  | Some best => best ∈ rows /\ forall r, r ∈ rows -> (rank r <= rank best)%Z
  end.
Proof.
  induction rows as [|a rows IH]; [reflexivity|].
  simpl. destruct (SQL.highest rank rows) as [best|].
  - destruct IH as [Hin Hmax].
    destruct (Z.ltb_spec (rank best) (rank a)) as [Hlt|Hge].
    + split; [left|]. intros r Hr. apply elem_of_cons in Hr as [->|Hr]; [lia|].
      specialize (Hmax r Hr). lia.
    + split; [right; exact Hin|]. intros r Hr.
      apply elem_of_cons in Hr as [->|Hr]; [lia|]. apply Hmax, Hr.
  - subst rows. split; [left|]. intros r Hr.
    apply elem_of_cons in Hr as [->|Hr]; [lia|]. apply elem_of_nil in Hr. contradiction.
Qed.

Lemma elem_of_sync_key_ids jid d id ts :
  (id, ts) ∈ SQL.sync_key_ids jid d <->
  exists row, whatsmeow_app_state_sync_keys d !! (jid, id) = Some row /\ sk_timestamp row = ts.
Proof.
  unfold SQL.sync_key_ids. rewrite list_elem_of_omap. split.
  - intros ([[j i] row] & Hin & Hf). simpl in Hf.
    destruct (decide (j = jid)) as [->|]; [|discriminate].
    injection Hf as -> <-. apply elem_of_map_to_list in Hin. eauto.
  - intros (row & Hrow & <-). exists ((jid, id), row). split.
    + apply elem_of_map_to_list. exact Hrow.
    + simpl. destruct (decide (jid = jid)); [reflexivity|contradiction].
Qed.

Lemma GetLatestAppStateSyncKeyID_healthy s w :
  faults w = [] ->
  GetLatestAppStateSyncKeyID s w
  = ((SQL.getLatestAppStateSyncKeyIDQuery (JID s) (committed w), None), w).
Proof.
  intros Hf. unfold GetLatestAppStateSyncKeyID, bind.
  rewrite QueryRow_healthy by exact Hf.
  destruct (SQL.getLatestAppStateSyncKeyIDQuery (JID s) (committed w)); reflexivity.
Qed.

(** X7. [GetLatestAppStateSyncKeyID] returns no id exactly when the account
    has no sync key, and otherwise the id of a stored key whose timestamp no
    other key of the account exceeds. *)
Theorem GetLatestAppStateSyncKeyID_latest s w :
  faults w = [] ->
  exists latest,
    GetLatestAppStateSyncKeyID s w = ((latest, None), w) /\
    match latest with
    | None => forall id, whatsmeow_app_state_sync_keys (committed w) !! (JID s, id) = None
    | Some id =>
        exists row,
          whatsmeow_app_state_sync_keys (committed w) !! (JID s, id) = Some row /\
          forall id' row',
            whatsmeow_app_state_sync_keys (committed w) !! (JID s, id') = Some row' ->
            (sk_timestamp row' <= sk_timestamp row)%Z
    end.
Proof.
  intros Hf. eexists. split; [apply GetLatestAppStateSyncKeyID_healthy, Hf|].
  unfold SQL.getLatestAppStateSyncKeyIDQuery.
  pose proof (highest_spec snd (SQL.sync_key_ids (JID s) (committed w))) as Hh.
  destruct (SQL.highest snd (SQL.sync_key_ids (JID s) (committed w))) as [[id ts]|]; simpl.
  - destruct Hh as [Hin Hmax]. apply elem_of_sync_key_ids in Hin as (row & Hrow & <-).
    exists row. split; [exact Hrow|]. intros id' row' Hrow'.
    apply (Hmax (id', sk_timestamp row')). apply elem_of_sync_key_ids. eauto.
  - intros id.
    destruct (whatsmeow_app_state_sync_keys (committed w) !! (JID s, id)) as [row|] eqn:Hrow;
      [|reflexivity].
    assert (Hin : (id, sk_timestamp row) ∈ SQL.sync_key_ids (JID s) (committed w))
      by (apply elem_of_sync_key_ids; eauto).
    rewrite Hh in Hin. apply elem_of_nil in Hin. contradiction.
Qed.

(** X8. A key put with a timestamp above those of all the keys of the
    account is the latest one: [GetLatestAppStateSyncKeyID] returns its id. *)
Theorem PutAppStateSyncKey_GetLatestAppStateSyncKeyID s id key w :
  faults w = [] ->
  (forall id' row', whatsmeow_app_state_sync_keys (committed w) !! (JID s, id') = Some row' ->
     (sk_timestamp row' < Timestamp key)%Z) ->
  exists w1,
    PutAppStateSyncKey s id key w = (None, w1) /\
    GetLatestAppStateSyncKeyID s w1 = ((Some id, None), w1).
Proof.
  intros Hf Hnewer.
  destruct (PutAppStateSyncKey_newer s id key w Hf (Hnewer id)) as (w1 & Hput & Hf1 & Hc).
  exists w1. split; [exact Hput|].
  rewrite GetLatestAppStateSyncKeyID_healthy by exact Hf1.
  unfold SQL.getLatestAppStateSyncKeyIDQuery.
  pose proof (highest_spec snd (SQL.sync_key_ids (JID s) (committed w1))) as Hh.
  assert (Hnew : (id, Timestamp key) ∈ SQL.sync_key_ids (JID s) (committed w1)).
  { apply elem_of_sync_key_ids. exists (row_of_key key). rewrite Hc. simpl.
    rewrite lookup_insert_eq. split; reflexivity. }
  destruct (SQL.highest snd (SQL.sync_key_ids (JID s) (committed w1))) as [[id1 ts1]|].
  - destruct Hh as [Hin Hmax]. specialize (Hmax _ Hnew). simpl in Hmax.
    apply elem_of_sync_key_ids in Hin as (row & Hrow & <-).
    rewrite Hc in Hrow. simpl in Hrow.
    destruct (decide (id1 = id)) as [->|Hne]; [reflexivity|].
    rewrite lookup_insert_ne in Hrow by congruence.
    specialize (Hnewer _ _ Hrow). lia.
  - rewrite Hh in Hnew. apply elem_of_nil in Hnew. contradiction.
Qed.

Lemma GetAppStateVersion_healthy s name w :
  faults w = [] ->
  GetAppStateVersion s name w =
    (match whatsmeow_app_state_version (committed w) !! (JID s, name) with
     | None => (0%Z, zero_hash, None)
     | Some row =>
         if (av_version row <? 0)%Z then (0%Z, zero_hash, Some scan_out_of_range)
         else if negb (length (av_hash row) =? 128)%nat
         then (av_version row, zero_hash, Some ErrInvalidLength)
         else (av_version row, av_hash row, None)
     end, w).
Proof.
  intros Hf. unfold GetAppStateVersion, bind. rewrite QueryRow_healthy by exact Hf.
  unfold SQL.getAppStateVersionQuery.
  destruct (whatsmeow_app_state_version (committed w) !! (JID s, name)) as [row|];
    [|reflexivity].
  destruct (av_version row <? 0)%Z; [reflexivity|].
  destruct (negb (length (av_hash row) =? 128)%nat); reflexivity.
Qed.


Lemma elem_of_mutation_mac_versions jid name index_mac d version :
  version ∈ SQL.mutation_mac_versions jid name index_mac d <->
  is_Some (whatsmeow_app_state_mutation_macs d !! (jid, name, version, index_mac)).
Proof.
  unfold SQL.mutation_mac_versions. rewrite list_elem_of_omap. split.
  - intros ([[[[j n] v] i] val] & Hin & Hf). simpl in Hf.
    destruct (decide (j = jid /\ n = name /\ i = index_mac)) as [(-> & -> & ->)|];
      [|discriminate].
    injection Hf as ->. apply elem_of_map_to_list in Hin. eauto.
  - intros [val Hrow]. exists ((jid, name, version, index_mac), val). split.
    + apply elem_of_map_to_list. exact Hrow.
    + simpl. destruct (decide (jid = jid /\ name = name /\ index_mac = index_mac)) as [|Hn];
        [reflexivity|]. exfalso. apply Hn. auto.
Qed.


Lemma getAppStateMutationMACQuery_none jid name index_mac d :
  (forall version, whatsmeow_app_state_mutation_macs d
                     !! (jid, name, version, index_mac) = None) ->
  SQL.getAppStateMutationMACQuery jid name index_mac d = None.
Proof.
  intros Hnone. unfold SQL.getAppStateMutationMACQuery.
  pose proof (MAX_spec (SQL.mutation_mac_versions jid name index_mac d)) as Hspec.
  destruct (SQL.MAX (SQL.mutation_mac_versions jid name index_mac d)) as [m|];
    [|reflexivity].
  apply Hnone.
Qed.

(** Tables that store the same MACs for one index MAC answer the query alike. *)
Lemma getAppStateMutationMACQuery_ext jid name index_mac d d' :
  (forall version,
     whatsmeow_app_state_mutation_macs d' !! (jid, name, version, index_mac)
     = whatsmeow_app_state_mutation_macs d !! (jid, name, version, index_mac)) ->
  SQL.getAppStateMutationMACQuery jid name index_mac d'
  = SQL.getAppStateMutationMACQuery jid name index_mac d.
Proof.
  intros Hsame. unfold SQL.getAppStateMutationMACQuery.
  rewrite (MAX_same_elements (SQL.mutation_mac_versions jid name index_mac d')
             (SQL.mutation_mac_versions jid name index_mac d)).
  - destruct (SQL.MAX _); [apply Hsame|reflexivity].
  - intros v. rewrite !elem_of_mutation_mac_versions, Hsame. reflexivity.
Qed.

Lemma GetAppStateMutationMAC_healthy s name indexMAC w :
  faults w = [] ->
  GetAppStateMutationMAC s name indexMAC w
  = ((default [] (SQL.getAppStateMutationMACQuery (JID s) name indexMAC (committed w)),
      None), w).
Proof.
  intros Hf. unfold GetAppStateMutationMAC, bind. rewrite QueryRow_healthy by exact Hf.
  destruct (SQL.getAppStateMutationMACQuery (JID s) name indexMAC (committed w));
    reflexivity.
Qed.

(** X10. With the foreign key of the mutation MACs in force,
    [DeleteAppStateVersion(name)] leaves the name in its initial state:
    [GetAppStateVersion] returns version 0 and the zero hash,
    [GetAppStateMutationMAC] returns no MAC for any index MAC of the name,
    and the foreign key still holds. *)
Theorem DeleteAppStateVersion_resets s name w :
  faults w = [] ->
  references_hold (committed w) ->
  exists w1,
    DeleteAppStateVersion s name w = (None, w1) /\
    GetAppStateVersion s name w1 = ((0%Z, zero_hash, None), w1) /\
    (forall indexMAC, GetAppStateMutationMAC s name indexMAC w1 = (([], None), w1)) /\
    (forall name' indexMAC, name' <> name ->
       GetAppStateVersion s name' w1 = ((GetAppStateVersion s name' w).1, w1) /\
       GetAppStateMutationMAC s name' indexMAC w1
       = ((GetAppStateMutationMAC s name' indexMAC w).1, w1)) /\
    references_hold (committed w1).
Proof.
  intros Hf Href.
  unfold DeleteAppStateVersion. rewrite Exec_DB_healthy by exact Hf.
  unfold SQL.deleteAppStateVersionQuery.
  destruct (whatsmeow_app_state_version (committed w) !! (JID s, name)) as [row|] eqn:Hrow.
  - eexists. split; [reflexivity|]. split; [|split; [|split]].
    + rewrite GetAppStateVersion_healthy by exact Hf. simpl.
      rewrite lookup_delete_eq. reflexivity.
    + intros indexMAC. rewrite GetAppStateMutationMAC_healthy by exact Hf.
      rewrite getAppStateMutationMACQuery_none; [reflexivity|].
      intros version. simpl. apply map_lookup_filter_None. right.
      intros val _ Hn. apply Hn. simpl. auto.
    + intros name' indexMAC Hne. split.
      * rewrite !GetAppStateVersion_healthy by exact Hf. simpl.
        rewrite lookup_delete_ne by congruence. reflexivity.
      * rewrite !GetAppStateMutationMAC_healthy by exact Hf. simpl.
        rewrite (getAppStateMutationMACQuery_ext (JID s) name' indexMAC (committed w));
          [reflexivity|].
        intros version. simpl. apply lookup_filter_keep.
        intros val _ [_ Hn]. simpl in Hn. congruence.
    + intros jid name' version index_mac val. simpl. intros Hmac.
      apply map_lookup_filter_Some in Hmac as [Hmac Hkeep]. simpl in Hkeep.
      destruct (Href _ _ _ _ _ Hmac) as [vrow Hvrow].
      rewrite lookup_delete_ne; [eauto|].
      intros [= <- <-]. apply Hkeep. auto.
  - exists (set_committed (committed w) w). split; [reflexivity|]. split; [|split; [|split]].
    + rewrite GetAppStateVersion_healthy by exact Hf. simpl. rewrite Hrow. reflexivity.
    + intros indexMAC. rewrite GetAppStateMutationMAC_healthy by exact Hf.
      rewrite getAppStateMutationMACQuery_none; [reflexivity|].
      intros version. simpl.
      destruct (whatsmeow_app_state_mutation_macs (committed w)
                  !! (JID s, name, version, indexMAC)) as [val|] eqn:Hmac; [|reflexivity].
      destruct (Href _ _ _ _ _ Hmac) as [vrow Hvrow]. congruence.
    + intros name' indexMAC Hne. split.
      * rewrite !GetAppStateVersion_healthy by exact Hf. reflexivity.
      * rewrite !GetAppStateMutationMAC_healthy by exact Hf. reflexivity.
    + exact Href.
Qed.









Lemma DeleteAppStateMutationMACs_healthy s wrapper name indexMACs w :
  faults w = [] ->
  indexMACs <> [] ->
  DeleteAppStateMutationMACs s wrapper name indexMACs w
  = (None, set_committed (SQL.deleteMutationMACs (JID s) name indexMACs (committed w)) w).
Proof.
  intros Hf Hne. unfold DeleteAppStateMutationMACs.
  destruct indexMACs as [|i indexMACs]; [contradiction|]. cbn [length Nat.eqb].
  destruct (String.eqb (dialect s) "postgres" && wrapper);
    rewrite Exec_DB_healthy by exact Hf; reflexivity.
Qed.

(** X12. [DeleteAppStateMutationMACs] makes no round trip for an empty list.
    Otherwise, with or without [PostgresArrayWrapper] and on every dialect,
    [GetAppStateMutationMAC] afterwards returns no MAC for the index MACs
    deleted, and what it returned before for every other index MAC and for
    every other name. *)
Theorem DeleteAppStateMutationMACs_GetAppStateMutationMAC s wrapper name indexMACs w :
  (forall w0 : World types_JID,
     DeleteAppStateMutationMACs s wrapper name [] w0 = (None, w0)) /\
  (faults w = [] ->
   exists w1,
     DeleteAppStateMutationMACs s wrapper name indexMACs w = (None, w1) /\
     (forall indexMAC, indexMAC ∈ indexMACs ->
        GetAppStateMutationMAC s name indexMAC w1 = (([], None), w1)) /\
     (forall name' indexMAC, name' <> name \/ indexMAC ∉ indexMACs ->
        GetAppStateMutationMAC s name' indexMAC w1
        = ((GetAppStateMutationMAC s name' indexMAC w).1, w1))).
Proof.
  split; [reflexivity|]. intros Hf.
  destruct indexMACs as [|i0 indexMACs].
  - exists w. split; [reflexivity|]. split.
    + intros indexMAC Hin. apply elem_of_nil in Hin. contradiction.
    + intros name' indexMAC _. rewrite GetAppStateMutationMAC_healthy by exact Hf.
      reflexivity.
  - eexists. split; [apply DeleteAppStateMutationMACs_healthy; [exact Hf|discriminate]|].
    split.
    + intros indexMAC Hin. rewrite GetAppStateMutationMAC_healthy by exact Hf.
      rewrite getAppStateMutationMACQuery_none; [reflexivity|].
      intros version. simpl. apply lookup_filter_drop.
      intros val _ Hn. apply Hn. simpl. auto.
    + intros name' indexMAC Hother. rewrite !GetAppStateMutationMAC_healthy by exact Hf.
      simpl.
      rewrite (getAppStateMutationMACQuery_ext (JID s) name' indexMAC (committed w));
        [reflexivity|].
      intros version. simpl. apply lookup_filter_keep.
      intros val _ (_ & Hname & Hin). simpl in Hname, Hin.
      destruct Hother as [Hne|Hnotin]; [congruence|contradiction].
Qed.

(** A statement that the back-end never takes changes nothing. *)
Lemma keeps_Exec_refused h stmt :
  (forall d, exists e, stmt d = inl e) -> keeps_committed (Exec h stmt).
Proof.
  intros Hst w. unfold Exec, bind.
  pose proof (next_fault_frame w) as [Hc _].
  destruct (next_fault w) as [[msg|] w0]; simpl in *; [exact Hc|].
  destruct h.
  - destruct (Hst (committed w0)) as [e ->]. exact Hc.
  - destruct (open_tx w0) as [t|]; [|exact Hc].
    destruct (Hst t) as [e ->]. exact Hc.
Qed.

(** X13. On a dialect other than mysql and sqlite3 (the branch the source
    marks as PostgreSQL), [PutAppStateMutationMACs] never stores a mutation
    MAC: the tuples name the markers [$1 .. $(2n+1)] and the call passes
    [2n+3] arguments, so every call with a mutation ends in an error, with the
    committed tables as they were, whatever the back-end does. *)
Theorem PutAppStateMutationMACs_other_dialects s name version mutations w :
  String.eqb (dialect s) "mysql" = false ->
  String.eqb (dialect s) "sqlite3" = false ->
  mutations <> [] ->
  exists e w',
    PutAppStateMutationMACs s name version mutations w = (Some e, w') /\
    committed w' = committed w.
Proof.
  intros Hm Hs Hne. unfold PutAppStateMutationMACs.
  destruct (Nat.ltb_spec mutationBatchSize (length mutations)) as [Hlong|Hshort].
  - unfold bind at 1. pose proof (keeps_Begin w) as HkB.
    destruct (Begin w) as [[e0|] w0]; simpl in HkB; [eauto|].
    destruct (length mutations) as [|n] eqn:Hlen; [unfold mutationBatchSize in Hlong; lia|].
    cbn [for_batches]. rewrite Hlen. cbn [Nat.ltb Nat.leb].
    unfold bind at 1. unfold bind at 1. unfold bind at 1.
    match goal with
    | |- context [putAppStateMutationMACs s sql_Tx name version ?sl w0] =>
        set (slice := sl)
    end.
    destruct (putAppStateMutationMACs_numbered_fails s sql_Tx name version slice w0 Hm Hs)
      as [e He].
    pose proof (keeps_putAppStateMutationMACs_Tx s name version slice w0) as Hk.
    destruct (putAppStateMutationMACs s sql_Tx name version slice w0) as [[e1|] w1];
      simpl in He, Hk; [|discriminate].
    eexists _, _. split; [reflexivity|]. simpl. congruence.
  - destruct mutations as [|m mutations]; [contradiction|]. cbn [length Nat.ltb Nat.leb].
    destruct (putAppStateMutationMACs_numbered_fails s sql_DB name version (m :: mutations)
                w Hm Hs) as [e He].
    assert (Hk : committed (putAppStateMutationMACs s sql_DB name version (m :: mutations) w).2
                 = committed w).
    { unfold putAppStateMutationMACs. rewrite Hm, Hs.
      apply keeps_Exec_refused. intros d. apply putAppStateMutationMACsQuery_numbered. }
    destruct (putAppStateMutationMACs s sql_DB name version (m :: mutations) w)
      as [[e1|] w1]; simpl in He, Hk; [|discriminate].
    eauto.
Qed.

(** [Exec] on [*sql.DB] when the back-end answers the next round trip. *)
Lemma Exec_DB_answered stmt rest w :
  faults w = None :: rest ->
  Exec sql_DB stmt w =
    match stmt (committed w) with
    | inl e => (Some e, set_faults rest w)
    | inr d => (None, set_committed d (set_faults rest w))
    end.
Proof. intros Hf. unfold Exec, bind, next_fault. rewrite Hf. reflexivity. Qed.

Lemma Exec_failed h stmt msg rest w :
  faults w = Some msg :: rest ->
  Exec h stmt w = (Some (DriverError msg), set_faults rest w).
Proof. intros Hf. unfold Exec, bind, next_fault. rewrite Hf. reflexivity. Qed.

(** X14. On MySQL a list of at most 400 mutations is written by one
    [INSERT] after the other, outside a transaction: when the back-end fails
    the insert of one mutation, the call returns that error and the mutations
    before it stay stored. *)
Theorem PutAppStateMutationMACs_mysql_partial s name version pre m post msg rest w :
  String.eqb (dialect s) "mysql" = true ->
  (length (pre ++ m :: post) <= mutationBatchSize)%nat ->
  faults w = (replicate (length pre) None ++ Some msg :: rest)%list ->
  NoDup (map IndexMAC pre) ->
  (forall m', m' ∈ pre ->
     whatsmeow_app_state_mutation_macs (committed w) !! (JID s, name, version, IndexMAC m')
     = None) ->
  exists w',
    PutAppStateMutationMACs s name version (pre ++ m :: post)%list w
    = (Some (DriverError msg), w') /\
    committed w' = foldl (write_mutation_mac (JID s) name version) (committed w) pre /\
    faults w' = rest.
Proof.
  intros Hd Hlen Hf Hnd Hfresh. unfold PutAppStateMutationMACs.
  replace (mutationBatchSize <? length (pre ++ m :: post))%nat with false
    by (symmetry; apply Nat.ltb_ge; exact Hlen).
  replace (0 <? length (pre ++ m :: post))%nat with true
    by (symmetry; apply Nat.ltb_lt; rewrite length_app; simpl; lia).
  unfold putAppStateMutationMACs. rewrite Hd. clear Hlen.
  revert w Hf Hnd Hfresh. induction pre as [|m0 pre IH]; intros w Hf Hnd Hfresh.
  - simpl in Hf. cbn [app for_each]. unfold bind.
    rewrite (Exec_failed _ _ msg rest) by exact Hf.
    eexists. split; [reflexivity|]. split; reflexivity.
  - simpl in Hf, Hnd. apply NoDup_cons in Hnd as [Hnotin Hnd].
    cbn [app for_each]. unfold bind.
    rewrite (Exec_DB_answered _ (replicate (length pre) None ++ Some msg :: rest))
      by exact Hf.
    rewrite putAppStateMutationMACsQuery_one. unfold SQL.insertMutationMAC at 1.
    rewrite (Hfresh m0) by left.
    match goal with |- context [for_each _ _ ?w1] => destruct (IH w1) as (w' & Hrun & Hc & Hr) end.
    + reflexivity.
    + exact Hnd.
    + intros m' Hm'. simpl. rewrite lookup_insert_ne.
      * apply Hfresh. right. exact Hm'.
      * intros [= Heq]. apply Hnotin. rewrite Heq.
        apply list_elem_of_In, in_map, list_elem_of_In, Hm'.
    + exists w'. split; [exact Hrun|]. split; [exact Hc|exact Hr].
Qed.

End AppState.

(** ** Contacts and their cache *)

Section Contacts.
Context {types_JID : Type} `{JIDType types_JID}.
Implicit Types (w : World types_JID) (s : SQLStore).

Lemma Exec_DB_cases stmt w :
  (exists e w', Exec sql_DB stmt w = (Some e, w') /\
     committed w' = committed w /\ contactCache w' = contactCache w) \/
  (exists d w', Exec sql_DB stmt w = (None, w') /\ stmt (committed w) = inr d /\
     committed w' = d /\ contactCache w' = contactCache w).
Proof.
  unfold Exec, bind, next_fault.
  destruct (faults w) as [|[msg|] rest]; simpl.
  - destruct (stmt (committed w)) as [e|d] eqn:Hst; [left|right]; eauto 10.
  - left. eauto 10.
  - destruct (stmt (committed w)) as [e|d] eqn:Hst; [left|right]; eauto 10.
Qed.

Lemma QueryRow_cases {A} (q : DB -> option A) w :
  exists r w',
    QueryRow q w = (r, w') /\
    committed w' = committed w /\ contactCache w' = contactCache w /\
    match r with
    | inr row => q (committed w) = Some row
    | inl e => is_ErrNoRows e = true -> q (committed w) = None
    end.
Proof.
  unfold QueryRow, bind, next_fault.
  destruct (faults w) as [|[msg|] rest]; simpl.
  - destruct (q (committed w)) as [row|] eqn:Hq; eexists _, _; eauto.
  - eexists _, _. repeat split. discriminate.
  - destruct (q (committed w)) as [row|] eqn:Hq; eexists _, _; eauto.
Qed.

(** What [getContact] returns and leaves behind when the cache is coherent. *)
Lemma getContact_spec s user w :
  cache_coherent s w ->
  exists r w1,
    getContact s user w = (r, w1) /\ committed w1 = committed w /\
    match r with
    | inl _ => contactCache w1 = contactCache w
    | inr info =>
        contactCache w1 = <[user := info]> (contactCache w) /\
        info = contact_info (whatsmeow_contacts (committed w) !! (JID s, JID_String user))
    end.
Proof.
  intros Hco. unfold getContact.
  destruct (contactCache w !! user) as [cached|] eqn:Hc.
  - eexists _, _. split; [reflexivity|]. split; [reflexivity|]. split.
    + symmetry. apply insert_id. exact Hc.
    + apply Hco. exact Hc.
  - unfold bind.
    destruct (QueryRow_cases (SQL.getContactQuery (JID s) (JID_String user)) w)
      as (r & w' & -> & Hcm & Hca & Hr).
    unfold SQL.getContactQuery in Hr.
    destruct r as [err|row].
    + destruct (is_ErrNoRows err) eqn:Hno.
      * eexists _, _. split; [reflexivity|]. simpl. split; [exact Hcm|].
        rewrite Hca, (Hr eq_refl). split; reflexivity.
      * eexists _, _. split; [reflexivity|]. simpl. split; [exact Hcm|exact Hca].
    + eexists _, _. split; [reflexivity|]. simpl. split; [exact Hcm|].
      rewrite Hca, Hr. split; reflexivity.
Qed.

Lemma cache_coherent_same s w w' :
  cache_coherent s w -> committed w' = committed w -> contactCache w' = contactCache w ->
  cache_coherent s w'.
Proof. intros Hco Hcm Hca u i Hu. rewrite Hcm. apply Hco. rewrite <- Hca. exact Hu. Qed.

Lemma alone_in_cache_same user w w' :
  alone_in_cache user w -> contactCache w' = contactCache w -> alone_in_cache user w'.
Proof. intros Hal Hca u Hu. apply Hal. rewrite <- Hca. exact Hu. Qed.

Lemma getContact_coherent s user w r w1 :
  cache_coherent s w -> alone_in_cache user w ->
  getContact s user w = (r, w1) ->
  cache_coherent s w1 /\ alone_in_cache user w1 /\ committed w1 = committed w /\
  match r with
  | inl _ => True
  | inr info =>
      contactCache w1 !! user = Some info /\
      info = contact_info (whatsmeow_contacts (committed w) !! (JID s, JID_String user))
  end.
Proof.
  intros Hco Hal Hget.
  destruct (getContact_spec s user w Hco) as (r' & w1' & Hget' & Hcm & Hr).
  rewrite Hget in Hget'. injection Hget' as <- <-.
  destruct r as [err|info].
  - split; [eapply cache_coherent_same; eauto|].
    split; [eapply alone_in_cache_same; eauto|]. split; [exact Hcm|exact I].
  - destruct Hr as [Hca Hinfo]. split; [|split; [|split; [exact Hcm|]]].
    + intros u i Hu. rewrite Hca in Hu. rewrite Hcm.
      destruct (decide (u = user)) as [->|Hne].
      * rewrite lookup_insert_eq in Hu. injection Hu as <-. exact Hinfo.
      * rewrite lookup_insert_ne in Hu by congruence. apply Hco. exact Hu.
    + intros u Hu Heq. rewrite Hca in Hu.
      destruct (decide (u = user)) as [->|Hne]; [reflexivity|].
      rewrite lookup_insert_ne in Hu by congruence. apply Hal; assumption.
    + split; [rewrite Hca; apply lookup_insert_eq|exact Hinfo].
Qed.

(** The cache stays coherent when the row of [user] is written and its
    cache entry is replaced by what the row now says. *)
Lemma write_coherent s user w1 w2 row' info' :
  cache_coherent s w1 -> alone_in_cache user w1 ->
  whatsmeow_contacts (committed w2)
  = <[(JID s, JID_String user) := row']> (whatsmeow_contacts (committed w1)) ->
  contactCache w2 = <[user := info']> (contactCache w1) ->
  info' = contact_info (Some row') ->
  cache_coherent s w2.
Proof.
  intros Hco Hal Hcm Hca Hinfo u i Hu. rewrite Hca in Hu. rewrite Hcm.
  destruct (decide (u = user)) as [->|Hne].
  - rewrite lookup_insert_eq in Hu. injection Hu as <-.
    rewrite lookup_insert_eq. exact Hinfo.
  - rewrite lookup_insert_ne in Hu by congruence.
    rewrite lookup_insert_ne.
    + apply Hco. exact Hu.
    + intros [= Heq]. apply Hne. apply Hal; [eauto|]. symmetry. exact Heq.
Qed.

Lemma PutPushName_coherent s user pushName w :
  cache_coherent s w -> alone_in_cache user w ->
  cache_coherent s (PutPushName s user pushName w).2.
Proof.
  intros Hco Hal. unfold PutPushName, bind.
  destruct (getContact s user w) as [r w1] eqn:Hget.
  destruct (getContact_coherent s user w r w1 Hco Hal Hget) as (Hco1 & Hal1 & Hcm1 & Hr).
  destruct r as [err|cached]; [exact Hco1|]. destruct Hr as [Hc1 Hinfo].
  destruct (negb (String.eqb (PushName cached) pushName)); [|exact Hco1].
  destruct (Exec_DB_cases (SQL.putPushNameQuery (JID s) (JID_String user) pushName) w1)
    as [(e & w2 & -> & Hcm2 & Hca2)|(d & w2 & -> & Hst & Hcm2 & Hca2)].
  - simpl. eapply cache_coherent_same; eauto.
  - cbn [bind ret cache_contact snd]. unfold SQL.putPushNameQuery in Hst. injection Hst as Hd.
    rewrite Hcm1 in Hd.
    destruct (whatsmeow_contacts (committed w) !! (JID s, JID_String user)) as [row|] eqn:Hrow.
    + eapply (write_coherent s user w1); [exact Hco1|exact Hal1| | |].
      * cbn [committed set_contactCache]. rewrite Hcm2, <- Hd.
        cbn [SQL.with_contacts whatsmeow_contacts]. rewrite Hrow, Hcm1. reflexivity.
      * cbn [contactCache set_contactCache]. rewrite Hca2. reflexivity.
      * rewrite Hinfo. reflexivity.
    + eapply (write_coherent s user w1); [exact Hco1|exact Hal1| | |].
      * cbn [committed set_contactCache]. rewrite Hcm2, <- Hd.
        cbn [SQL.with_contacts whatsmeow_contacts]. rewrite Hrow, Hcm1. reflexivity.
      * cbn [contactCache set_contactCache]. rewrite Hca2. reflexivity.
      * rewrite Hinfo. reflexivity.
Qed.

Lemma PutBusinessName_coherent s user businessName w :
  cache_coherent s w -> alone_in_cache user w ->
  cache_coherent s (PutBusinessName s user businessName w).2.
Proof.
  intros Hco Hal. unfold PutBusinessName, bind.
  destruct (getContact s user w) as [r w1] eqn:Hget.
  destruct (getContact_coherent s user w r w1 Hco Hal Hget) as (Hco1 & Hal1 & Hcm1 & Hr).
  destruct r as [err|cached]; [exact Hco1|]. destruct Hr as [Hc1 Hinfo].
  destruct (negb (String.eqb (BusinessName cached) businessName)); [|exact Hco1].
  destruct (Exec_DB_cases (SQL.putBusinessNameQuery (JID s) (JID_String user) businessName) w1)
    as [(e & w2 & -> & Hcm2 & Hca2)|(d & w2 & -> & Hst & Hcm2 & Hca2)].
  - simpl. eapply cache_coherent_same; eauto.
  - cbn [bind ret cache_contact snd]. unfold SQL.putBusinessNameQuery in Hst. injection Hst as Hd.
    rewrite Hcm1 in Hd.
    destruct (whatsmeow_contacts (committed w) !! (JID s, JID_String user)) as [row|] eqn:Hrow.
    + eapply (write_coherent s user w1); [exact Hco1|exact Hal1| | |].
      * cbn [committed set_contactCache]. rewrite Hcm2, <- Hd.
        cbn [SQL.with_contacts whatsmeow_contacts]. rewrite Hrow, Hcm1. reflexivity.
      * cbn [contactCache set_contactCache]. rewrite Hca2. reflexivity.
      * rewrite Hinfo. reflexivity.
    + eapply (write_coherent s user w1); [exact Hco1|exact Hal1| | |].
      * cbn [committed set_contactCache]. rewrite Hcm2, <- Hd.
        cbn [SQL.with_contacts whatsmeow_contacts]. rewrite Hrow, Hcm1. reflexivity.
      * cbn [contactCache set_contactCache]. rewrite Hca2. reflexivity.
      * rewrite Hinfo. reflexivity.
Qed.

Lemma PutContactName_coherent s user firstName fullName w :
  cache_coherent s w -> alone_in_cache user w ->
  cache_coherent s (PutContactName s user firstName fullName w).2.
Proof.
  intros Hco Hal. unfold PutContactName, bind.
  destruct (getContact s user w) as [r w1] eqn:Hget.
  destruct (getContact_coherent s user w r w1 Hco Hal Hget) as (Hco1 & Hal1 & Hcm1 & Hr).
  destruct r as [err|cached]; [exact Hco1|]. destruct Hr as [Hc1 Hinfo].
  destruct (negb (String.eqb (FirstName cached) firstName)
            || negb (String.eqb (FullName cached) fullName)); [|exact Hco1].
  destruct (Exec_DB_cases (SQL.putContactNameQuery (JID s) (JID_String user)
                             firstName fullName) w1)
    as [(e & w2 & -> & Hcm2 & Hca2)|(d & w2 & -> & Hst & Hcm2 & Hca2)].
  - simpl. eapply cache_coherent_same; eauto.
  - cbn [bind ret cache_contact snd]. unfold SQL.putContactNameQuery, SQL.upsertContactName in Hst.
    injection Hst as Hd. rewrite Hcm1 in Hd.
    destruct (whatsmeow_contacts (committed w) !! (JID s, JID_String user)) as [row|] eqn:Hrow.
    + eapply (write_coherent s user w1); [exact Hco1|exact Hal1| | |].
      * cbn [committed set_contactCache]. rewrite Hcm2, <- Hd.
        cbn [SQL.with_contacts whatsmeow_contacts]. rewrite Hrow, Hcm1. reflexivity.
      * cbn [contactCache set_contactCache]. rewrite Hca2. reflexivity.
      * rewrite Hinfo. reflexivity.
    + eapply (write_coherent s user w1); [exact Hco1|exact Hal1| | |].
      * cbn [committed set_contactCache]. rewrite Hcm2, <- Hd.
        cbn [SQL.with_contacts whatsmeow_contacts]. rewrite Hrow, Hcm1. reflexivity.
      * cbn [contactCache set_contactCache]. rewrite Hca2. reflexivity.
      * rewrite Hinfo. reflexivity.
Qed.

Lemma GetContact_coherent s user w :
  cache_coherent s w -> alone_in_cache user w ->
  cache_coherent s (GetContact s user w).2.
Proof.
  intros Hco Hal. unfold GetContact, bind.
  destruct (getContact s user w) as [r w1] eqn:Hget.
  destruct (getContact_coherent s user w r w1 Hco Hal Hget) as (Hco1 & _).
  destruct r; exact Hco1.
Qed.

(** X15. The contact cache stays coherent with the table.  If every cached
    entry is what the row of its user says, and no other cached user has the
    JID text of [user], the same holds after [GetContact], [PutPushName],
    [PutBusinessName] and [PutContactName] for [user], whether the back-end
    answers or fails any of the round trips. *)
Theorem contact_cache_coherent s user pushName businessName firstName fullName w :
  cache_coherent s w ->
  (forall u, is_Some (contactCache w !! u) -> JID_String u = JID_String user -> u = user) ->
  cache_coherent s (GetContact s user w).2 /\
  cache_coherent s (PutPushName s user pushName w).2 /\
  cache_coherent s (PutBusinessName s user businessName w).2 /\
  cache_coherent s (PutContactName s user firstName fullName w).2.
Proof.
  intros Hco Hal. repeat split.
  - apply GetContact_coherent; assumption.
  - apply PutPushName_coherent; assumption.
  - apply PutBusinessName_coherent; assumption.
  - apply PutContactName_coherent; assumption.
Qed.

(** [getContact] on a healthy back-end with a coherent cache. *)
Lemma getContact_healthy s user w :
  faults w = [] -> cache_coherent s w ->
  let info := contact_info (whatsmeow_contacts (committed w) !! (JID s, JID_String user)) in
  getContact s user w
  = (inr info,
     match contactCache w !! user with
     | Some _ => w
     | None => set_contactCache (<[user := info]> (contactCache w)) w
     end).
Proof.
  intros Hf Hco info. unfold getContact.
  destruct (contactCache w !! user) as [cached|] eqn:Hc.
  - rewrite (Hco _ _ Hc). reflexivity.
  - unfold bind. rewrite QueryRow_healthy by exact Hf. unfold SQL.getContactQuery. subst info.
    destruct (whatsmeow_contacts (committed w) !! (JID s, JID_String user)); reflexivity.
Qed.

Lemma getContact_cached s user info w :
  contactCache w !! user = Some info -> getContact s user w = (inr info, w).
Proof. intros Hc. unfold getContact. rewrite Hc. reflexivity. Qed.

Lemma GetContact_cached s user info w :
  contactCache w !! user = Some info -> GetContact s user w = ((info, None), w).
Proof. intros Hc. unfold GetContact, bind. rewrite (getContact_cached _ _ info) by exact Hc. reflexivity. Qed.

(** X16. [PutPushName] and [PutBusinessName] report whether the name
    changed and which name it replaced: with a coherent cache and a healthy
    back-end the result is [(true, old, nil)] when the new name differs from
    the stored one ([NULL] and a missing row count as the empty name) and
    [(false, "", nil)] otherwise, and [GetContact] returns the new name
    afterwards with the other three names as they were. *)
Theorem PutPushName_PutBusinessName_report s user name w :
  faults w = [] ->
  cache_coherent s w ->
  let before := contact_info (whatsmeow_contacts (committed w) !! (JID s, JID_String user)) in
  (exists w1 after,
     PutPushName s user name w
     = ((negb (String.eqb (PushName before) name),
         if String.eqb (PushName before) name then EmptyString else PushName before,
         None), w1) /\
     GetContact s user w1 = ((after, None), w1) /\
     PushName after = name /\ FirstName after = FirstName before /\
     FullName after = FullName before /\ BusinessName after = BusinessName before) /\
  (exists w1 after,
     PutBusinessName s user name w
     = ((negb (String.eqb (BusinessName before) name),
         if String.eqb (BusinessName before) name then EmptyString else BusinessName before,
         None), w1) /\
     GetContact s user w1 = ((after, None), w1) /\
     BusinessName after = name /\ FirstName after = FirstName before /\
     FullName after = FullName before /\ PushName after = PushName before).
Proof.
  intros Hf Hco before. split.
  - unfold PutPushName, bind. rewrite getContact_healthy by assumption. cbv zeta. fold before.
    set (w1 := match contactCache w !! user with
               | Some _ => w
               | None => set_contactCache (<[user := before]> (contactCache w)) w
               end).
    assert (Hf1 : faults w1 = []) by (subst w1; destruct (contactCache w !! user); exact Hf).
    assert (Hc1 : contactCache w1 !! user = Some before).
    { subst w1. destruct (contactCache w !! user) as [cached|] eqn:Hc.
      - rewrite Hc. f_equal. apply Hco. exact Hc.
      - simpl. apply lookup_insert_eq. }
    destruct (String.eqb_spec (PushName before) name) as [Heq|Hne]; cbn [negb].
    + exists w1, before. split; [reflexivity|].
      split; [apply GetContact_cached; exact Hc1|]. repeat split. exact Heq.
    + rewrite Exec_DB_healthy by exact Hf1. cbn [SQL.putPushNameQuery ret cache_contact].
      eexists _, _. split; [reflexivity|].
      split; [apply GetContact_cached; cbn [contactCache set_contactCache set_committed];
              apply lookup_insert_eq|].
      repeat split.
  - unfold PutBusinessName, bind. rewrite getContact_healthy by assumption. cbv zeta.
    fold before.
    set (w1 := match contactCache w !! user with
               | Some _ => w
               | None => set_contactCache (<[user := before]> (contactCache w)) w
               end).
    assert (Hf1 : faults w1 = []) by (subst w1; destruct (contactCache w !! user); exact Hf).
    assert (Hc1 : contactCache w1 !! user = Some before).
    { subst w1. destruct (contactCache w !! user) as [cached|] eqn:Hc.
      - rewrite Hc. f_equal. apply Hco. exact Hc.
      - simpl. apply lookup_insert_eq. }
    destruct (String.eqb_spec (BusinessName before) name) as [Heq|Hne]; cbn [negb].
    + exists w1, before. split; [reflexivity|].
      split; [apply GetContact_cached; exact Hc1|]. repeat split. exact Heq.
    + rewrite Exec_DB_healthy by exact Hf1. cbn [SQL.putBusinessNameQuery ret cache_contact].
      eexists _, _. split; [reflexivity|].
      split; [apply GetContact_cached; cbn [contactCache set_contactCache set_committed];
              apply lookup_insert_eq|].
      repeat split.
Qed.

(** X17. [PutContactName] on a healthy back-end with a coherent cache
    writes only when one of the two names differs from the stored one ([NULL]
    and a missing row count as empty names): then the row of the contact holds
    the two names and keeps its push name and its business name, and no other
    row changes.  Either way [GetContact] returns the two names afterwards,
    with the push name and the business name as they were. *)
Theorem PutContactName_GetContact s user firstName fullName w :
  faults w = [] ->
  cache_coherent s w ->
  let key := (JID s, JID_String user) in
  let before := whatsmeow_contacts (committed w) !! key in
  let info := contact_info before in
  let changed := negb (String.eqb (FirstName info) firstName)
                 || negb (String.eqb (FullName info) fullName) in
  exists w1,
    PutContactName s user firstName fullName w = (None, w1) /\
    GetContact s user w1
    = (({| Found := Found info || changed; FirstName := firstName; FullName := fullName;
           PushName := PushName info; BusinessName := BusinessName info |}, None), w1) /\
    whatsmeow_contacts (committed w1)
    = if changed
      then <[key := {| ct_first_name := Some firstName; ct_full_name := Some fullName;
                       ct_push_name := before ≫= ct_push_name;
                       ct_business_name := before ≫= ct_business_name |}]>
             (whatsmeow_contacts (committed w))
      else whatsmeow_contacts (committed w).
Proof.
  intros Hf Hco key before info changed.
  unfold PutContactName, bind. rewrite getContact_healthy by assumption. cbv zeta.
  fold key before info.
  set (w1 := match contactCache w !! user with
             | Some _ => w
             | None => set_contactCache (<[user := info]> (contactCache w)) w
             end).
  assert (Hf1 : faults w1 = []) by (subst w1; destruct (contactCache w !! user); exact Hf).
  assert (Hcm1 : committed w1 = committed w)
    by (subst w1; destruct (contactCache w !! user); reflexivity).
  assert (Hc1 : contactCache w1 !! user = Some info).
  { subst w1. destruct (contactCache w !! user) as [cached|] eqn:Hc.
    - rewrite Hc. f_equal. apply Hco. exact Hc.
    - simpl. apply lookup_insert_eq. }
  fold changed. destruct changed eqn:Hch.
  - rewrite Exec_DB_healthy by exact Hf1.
    cbn [SQL.putContactNameQuery ret cache_contact].
    eexists. split; [reflexivity|]. split.
    + apply GetContact_cached. cbn [contactCache set_contactCache set_committed].
      rewrite lookup_insert_eq. rewrite orb_true_r. reflexivity.
    + cbn [committed set_contactCache set_committed SQL.with_contacts whatsmeow_contacts].
      unfold SQL.upsertContactName. rewrite Hcm1. fold key before.
      destruct before; reflexivity.
  - exists w1. split; [reflexivity|]. split; [|rewrite Hcm1; reflexivity].
    rewrite (GetContact_cached _ _ info) by exact Hc1. do 2 f_equal.
    subst changed. apply orb_false_elim in Hch as [H1 H2].
    apply negb_false_iff, String.eqb_eq in H1, H2.
    rewrite orb_false_r, <- H1, <- H2. destruct info; reflexivity.
Qed.

Lemma length_positional_rows {A} k (l : list A) :
  length (concat (map (fun _ => replicate k SQL.Positional) l)) = (k * length l)%nat.
Proof.
  induction l as [|x l IH]; simpl; [lia|].
  rewrite length_app, length_replicate, IH. lia.
Qed.

Lemma forallb_positional_rows {A} k (l : list A) :
  forallb SQL.is_positional (concat (map (fun _ => replicate k SQL.Positional) l)) = true.
Proof.
  induction l as [|x l IH]; simpl; [reflexivity|].
  rewrite forallb_app, IH, andb_true_r. clear. induction k; simpl; auto.
Qed.

(** The statement of [putContactNamesBatch] by the number of contacts kept
    and the kind of marker. *)
Lemma putContactNamesBatch_statement_cases s (contacts : list ContactEntry) d :
  let kept := contact_values ∅ contacts in
  let stmt :=
    SQL.putManyContactNamesQuery
      (if String.eqb (dialect s) "sqlite3" || String.eqb (dialect s) "mysql"
       then map (fun _ => replicate 4 SQL.Positional) kept
       else numbered_contact_rows 0 kept)
      (SQL.TextArg (JID s) :: concat (map contact_args kept)) in
  match kept with
  | [] => stmt d = inl SQL.syntax_error
  | [_] => stmt d = inr (write_contact_batch s d contacts)
  | _ =>
      if String.eqb (dialect s) "sqlite3" || String.eqb (dialect s) "mysql"
      then stmt d = inl SQL.argument_count_mismatch
      else stmt d = inr (write_contact_batch s d contacts)
  end.
Proof.
  intros kept stmt. subst stmt. unfold write_contact_batch. fold kept.
  generalize kept as l. clear kept. intros kept.
  unfold SQL.putManyContactNamesQuery.
  destruct (String.eqb (dialect s) "sqlite3" || String.eqb (dialect s) "mysql").
  - destruct kept as [|v kept]; [reflexivity|].
    destruct kept as [|v' kept].
    + change (SQL.bind_args (map (fun _ => replicate 4 SQL.Positional) [v])
                (SQL.TextArg (JID s) :: concat (map contact_args [v])))
        with (inr [SQL.TextArg (JID s) :: contact_args v] : error + list (list SQL.arg)).
      pose proof (contact_rows_written (JID s) [v] d) as Hw. cbn [map] in Hw.
      cbn [map]. cbv iota beta. rewrite Hw. reflexivity.
    + cbv iota. unfold SQL.bind_args.
      rewrite forallb_positional_rows, length_positional_rows.
      cbn [length]. rewrite length_contact_args. cbn [length].
      replace (4 * S (S (length kept)) =? S (3 * S (S (length kept))))%nat with false
        by (symmetry; apply Nat.eqb_neq; lia).
      reflexivity.
  - destruct kept as [|v kept]; [reflexivity|].
    assert (Hok : match SQL.bind_args (numbered_contact_rows 0 (v :: kept))
                          (SQL.TextArg (JID s) :: concat (map contact_args (v :: kept))) with
                  | inl e => inl e
                  | inr bound => SQL.all_rows SQL.contactNameRow bound d
                  end
                  = inr (SQL.with_contacts
                           (fun t => foldl (fun t v => SQL.upsertContactName (JID s) v t) t
                                       (v :: kept)) d)).
    { unfold SQL.bind_args.
      change (forallb SQL.is_positional (concat (numbered_contact_rows 0 (v :: kept))))
        with false. cbv iota.
      rewrite numbered_contact_rows_numbered, highest_numbered_contact_rows.
      cbn [length]. rewrite length_contact_args.
      replace (3 * (0 + S (length kept)) + 1)%nat with (S (3 * S (length kept))) by lia.
      rewrite Nat.eqb_refl.
      change (SQL.TextArg (JID s) :: concat (map contact_args (v :: kept)))
        with ([SQL.TextArg (JID s)] ++ concat (map contact_args (v :: kept)))%list.
      rewrite (bind_numbered_contact_rows (JID s) (v :: kept) 0 [SQL.TextArg (JID s)])
        by reflexivity.
      apply contact_rows_written. }
    destruct kept; exact Hok.
Qed.

(** X18. The statement of [PutAllContactNames] is refused when no contact
    is left after the contacts with an empty JID and the repeated JIDs have
    been skipped (no tuple follows [VALUES]), and, on the tags sqlite3 and
    mysql, when two or more contacts are left (four [?] for each contact
    against one argument and three for each contact).  For a list of at most
    300 contacts the call then returns an error, writes nothing and leaves the
    cache as it is. *)
Theorem PutAllContactNames_refused s (contacts : list ContactEntry) w :
  (0 < length contacts <= contactBatchSize)%nat ->
  let kept := contact_values ∅ contacts in
  kept = [] \/
  (String.eqb (dialect s) "sqlite3" || String.eqb (dialect s) "mysql" = true /\
   (2 <= length kept)%nat) ->
  exists e w',
    PutAllContactNames s contacts w = (Some e, w') /\
    committed w' = committed w /\ contactCache w' = contactCache w.
Proof.
  intros [Hpos Hlen] kept Hcase. unfold PutAllContactNames.
  replace (contactBatchSize <? length contacts)%nat with false
    by (symmetry; apply Nat.ltb_ge; exact Hlen).
  replace (0 <? length contacts)%nat with true by (symmetry; apply Nat.ltb_lt; exact Hpos).
  unfold bind, putContactNamesBatch. fold kept.
  match goal with |- context [Exec sql_DB ?st w] => set (stmt := st) end.
  assert (Hrefused : forall d, exists e, stmt d = inl e).
  { intros d. pose proof (putContactNamesBatch_statement_cases s contacts d) as Hst.
    cbv zeta in Hst. fold kept in Hst. fold stmt in Hst.
    destruct Hcase as [Hnone|[Hd Htwo]].
    - rewrite Hnone in Hst. eauto.
    - rewrite Hd in Hst. destruct kept as [|v [|v' kept']]; simpl in Htwo; [lia|lia|eauto]. }
  destruct (Exec_DB_cases stmt w) as [(e & w' & -> & Hcm & Hca)|(d & w' & _ & Hst & _)].
  - eauto.
  - destruct (Hrefused (committed w)) as [e He]. congruence.
Qed.

Lemma contact_values_all (handled : gset types_JID) (contacts : list ContactEntry) :
  Forall (fun c => IsEmpty (entry_JID c) = false) contacts ->
  NoDup (map (fun c => JID_String (entry_JID c)) contacts) ->
  (forall c, c ∈ contacts -> entry_JID c ∉ handled) ->
  contact_values handled contacts
  = map (fun c => (JID_String (entry_JID c), entry_FirstName c, entry_FullName c)) contacts.
Proof.
  revert handled. induction contacts as [|c contacts IH]; intros handled Hne Hnd Hnot;
    [reflexivity|].
  apply Forall_cons in Hne as [Hc Hne]. simpl in Hnd. apply NoDup_cons in Hnd as [Hnotin Hnd].
  cbn [contact_values map]. rewrite Hc.
  destruct (decide (entry_JID c ∈ handled)) as [Hin|_].
  - exfalso. apply (Hnot c); [left|exact Hin].
  - f_equal. apply IH; [exact Hne|exact Hnd|].
    intros c' Hc' Hin. apply elem_of_union in Hin as [Hin|Hin].
    + apply elem_of_singleton in Hin. apply Hnotin. rewrite <- Hin.
      apply list_elem_of_In.
      apply (in_map (fun c => JID_String (entry_JID c))), list_elem_of_In, Hc'.
    + apply (Hnot c'); [right; exact Hc'|exact Hin].
Qed.

Lemma lookup_upsertContactNames our_jid (kept : list (string * string * string)) t k :
  (forall v, v ∈ kept -> k <> (our_jid, v.1.1)) ->
  foldl (fun t v => SQL.upsertContactName our_jid v t) t kept !! k = t !! k.
Proof.
  revert t. induction kept as [|[[their first] full] kept IH]; intros t Hk; [reflexivity|].
  simpl. rewrite IH by (intros v Hv; apply Hk; right; exact Hv).
  assert (Hne : (our_jid, their) <> k).
  { intros Heq. apply (Hk (their, first, full)); [left|]. symmetry. exact Heq. }
  destruct (t !! (our_jid, their)); apply lookup_insert_ne; exact Hne.
Qed.

Lemma lookup_upsertedContactName our_jid (kept : list (string * string * string)) t
  their first full :
  NoDup (map (fun v => v.1.1) kept) -> (their, first, full) ∈ kept ->
  foldl (fun t v => SQL.upsertContactName our_jid v t) t kept !! (our_jid, their)
  = Some {| ct_first_name := Some first; ct_full_name := Some full;
            ct_push_name := t !! (our_jid, their) ≫= ct_push_name;
            ct_business_name := t !! (our_jid, their) ≫= ct_business_name |}.
Proof.
  revert t. induction kept as [|[[their0 first0] full0] kept IH]; intros t Hnd Hin.
  - apply elem_of_nil in Hin. contradiction.
  - simpl in Hnd. apply NoDup_cons in Hnd as [Hnotin Hnd].
    apply elem_of_cons in Hin as [[= -> -> ->]|Hin].
    + simpl. rewrite lookup_upsertContactNames.
      * destruct (t !! (our_jid, their0)); simpl; apply lookup_insert_eq.
      * intros v Hv [= Heq]. apply Hnotin. rewrite Heq.
        apply list_elem_of_In. apply (in_map (fun v => v.1.1)), list_elem_of_In, Hv.
    + simpl. rewrite (IH _ Hnd Hin).
      assert (Hne : (our_jid, their0) <> (our_jid, their)).
      { intros [= Heq]. apply Hnotin. rewrite Heq.
        apply list_elem_of_In.
        apply (in_map (fun v : string * string * string => v.1.1) _ (their, first, full)),
          list_elem_of_In, Hin. }
      destruct (t !! (our_jid, their0)); rewrite lookup_insert_ne by exact Hne; reflexivity.
Qed.

(** X19. [PutAllContactNames] with at most 300 contacts whose JIDs are not
    empty and differ in their text, on a dialect with numbered markers or
    with one contact only, on a healthy back-end: the call succeeds and
    empties the cache, and [GetContact] then returns every contact of the
    list as found, with the names of the list and with its push name and
    business name as stored before. *)
Theorem PutAllContactNames_GetContact s (contacts : list ContactEntry) w :
  faults w = [] ->
  (0 < length contacts <= contactBatchSize)%nat ->
  String.eqb (dialect s) "sqlite3" || String.eqb (dialect s) "mysql" = false
  \/ length contacts = 1%nat ->
  Forall (fun c => IsEmpty (entry_JID c) = false) contacts ->
  NoDup (map (fun c => JID_String (entry_JID c)) contacts) ->
  exists w1,
    PutAllContactNames s contacts w = (None, w1) /\
    contactCache w1 = ∅ /\
    forall c, c ∈ contacts ->
      let before :=
        contact_info (whatsmeow_contacts (committed w)
                        !! (JID s, JID_String (entry_JID c))) in
      (GetContact s (entry_JID c) w1).1
      = ({| Found := true; FirstName := entry_FirstName c; FullName := entry_FullName c;
            PushName := PushName before; BusinessName := BusinessName before |}, None).
Proof.
  intros Hf [Hpos Hlen] Hcase Hne Hnd.
  assert (Hkept : contact_values ∅ contacts
                  = map (fun c => (JID_String (entry_JID c), entry_FirstName c,
                                   entry_FullName c)) contacts).
  { apply contact_values_all; [exact Hne|exact Hnd|]. intros c _. apply not_elem_of_empty. }
  unfold PutAllContactNames.
  replace (contactBatchSize <? length contacts)%nat with false
    by (symmetry; apply Nat.ltb_ge; exact Hlen).
  replace (0 <? length contacts)%nat with true by (symmetry; apply Nat.ltb_lt; exact Hpos).
  unfold bind, putContactNamesBatch. rewrite Exec_DB_healthy by exact Hf.
  pose proof (putContactNamesBatch_statement_cases s contacts (committed w)) as Hst.
  cbv zeta in Hst.
  assert (Hacc : SQL.putManyContactNamesQuery
                   (if String.eqb (dialect s) "sqlite3" || String.eqb (dialect s) "mysql"
                    then map (fun _ => replicate 4 SQL.Positional) (contact_values ∅ contacts)
                    else numbered_contact_rows 0 (contact_values ∅ contacts))
                   (SQL.TextArg (JID s) :: concat (map contact_args (contact_values ∅ contacts)))
                   (committed w)
                 = inr (write_contact_batch s (committed w) contacts)).
  { destruct (contact_values ∅ contacts) as [|v [|v' kept']] eqn:Hk.
    - destruct contacts; [simpl in Hpos; lia|discriminate].
    - exact Hst.
    - destruct Hcase as [Hd|Hone].
      + rewrite Hd in Hst |- *. exact Hst.
      + apply (f_equal length) in Hkept. rewrite length_map in Hkept.
        simpl in Hkept. lia. }
  rewrite Hacc. cbn [clear_contactCache ret].
  eexists. split; [reflexivity|]. split; [reflexivity|].
  intros c Hc. unfold GetContact, getContact, bind.
  cbn [contactCache set_contactCache set_committed]. rewrite lookup_empty.
  rewrite QueryRow_healthy by exact Hf.
  unfold SQL.getContactQuery.
  cbn [committed set_contactCache set_committed]. unfold write_contact_batch.
  cbn [SQL.with_contacts whatsmeow_contacts]. rewrite Hkept.
  rewrite (lookup_upsertedContactName (JID s) _ _ (JID_String (entry_JID c))
             (entry_FirstName c) (entry_FullName c)).
  - cbn [fst cache_contact ret].
    destruct (whatsmeow_contacts (committed w) !! (JID s, JID_String (entry_JID c)));
      reflexivity.
  - rewrite map_map. exact Hnd.
  - apply list_elem_of_In.
    apply (in_map (fun c => (JID_String (entry_JID c), entry_FirstName c, entry_FullName c))),
      list_elem_of_In, Hc.
Qed.

End Contacts.

Section AllContacts.
Context {types_JID : Type} `{JIDType types_JID} `{JIDScanner types_JID}.
Implicit Types (w : World types_JID) (s : SQLStore).

Lemma elem_of_getAllContactsQuery our_jid d their_jid row :
  (their_jid, row) ∈ SQL.getAllContactsQuery our_jid d <->
  whatsmeow_contacts d !! (our_jid, their_jid) = Some row.
Proof.
  unfold SQL.getAllContactsQuery. rewrite list_elem_of_omap. split.
  - intros ([[j t] r] & Hin & Hf). simpl in Hf.
    destruct (decide (j = our_jid)) as [->|]; [|discriminate].
    injection Hf as -> ->. apply elem_of_map_to_list in Hin. exact Hin.
  - intros Hrow. exists ((our_jid, their_jid), row). split.
    + apply elem_of_map_to_list. exact Hrow.
    + simpl. destruct (decide (our_jid = our_jid)); [reflexivity|contradiction].
Qed.

(** The loop over rows that all scan: [output] and the cache receive the
    same entry for every JID that a row scans to, and keep the others. *)
Lemma scanContacts_scanned (rows : list (string * contact_row)) output w :
  Forall (fun r => is_Some (JID_Scan r.1)) rows ->
  exists output' w1,
    scanContacts rows output w = ((output', None), w1) /\
    committed w1 = committed w /\
    forall jid,
      if decide (Exists (fun r => JID_Scan r.1 = Some jid) rows)
      then exists r, r ∈ rows /\ JID_Scan r.1 = Some jid /\
             output' !! jid = Some (contact_info (Some r.2)) /\
             contactCache w1 !! jid = Some (contact_info (Some r.2))
      else output' !! jid = output !! jid /\ contactCache w1 !! jid = contactCache w !! jid.
Proof.
  revert output w. induction rows as [|[their row] rows IH]; intros output w Hall.
  - exists output, w. split; [reflexivity|]. split; [reflexivity|].
    intros jid. destruct (decide _) as [Hex|_]; [inversion Hex|]. split; reflexivity.
  - apply Forall_cons in Hall as [[j Hj] Hall]. simpl in Hj.
    cbn [scanContacts]. rewrite Hj. unfold bind. cbn [cache_contact].
    set (info := contact_info (Some row)).
    destruct (IH (<[j := info]> output)
                (set_contactCache (<[j := info]> (contactCache w)) w) Hall)
      as (output' & w1 & Hrun & Hcm & Hent).
    exists output', w1. split; [exact Hrun|]. split; [exact Hcm|].
    intros jid. specialize (Hent jid).
    destruct (decide (Exists (fun r => JID_Scan r.1 = Some jid) rows)) as [Hex|Hnex].
    + destruct (decide _) as [_|Hn]; [|exfalso; apply Hn; right; exact Hex].
      destruct Hent as (r & Hr & Hscan & Ho & Hc).
      exists r. split; [right; exact Hr|]. auto.
    + destruct Hent as [Ho Hc]. cbn [contactCache set_contactCache] in Hc.
      destruct (decide (j = jid)) as [->|Hne].
      * destruct (decide _) as [_|Hn]; [|exfalso; apply Hn; left; exact Hj].
        exists (their, row). split; [left|]. split; [exact Hj|].
        rewrite Ho, Hc, !lookup_insert_eq. split; reflexivity.
      * destruct (decide _) as [Hex|_].
        -- exfalso. apply Exists_cons in Hex as [Hhead|Htail]; [|contradiction].
           simpl in Hhead. congruence.
        -- rewrite Ho, Hc, !lookup_insert_ne by exact Hne. split; reflexivity.
Qed.

Lemma scanContacts_unscanned (rows : list (string * contact_row)) output w :
  Exists (fun r => JID_Scan r.1 = None) rows ->
  exists w1,
    scanContacts rows output w
    = ((∅, Some (Errorf_w "error scanning row" scan_jid_error)), w1) /\
    committed w1 = committed w.
Proof.
  revert output w. induction rows as [|[their row] rows IH]; intros output w Hex.
  - inversion Hex.
  - cbn [scanContacts]. destruct (JID_Scan their) as [j|] eqn:Hj.
    + apply Exists_cons in Hex as [Hhead|Htail]; [simpl in Hhead; congruence|].
      unfold bind. cbn [cache_contact].
      destruct (IH (<[j := contact_info (Some row)]> output)
                  (set_contactCache (<[j := contact_info (Some row)]> (contactCache w)) w)
                  Htail) as (w1 & Hrun & Hcm).
      exists w1. split; [exact Hrun|exact Hcm].
    + exists w. split; reflexivity.
Qed.

(** X20. [GetAllContacts] on a healthy back-end.  When every stored JID of
    the account scans, the result has an entry for every contact of the
    account and no other entry; every entry is marked as found, carries the
    names of a row that scans to its JID, and is the entry of the cache
    afterwards.  When a stored JID does not scan, the call returns no map and
    the error [error scanning row].  The tables are never written. *)
Theorem GetAllContacts_output s w :
  faults w = [] ->
  ((forall their_jid row,
      whatsmeow_contacts (committed w) !! (JID s, their_jid) = Some row ->
      is_Some (JID_Scan their_jid)) ->
   exists output w1,
     GetAllContacts s w = ((output, None), w1) /\
     committed w1 = committed w /\
     (forall their_jid row jid,
        whatsmeow_contacts (committed w) !! (JID s, their_jid) = Some row ->
        JID_Scan their_jid = Some jid -> is_Some (output !! jid)) /\
     (forall jid info, output !! jid = Some info ->
        Found info = true /\
        contactCache w1 !! jid = Some info /\
        exists their_jid row,
          whatsmeow_contacts (committed w) !! (JID s, their_jid) = Some row /\
          JID_Scan their_jid = Some jid /\ info = contact_info (Some row))) /\
  ((exists their_jid row,
      whatsmeow_contacts (committed w) !! (JID s, their_jid) = Some row /\
      JID_Scan their_jid = None) ->
   exists w1,
     GetAllContacts s w = ((∅, Some (Errorf_w "error scanning row" scan_jid_error)), w1) /\
     committed w1 = committed w).
Proof.
  intros Hf. unfold GetAllContacts, bind. rewrite Query_healthy by exact Hf. split.
  - intros Hscan.
    destruct (scanContacts_scanned (SQL.getAllContactsQuery (JID s) (committed w)) ∅ w)
      as (output & w1 & Hrun & Hcm & Hent).
    { apply Forall_forall. intros [their row] Hin.
      apply elem_of_getAllContactsQuery in Hin. eapply Hscan. exact Hin. }
    exists output, w1. split; [exact Hrun|]. split; [exact Hcm|]. split.
    + intros their row jid Hrow Hj. specialize (Hent jid).
      destruct (decide _) as [_|Hn].
      * destruct Hent as (r & _ & _ & Ho & _). eauto.
      * exfalso. apply Hn. apply Exists_exists. exists (their, row).
        split; [apply elem_of_getAllContactsQuery; exact Hrow|exact Hj].
    + intros jid info Ho. specialize (Hent jid).
      destruct (decide _) as [_|_].
      * destruct Hent as ([their row] & Hr & Hj & Ho' & Hc). simpl in *.
        rewrite Ho in Ho'. injection Ho' as ->.
        split; [reflexivity|]. split; [exact Hc|].
        exists their, row. apply elem_of_getAllContactsQuery in Hr. auto.
      * destruct Hent as [Ho' _]. rewrite Ho, lookup_empty in Ho'. discriminate.
  - intros (their & row & Hrow & Hj).
    apply scanContacts_unscanned. apply Exists_exists. exists (their, row).
    split; [apply elem_of_getAllContactsQuery; exact Hrow|exact Hj].
Qed.

End AllContacts.

(** ** Identities and message secrets *)

Section Identities.
Context {types_JID : Type} `{JIDType types_JID}.
Implicit Types (w : World types_JID) (s : SQLStore).







End Identities.

Section Secrets.
Context {types_JID : Type} `{JIDType types_JID}.
Implicit Types (w : World types_JID) (s : SQLStore).

(** X21. [PutMessageSecret] retries on MySQL only, and only a lock wait
    timeout.  On any other dialect, and on MySQL for an error that does not
    mention [Lock wait timeout exceeded], the one failed attempt is returned
    with no sleep.  On MySQL a lock wait timeout is followed by a sleep of 50
    ms times the number of the attempt and by another attempt, three attempts
    at most; after three lock wait timeouts the call has slept 50, 100 and
    150 ms and returns the third error.  A failed attempt never writes. *)
Theorem PutMessageSecret_retries s chat sender id secret w :
  (forall msg rest,
     faults w = Some msg :: rest ->
     String.eqb (dialect s) "mysql" = false \/ Contains msg lockWaitTimeout = false ->
     PutMessageSecret s chat sender id secret w
     = (Some (DriverError msg), set_faults rest w)) /\
  (forall m1 rest,
     String.eqb (dialect s) "mysql" = true ->
     faults w = Some m1 :: None :: rest ->
     Contains m1 lockWaitTimeout = true ->
     exists w',
       PutMessageSecret s chat sender id secret w = (None, w') /\
       slept w' = (slept w ++ [50%Z])%list /\ faults w' = rest /\
       SQL.putMsgSecretMySQL (JID s) (JID_String (ToNonAD chat))
         (JID_String (ToNonAD sender)) id secret (committed w) = inr (committed w')) /\
  (forall m1 m2 m3 rest,
     String.eqb (dialect s) "mysql" = true ->
     faults w = Some m1 :: Some m2 :: Some m3 :: rest ->
     Contains m1 lockWaitTimeout = true ->
     Contains m2 lockWaitTimeout = true ->
     Contains m3 lockWaitTimeout = true ->
     exists w',
       PutMessageSecret s chat sender id secret w = (Some (DriverError m3), w') /\
       slept w' = (slept w ++ [50; 100; 150]%Z)%list /\ faults w' = rest /\
       committed w' = committed w).
Proof.
  split; [|split].
  - intros msg rest Hf Hcase. unfold PutMessageSecret.
    destruct (String.eqb (dialect s) "mysql") eqn:Hd.
    + destruct Hcase as [Hcase|Hcase]; [discriminate|].
      cbn [put_secret_loop]. unfold bind.
      rewrite (Exec_failed _ _ msg rest) by exact Hf.
      cbn [Error]. rewrite Hcase. reflexivity.
    + apply Exec_failed. exact Hf.
  - intros m1 rest Hd Hf Hlock. unfold PutMessageSecret. rewrite Hd.
    cbn [put_secret_loop]. unfold bind.
    rewrite (Exec_failed _ _ m1 (None :: rest)) by exact Hf.
    cbn [Error]. rewrite Hlock. cbn [negb Sleep].
    rewrite (Exec_DB_answered _ rest) by reflexivity.
    unfold SQL.putMsgSecretMySQL, SQL.insertIfAbsent.
    cbn [committed set_slept set_faults].
    destruct (whatsmeow_message_secrets (committed w) !! _);
      (eexists; split; [reflexivity|]; split; [reflexivity|]; split; reflexivity).
  - intros m1 m2 m3 rest Hd Hf H1 H2 H3. unfold PutMessageSecret. rewrite Hd.
    cbn [put_secret_loop]. unfold bind.
    rewrite (Exec_failed _ _ m1 (Some m2 :: Some m3 :: rest)) by exact Hf.
    cbn [Error]. rewrite H1. cbn [negb Sleep].
    rewrite (Exec_failed _ _ m2 (Some m3 :: rest)) by reflexivity.
    cbn [Error]. rewrite H2. cbn [negb Sleep].
    rewrite (Exec_failed _ _ m3 rest) by reflexivity.
    cbn [Error]. rewrite H3. cbn [negb Sleep ret].
    eexists. split; [reflexivity|]. split; [|split; reflexivity].
    cbn [slept set_slept set_faults]. rewrite <- !app_assoc. reflexivity.
Qed.

Lemma secret_inserts_healthy s
  (query : string -> string -> string -> string -> bytes -> statement) inserts w t :
  (query = SQL.putMsgSecret \/ query = SQL.putMsgSecretMySQL) ->
  faults w = [] -> open_tx w = Some t ->
  exists w1 t1,
    for_each inserts (fun insert =>
      err <- Exec sql_Tx (query (JID s) (JID_String (ToNonAD (Chat insert)))
                            (JID_String (ToNonAD (Sender insert)))
                            (ID insert) (Secret insert)) ;;
      match err with
      | Some e =>
          _ <- Rollback ;;
          ret (Some (Errorf_w "failed to insert message secret" e))
      | None => ret None
      end) w = (None, w1) /\
    faults w1 = [] /\ open_tx w1 = Some t1 /\ committed w1 = committed w /\
    slept w1 = slept w.
Proof.
  intros Hq. revert w t. induction inserts as [|i inserts IH]; intros w t Hf Ho.
  - exists w, t. split; [reflexivity|]. auto.
  - cbn [for_each]. unfold bind at 1. unfold bind at 1.
    unfold Exec, bind, next_fault. rewrite Hf. cbn [open_tx]. rewrite Ho.
    assert (Hst : exists t', query (JID s) (JID_String (ToNonAD (Chat i)))
                               (JID_String (ToNonAD (Sender i))) (ID i) (Secret i) t
                             = inr t').
    { destruct Hq as [-> | ->]; unfold SQL.putMsgSecret, SQL.putMsgSecretMySQL,
        SQL.insertIfAbsent; destruct (whatsmeow_message_secrets t !! _); eauto. }
    destruct Hst as [t' ->]. cbn [ret].
    destruct (IH (set_open_tx (Some t') w) t') as (w1 & t1 & Hrun & Hf1 & Ho1 & Hc1 & Hs1);
      [exact Hf|reflexivity|].
    exists w1, t1. split; [exact Hrun|]. auto.
Qed.

Lemma Begin_healthy w :
  faults w = [] -> Begin w = (None, set_open_tx (Some (committed w)) w).
Proof. intros Hf. unfold Begin, bind, next_fault. rewrite Hf. reflexivity. Qed.

Lemma Commit_healthy w t :
  faults w = [] -> open_tx w = Some t ->
  Commit w = (None, set_open_tx None (set_committed t w)).
Proof. intros Hf Ho. unfold Commit, bind, next_fault. rewrite Hf. simpl. rewrite Ho. reflexivity. Qed.

Lemma putMessageSecretsInternal_healthy s inserts w :
  faults w = [] ->
  exists w1,
    putMessageSecretsInternal s inserts w = (None, w1) /\
    faults w1 = [] /\ slept w1 = slept w.
Proof.
  intros Hf. unfold putMessageSecretsInternal. unfold bind at 1.
  rewrite Begin_healthy by exact Hf.
  destruct (secret_inserts_healthy s
              (if String.eqb (dialect s) "mysql" then SQL.putMsgSecretMySQL
               else SQL.putMsgSecret)
              inserts (set_open_tx (Some (committed w)) w) (committed w))
    as (w1 & t1 & Hrun & Hf1 & Ho1 & Hc1 & Hs1);
    [destruct (String.eqb (dialect s) "mysql"); auto|exact Hf|reflexivity|].
  unfold bind at 1. rewrite Hrun. unfold bind at 1.
  rewrite (Commit_healthy w1 t1) by assumption.
  eexists. split; [reflexivity|]. split; [exact Hf1|exact Hs1].
Qed.

Lemma putMessageSecretsWithRetry_healthy s inserts w :
  faults w = [] ->
  exists w1,
    putMessageSecretsWithRetry s inserts w = (None, w1) /\
    faults w1 = [] /\ slept w1 = slept w.
Proof.
  intros Hf. unfold putMessageSecretsWithRetry. cbn [retry_loop]. unfold bind.
  destruct (putMessageSecretsInternal_healthy s inserts w Hf) as (w1 & -> & Hf1 & Hs1).
  exists w1. auto.
Qed.

Lemma secret_batches_healthy s (bs : list (list MessageSecretInsert)) w :
  faults w = [] ->
  exists w1,
    for_each bs (fun batch => putMessageSecretsWithRetry s batch) w = (None, w1) /\
    faults w1 = [] /\ slept w1 = slept w.
Proof.
  revert w. induction bs as [|b bs IH]; intros w Hf.
  - exists w. auto.
  - cbn [for_each]. unfold bind.
    destruct (putMessageSecretsWithRetry_healthy s b w Hf) as (w1 & -> & Hf1 & Hs1).
    destruct (IH w1 Hf1) as (w2 & Hrun & Hf2 & Hs2).
    exists w2. split; [exact Hrun|]. split; [exact Hf2|congruence].
Qed.

Lemma lookup_write_secrets_other s inserts d k :
  (forall i, i ∈ inserts -> secret_key s (Chat i) (Sender i) (ID i) <> k) ->
  whatsmeow_message_secrets (write_secrets s inserts d) !! k
  = whatsmeow_message_secrets d !! k.
Proof.
  unfold write_secrets. revert d.
  induction inserts as [|i inserts IH]; intros d Hk; [reflexivity|].
  simpl. rewrite IH by (intros j Hj; apply Hk; right; exact Hj).
  unfold write_secret.
  destruct (whatsmeow_message_secrets d !! secret_key s (Chat i) (Sender i) (ID i));
    [reflexivity|].
  simpl. apply lookup_insert_ne. apply Hk. left.
Qed.

(** The first secret written for a key stays. *)
Lemma lookup_write_secrets_stored s inserts d k secret :
  whatsmeow_message_secrets d !! k = Some secret ->
  whatsmeow_message_secrets (write_secrets s inserts d) !! k = Some secret.
Proof.
  unfold write_secrets. revert d.
  induction inserts as [|i inserts IH]; intros d Hk; [exact Hk|].
  simpl. apply IH. unfold write_secret.
  destruct (whatsmeow_message_secrets d !! secret_key s (Chat i) (Sender i) (ID i)) eqn:Hi;
    [exact Hk|].
  simpl. rewrite lookup_insert_ne; [exact Hk|]. intros Heq. congruence.
Qed.

(** X22. After [PutMessageSecrets] on a healthy back-end, for a list of any
    length, in one batch or in batches of 50, every message of the list has
    a secret: the one stored before the call if there was one, and otherwise
    the secret of the first entry of the list for that message.  No sleep is
    made. *)
Theorem PutMessageSecrets_GetMessageSecret s inserts w :
  faults w = [] ->
  exists w1,
    PutMessageSecrets s inserts w = (None, w1) /\
    slept w1 = slept w /\
    forall pre i post,
      inserts = (pre ++ i :: post)%list ->
      (forall j, j ∈ pre ->
         secret_key s (Chat j) (Sender j) (ID j) <> secret_key s (Chat i) (Sender i) (ID i)) ->
      GetMessageSecret s (Chat i) (Sender i) (ID i) w1
      = ((default (Secret i)
            (whatsmeow_message_secrets (committed w)
               !! secret_key s (Chat i) (Sender i) (ID i)), None), w1).
Proof.
  intros Hf.
  assert (Hrun : exists w1,
             PutMessageSecrets s inserts w = (None, w1) /\
             faults w1 = [] /\ slept w1 = slept w /\
             committed w1 = write_secrets s inserts (committed w)).
  { destruct (Nat.ltb_spec msgSecretBatchSize (length inserts)) as [Hlong|Hshort].
    - pose proof (PutMessageSecrets_outcome s inserts w Hlong) as Hout.
      unfold PutMessageSecrets in *.
      replace (msgSecretBatchSize <? length inserts)%nat with true in *
        by (symmetry; apply Nat.ltb_lt; exact Hlong).
      rewrite for_batches_trace in *.
      destruct (secret_batches_healthy s
                  (batches_from (length inserts) msgSecretBatchSize 0 inserts) w Hf)
        as (w1 & Hrun & Hf1 & Hs1).
      rewrite Hrun in Hout. exists w1. auto.
    - pose proof (putMessageSecretsWithRetry_outcome s inserts w) as Hout.
      unfold PutMessageSecrets.
      replace (msgSecretBatchSize <? length inserts)%nat with false
        by (symmetry; apply Nat.ltb_ge; exact Hshort).
      destruct (putMessageSecretsWithRetry_healthy s inserts w Hf) as (w1 & Hrun & Hf1 & Hs1).
      rewrite Hrun in Hout. exists w1. auto. }
  destruct Hrun as (w1 & Hrun & Hf1 & Hs1 & Hc1).
  exists w1. split; [exact Hrun|]. split; [exact Hs1|].
  intros pre i post -> Hfirst.
  rewrite GetMessageSecret_healthy by exact Hf1. rewrite Hc1.
  rewrite write_secrets_app. unfold write_secrets at 1. cbn [foldl].
  fold (write_secrets s post (write_secret s (write_secrets s pre (committed w)) i)).
  f_equal. f_equal.
  set (k := secret_key s (Chat i) (Sender i) (ID i)) in *.
  assert (Hpre : whatsmeow_message_secrets (write_secrets s pre (committed w)) !! k
                 = whatsmeow_message_secrets (committed w) !! k)
    by (apply lookup_write_secrets_other; exact Hfirst).
  destruct (whatsmeow_message_secrets (committed w) !! k) as [old|] eqn:Hold.
  - rewrite (lookup_write_secrets_stored s post _ k old); [reflexivity|].
    unfold write_secret. fold k. rewrite Hpre. exact Hpre.
  - rewrite (lookup_write_secrets_stored s post _ k (Secret i)); [reflexivity|].
    unfold write_secret. fold k. rewrite Hpre. simpl. apply lookup_insert_eq.
Qed.

End Secrets.

(** ** Chat settings read back *)

Section ChatSettings.
Context {types_JID : Type} `{JIDType types_JID}.
Implicit Types (w : World types_JID) (s : SQLStore).

(** X25. With a healthy back-end, [GetChatSettings] of a chat that has no row
    reports nothing found, the zero time and two false flags, with no error.
    After [PutMutedUntil], [PutPinned] and [PutArchived] on a chat it reports
    the row found with the two flags as written and the mute time cut to
    whole seconds; a mute time that is the zero time or falls on second 0 of
    the Unix epoch is read back as the zero time.  After [PutPinned] alone on
    a chat without a row, the row is found with the zero mute time and not
    archived. *)
Theorem GetChatSettings_round_trip s chat mutedUntil pinned archived w :
  faults w = [] ->
  let key := (JID s, JID_String chat) in
  (whatsmeow_chat_settings (committed w) !! key = None ->
   GetChatSettings s chat w = ((no_settings, None), w)) /\
  (exists w1 w2 w3,
     PutMutedUntil s chat mutedUntil w = (None, w1) /\
     PutPinned s chat pinned w1 = (None, w2) /\
     PutArchived s chat archived w2 = (None, w3) /\
     GetChatSettings s chat w3
     = (({| settings_Found := true;
            MutedUntil := if IsZero mutedUntil || (Unix mutedUntil =? 0)%Z
                          then None else Some (Unix mutedUntil);
            Pinned := pinned; Archived := archived |}, None), w3)) /\
  (whatsmeow_chat_settings (committed w) !! key = None ->
   exists w1,
     PutPinned s chat pinned w = (None, w1) /\
     GetChatSettings s chat w1
     = (({| settings_Found := true; MutedUntil := None;
            Pinned := pinned; Archived := false |}, None), w1)).
Proof.
  intros Hf key.
  assert (Hget : forall w' row,
            faults w' = [] ->
            whatsmeow_chat_settings (committed w') !! key = Some row ->
            GetChatSettings s chat w'
            = (({| settings_Found := true;
                   MutedUntil := if negb (cs_muted_until row =? 0)%Z
                                 then Some (cs_muted_until row) else None;
                   Pinned := cs_pinned row; Archived := cs_archived row |}, None), w')).
  { intros w' row Hf' Hrow. unfold GetChatSettings, bind.
    rewrite QueryRow_healthy by exact Hf'.
    unfold SQL.getChatSettingsQuery. fold key. rewrite Hrow. reflexivity. }
  split; [|split].
  - intros Hnone. unfold GetChatSettings, bind.
    rewrite QueryRow_healthy by exact Hf.
    unfold SQL.getChatSettingsQuery. fold key. rewrite Hnone. reflexivity.
  - rewrite PutMutedUntil_healthy, Exec_DB_healthy by exact Hf.
    cbn [SQL.upsertChatSetting SQL.set_chat_setting String.eqb Ascii.eqb Bool.eqb].
    eexists. eexists. eexists. split; [reflexivity|].
    rewrite PutPinned_healthy, Exec_DB_healthy by exact Hf.
    split; [reflexivity|].
    rewrite PutArchived_healthy, Exec_DB_healthy by exact Hf.
    split; [reflexivity|].
    erewrite Hget; [|exact Hf|].
    2:{ cbn. rewrite lookup_insert_eq. reflexivity. }
    cbn. rewrite !lookup_insert_eq. cbn.
    destruct (IsZero mutedUntil); cbn; [reflexivity|].
    unfold Unix. destruct (unix mutedUntil =? 0)%Z; reflexivity.
  - intros Hnone.
    rewrite PutPinned_healthy, Exec_DB_healthy by exact Hf.
    eexists. split; [reflexivity|].
    erewrite Hget; [|exact Hf|].
    2:{ cbn. rewrite lookup_insert_eq. reflexivity. }
    cbn. fold key. rewrite Hnone. reflexivity.
Qed.

End ChatSettings.

(** ** Further sample runs *)

Section MoreSampleRuns.
Import SampleJID.

Lemma Scan_samples :
  Scan "ann@s.whatsapp.net" = Some (user "ann") /\
  Scan "111:1@s.whatsapp.net" = Some {| User := "111"; Device := 1; Server := "s.whatsapp.net" |} /\
  Scan "nobody" = None.
Proof. repeat split; reflexivity. Qed.

Lemma pre_key_rows_two_pre_keys id row :
  whatsmeow_pre_keys two_pre_keys !! (JID (store "sqlite3"), id) = Some row ->
  (id = 1 \/ id = 2)%Z /\ length (pk_key row) = 32%nat.
Proof.
  intros Hrow. cbn [two_pre_keys SQL.with_pre_keys whatsmeow_pre_keys store JID] in Hrow.
  destruct (decide (id = 1%Z)) as [->|H1].
  - rewrite lookup_insert_eq in Hrow. injection Hrow as <-. split; [left|]; reflexivity.
  - rewrite lookup_insert_ne in Hrow by congruence.
    destruct (decide (id = 2%Z)) as [->|H2].
    + rewrite lookup_insert_eq in Hrow. injection Hrow as <-. split; [right|]; reflexivity.
    + rewrite lookup_insert_ne in Hrow by congruence. rewrite lookup_empty in Hrow.
      discriminate.
Qed.


Lemma GetOrGenPreKeys_existing_witness :
  exists keys,
    GetOrGenPreKeys (store "mysql") 1 (fun i => replicate 32 x07) (on two_pre_keys [])
    = ((keys, None), on two_pre_keys []) /\
    length keys = 1%nat.
Proof.
  destruct (GetOrGenPreKeys_existing (store "mysql") 1 (fun i => replicate 32 x07)
              (on two_pre_keys [])) as (keys & Hrun & Hlen & _).
  - reflexivity.
  - intros id row Hrow. apply pre_key_rows_two_pre_keys in Hrow as [[-> | ->] Hlen];
      (split; [lia|exact Hlen]).
  - vm_compute. lia.
  - exists keys. split; [exact Hrun|exact Hlen].
Defined.


Lemma RemovePreKey_GetPreKey_witness :
  exists w1,
    RemovePreKey (store "sqlite3") 2 (on two_pre_keys []) = (None, w1) /\
    GetPreKey (store "sqlite3") 2 w1 = ((None, None), w1) /\
    whatsmeow_pre_keys (committed w1) !! ("111:1@s.whatsapp.net", 1%Z)
    = Some {| pk_key := replicate 32 x01; pk_uploaded := true |}.
Proof.
  destruct (RemovePreKey_GetPreKey (store "sqlite3") 2 (on two_pre_keys []) eq_refl)
    as (w1 & Hrun & Hget & Hother).
  exists w1. split; [exact Hrun|]. split; [exact Hget|].
  rewrite Hother by discriminate. reflexivity.
Defined.


Lemma PutAppStateSyncKey_GetAppStateSyncKey_witness :
  GetAppStateSyncKey (store "mysql") [xab] fresh = ((None, None), fresh) /\
  exists w1,
    PutAppStateSyncKey (store "mysql") [xab] fresher fresh = (None, w1) /\
    GetAppStateSyncKey (store "mysql") [xab] w1 = ((Some fresher, None), w1).
Proof.
  destruct (PutAppStateSyncKey_GetAppStateSyncKey (store "mysql") [xab] fresher fresh eq_refl)
    as [Hmissing Hput].
  split; [apply Hmissing; reflexivity|].
  apply Hput. intros row Hrow. discriminate.
Defined.

Lemma sync_key_rows_two_sync_keys id row :
  whatsmeow_app_state_sync_keys two_sync_keys !! (JID (store "postgres"), id) = Some row ->
  (sk_timestamp row <= 100)%Z.
Proof.
  intros Hrow.
  cbn [two_sync_keys SQL.with_app_state_sync_keys whatsmeow_app_state_sync_keys store JID]
    in Hrow.
  destruct (decide (id = [xab])) as [->|H1].
  - rewrite lookup_insert_eq in Hrow. injection Hrow as <-. simpl. lia.
  - rewrite lookup_insert_ne in Hrow by congruence.
    destruct (decide (id = [xcd])) as [->|H2].
    + rewrite lookup_insert_eq in Hrow. injection Hrow as <-. simpl. lia.
    + rewrite lookup_insert_ne in Hrow by congruence. rewrite lookup_empty in Hrow.
      discriminate.
Qed.

Lemma GetLatestAppStateSyncKeyID_latest_witness :
  exists latest,
    GetLatestAppStateSyncKeyID (store "postgres") (on two_sync_keys [])
    = ((latest, None), on two_sync_keys []).
Proof.
  destruct (GetLatestAppStateSyncKeyID_latest (store "postgres") (on two_sync_keys []) eq_refl)
    as (latest & Hrun & _).
  exists latest. exact Hrun.
Defined.

Lemma PutAppStateSyncKey_GetLatestAppStateSyncKeyID_witness :
  exists w1,
    PutAppStateSyncKey (store "postgres") [xef]
      {| Data := [xd3]; Fingerprint := [xf3]; Timestamp := 200 |} (on two_sync_keys [])
    = (None, w1) /\
    GetLatestAppStateSyncKeyID (store "postgres") w1 = ((Some [xef], None), w1).
Proof.
  apply (PutAppStateSyncKey_GetLatestAppStateSyncKeyID (store "postgres") [xef]
           {| Data := [xd3]; Fingerprint := [xf3]; Timestamp := 200 |} (on two_sync_keys [])).
  - reflexivity.
  - intros id' row' Hrow. apply sync_key_rows_two_sync_keys in Hrow. simpl. lia.
Defined.


Lemma references_hold_one_version : references_hold one_version.
Proof.
  intros jid name version index_mac value_mac Hmac.
  cbn [one_version SQL.with_app_state_mutation_macs SQL.with_app_state_version
         whatsmeow_app_state_mutation_macs whatsmeow_app_state_version] in *.
  destruct (decide ((jid, name, version, index_mac)
                    = ("111:1@s.whatsapp.net", "regular", 3%Z, replicate 32 x01)))
    as [[= -> -> -> ->]|Hne].
  - rewrite lookup_insert_eq. eauto.
  - rewrite lookup_insert_ne in Hmac by congruence. rewrite lookup_empty in Hmac.
    discriminate.
Qed.

Lemma DeleteAppStateVersion_resets_witness :
  exists w1,
    DeleteAppStateVersion (store "sqlite3") "regular" (on one_version []) = (None, w1) /\
    GetAppStateVersion (store "sqlite3") "regular" w1 = ((0%Z, zero_hash, None), w1) /\
    GetAppStateMutationMAC (store "sqlite3") "regular" (replicate 32 x01) w1
    = (([], None), w1).
Proof.
  destruct (DeleteAppStateVersion_resets (store "sqlite3") "regular" (on one_version [])
              eq_refl references_hold_one_version) as (w1 & Hrun & Hget & Hmacs & _).
  exists w1. split; [exact Hrun|]. split; [exact Hget|apply Hmacs].
Defined.


Lemma DeleteAppStateMutationMACs_GetAppStateMutationMAC_witness :
  DeleteAppStateMutationMACs (store "postgres") false "regular" []
    (on one_version [Some "connection refused"])
  = (None, on one_version [Some "connection refused"]) /\
  exists w1,
    DeleteAppStateMutationMACs (store "postgres") false "regular" [replicate 32 x01]
      (on one_version []) = (None, w1) /\
    GetAppStateMutationMAC (store "postgres") "regular" (replicate 32 x01) w1
    = (([], None), w1).
Proof.
  destruct (DeleteAppStateMutationMACs_GetAppStateMutationMAC (store "postgres") false
              "regular" [replicate 32 x01] (on one_version [])) as [Hempty Hrun].
  split; [apply Hempty|].
  destruct (Hrun eq_refl) as (w1 & Hdel & Hgone & _).
  exists w1. split; [exact Hdel|]. apply Hgone. left.
Defined.

Lemma PutAppStateMutationMACs_other_dialects_witness :
  exists e w',
    PutAppStateMutationMACs (store "postgres") "regular" 7 [mac x01] fresh = (Some e, w') /\
    committed w' = committed fresh.
Proof.
  apply (PutAppStateMutationMACs_other_dialects (store "postgres") "regular" 7 [mac x01] fresh);
    [reflexivity|reflexivity|discriminate].
Defined.

Lemma PutAppStateMutationMACs_mysql_partial_witness :
  exists w',
    PutAppStateMutationMACs (store "mysql") "regular" 7 [mac x01; mac x02]
      (on empty_DB [None; Some "Deadlock found"])
    = (Some (DriverError "Deadlock found"), w') /\
    whatsmeow_app_state_mutation_macs (committed w')
      !! ("111:1@s.whatsapp.net", "regular", 7%Z, replicate 32 x01)
    = Some (replicate 32 x01).
Proof.
  destruct (PutAppStateMutationMACs_mysql_partial (store "mysql") "regular" 7
              [mac x01] (mac x02) [] "Deadlock found" []
              (on empty_DB [None; Some "Deadlock found"])) as (w' & Hrun & Hc & _).
  - reflexivity.
  - vm_compute. lia.
  - reflexivity.
  - apply (bool_decide_unpack _). vm_compute. reflexivity.
  - intros m' _. reflexivity.
  - exists w'. split; [exact Hrun|]. rewrite Hc. reflexivity.
Defined.

Lemma cache_coherent_empty s d f : cache_coherent s (on d f).
Proof. intros u i Hu. cbn [on contactCache] in Hu. rewrite lookup_empty in Hu. discriminate. Qed.

Lemma contact_cache_coherent_witness :
  cache_coherent (store "sqlite3")
    (PutPushName (store "sqlite3") (user "ann") "Ann"
       (on one_contact [Some "database is locked"])).2 /\
  cache_coherent (store "sqlite3")
    (PutContactName (store "sqlite3") (user "ann") "Ann" "Ann Lee" (on one_contact [])).2.
Proof.
  destruct (contact_cache_coherent (store "sqlite3") (user "ann") "Ann" "Ann" "Ann" "Ann Lee"
              (on one_contact [Some "database is locked"])) as (_ & Hpush & _ & _).
  - apply cache_coherent_empty.
  - intros u [i Hu]. cbn [on contactCache] in Hu. rewrite lookup_empty in Hu. discriminate.
  - destruct (contact_cache_coherent (store "sqlite3") (user "ann") "Ann" "Ann" "Ann" "Ann Lee"
                (on one_contact [])) as (_ & _ & _ & Hname).
    + apply cache_coherent_empty.
    + intros u [i Hu]. cbn [on contactCache] in Hu. rewrite lookup_empty in Hu. discriminate.
    + split; [exact Hpush|exact Hname].
Defined.

Lemma PutPushName_PutBusinessName_report_witness :
  (exists w1,
     PutPushName (store "mysql") (user "ann") "Ann" (on one_contact [])
     = ((true, "Annie", None), w1)) /\
  (exists w1,
     PutPushName (store "mysql") (user "ann") "Annie" (on one_contact [])
     = ((false, "", None), w1)) /\
  (exists w1,
     PutBusinessName (store "mysql") (user "ann") "Ann Ltd" (on one_contact [])
     = ((true, "", None), w1)).
Proof.
  destruct (PutPushName_PutBusinessName_report (store "mysql") (user "ann") "Ann"
              (on one_contact []) eq_refl (cache_coherent_empty _ _ _))
    as [(w1 & after & Hpush & _) _].
  destruct (PutPushName_PutBusinessName_report (store "mysql") (user "ann") "Annie"
              (on one_contact []) eq_refl (cache_coherent_empty _ _ _))
    as [(w2 & after2 & Hsame & _) _].
  destruct (PutPushName_PutBusinessName_report (store "mysql") (user "ann") "Ann Ltd"
              (on one_contact []) eq_refl (cache_coherent_empty _ _ _))
    as [_ (w3 & after3 & Hbusiness & _)].
  split; [exists w1; exact Hpush|]. split; [exists w2; exact Hsame|exists w3; exact Hbusiness].
Defined.

Lemma PutContactName_GetContact_witness :
  exists w1,
    PutContactName (store "postgres") (user "ann") "Ann" "Ann Lee" (on one_contact [])
    = (None, w1) /\
    GetContact (store "postgres") (user "ann") w1
    = (({| Found := true; FirstName := "Ann"; FullName := "Ann Lee"; PushName := "Annie";
           BusinessName := "" |}, None), w1).
Proof.
  destruct (PutContactName_GetContact (store "postgres") (user "ann") "Ann" "Ann Lee"
              (on one_contact []) eq_refl (cache_coherent_empty _ _ _))
    as (w1 & Hput & Hget & _).
  exists w1. split; [exact Hput|exact Hget].
Defined.

Lemma PutAllContactNames_refused_witness :
  exists e w',
    PutAllContactNames (store "sqlite3") [entry "ann"; entry "bob"] (on one_contact [])
    = (Some e, w') /\
    committed w' = one_contact.
Proof.
  destruct (PutAllContactNames_refused (store "sqlite3") [entry "ann"; entry "bob"]
              (on one_contact [])) as (e & w' & Hrun & Hc & _).
  - vm_compute. lia.
  - right. split; [reflexivity|]. vm_compute. lia.
  - exists e, w'. split; [exact Hrun|exact Hc].
Defined.

Lemma PutAllContactNames_GetContact_witness :
  exists w1,
    PutAllContactNames (store "postgres") [entry "ann"; entry "bob"] (on one_contact [])
    = (None, w1) /\
    (GetContact (store "postgres") (user "ann") w1).1
    = ({| Found := true; FirstName := "ann"; FullName := "ann"; PushName := "Annie";
          BusinessName := "" |}, None).
Proof.
  destruct (PutAllContactNames_GetContact (store "postgres") [entry "ann"; entry "bob"]
              (on one_contact [])) as (w1 & Hrun & _ & Hget).
  - reflexivity.
  - vm_compute. lia.
  - left. reflexivity.
  - repeat constructor.
  - apply (bool_decide_unpack _). vm_compute. reflexivity.
  - exists w1. split; [exact Hrun|]. apply (Hget (entry "ann")). left.
Defined.

Lemma GetAllContacts_output_witness :
  exists output w1,
    GetAllContacts (store "sqlite3") (on one_contact []) = ((output, None), w1) /\
    is_Some (output !! user "ann").
Proof.
  destruct (GetAllContacts_output (store "sqlite3") (on one_contact []) eq_refl) as [Hall _].
  destruct Hall as (output & w1 & Hrun & _ & Hevery & _).
  - intros their_jid row Hrow.
    cbn [on committed one_contact SQL.with_contacts whatsmeow_contacts store JID] in Hrow.
    destruct (decide (their_jid = "ann@s.whatsapp.net")) as [->|Hne].
    + eexists. reflexivity.
    + rewrite lookup_insert_ne in Hrow by congruence. rewrite lookup_empty in Hrow.
      discriminate.
  - exists output, w1. split; [exact Hrun|].
    apply (Hevery "ann@s.whatsapp.net"
             {| ct_first_name := None; ct_full_name := None;
                ct_push_name := Some "Annie"; ct_business_name := None |});
      reflexivity.
Defined.

Lemma PutMessageSecret_retries_witness :
  PutMessageSecret (store "postgres") (user "chat") (user "sender") "3EB0" [x01]
    (on empty_DB [Some "Lock wait timeout exceeded"])
  = (Some (DriverError "Lock wait timeout exceeded"),
     set_faults [] (on empty_DB [Some "Lock wait timeout exceeded"])) /\
  exists w',
    PutMessageSecret (store "mysql") (user "chat") (user "sender") "3EB0" [x01]
      (on empty_DB (replicate 3 (Some "Error 1205: Lock wait timeout exceeded")))
    = (Some (DriverError "Error 1205: Lock wait timeout exceeded"), w') /\
    slept w' = [50; 100; 150]%Z.
Proof.
  destruct (PutMessageSecret_retries (store "postgres") (user "chat") (user "sender") "3EB0"
              [x01] (on empty_DB [Some "Lock wait timeout exceeded"])) as (Hone & _ & _).
  destruct (PutMessageSecret_retries (store "mysql") (user "chat") (user "sender") "3EB0"
              [x01] (on empty_DB (replicate 3 (Some "Error 1205: Lock wait timeout exceeded"))))
    as (_ & _ & Hthree).
  split.
  - apply Hone; [reflexivity|left; reflexivity].
  - destruct (Hthree "Error 1205: Lock wait timeout exceeded"
                "Error 1205: Lock wait timeout exceeded"
                "Error 1205: Lock wait timeout exceeded" [])
      as (w' & Hrun & Hslept & _); try reflexivity.
    exists w'. split; [exact Hrun|exact Hslept].
Defined.

Lemma PutMessageSecrets_GetMessageSecret_witness :
  exists w1,
    PutMessageSecrets (store "sqlite3") fifty_one_secrets fresh = (None, w1) /\
    GetMessageSecret (store "sqlite3") (user "chat") (user "sender") "0" w1
    = (([x01], None), w1).
Proof.
  destruct (PutMessageSecrets_GetMessageSecret (store "sqlite3") fifty_one_secrets fresh
              eq_refl) as (w1 & Hrun & _ & Hget).
  exists w1. split; [exact Hrun|].
  apply (Hget [] (secret_no 0) (map secret_no (seq 1 50))); [reflexivity|].
  intros j Hj. exfalso. exact (not_elem_of_nil j Hj).
Defined.



Lemma GetChatSettings_round_trip_witness :
  GetChatSettings (store "postgres") (user "chat") fresh = ((no_settings, None), fresh) /\
  exists w1 w2 w3,
    PutMutedUntil (store "postgres") (user "chat") {| unix := 0; nanosecond := 500 |} fresh
    = (None, w1) /\
    PutPinned (store "postgres") (user "chat") true w1 = (None, w2) /\
    PutArchived (store "postgres") (user "chat") false w2 = (None, w3) /\
    GetChatSettings (store "postgres") (user "chat") w3
    = (({| settings_Found := true; MutedUntil := None;
           Pinned := true; Archived := false |}, None), w3).
Proof.
  destruct (GetChatSettings_round_trip (store "postgres") (user "chat")
              {| unix := 0; nanosecond := 500 |} true false fresh eq_refl)
    as (Hnone & Hround & _).
  split; [apply Hnone; reflexivity|exact Hround].
Defined.

End MoreSampleRuns.

(** ** The schema upgrades *)

Section Upgrading.
Import Migration.
Local Open Scope list_scope.
Local Open Scope upgrade_scope.
Implicit Types (w : Server) (c : Container) (t d : Schema).

(** With a healthy back-end every migration takes all its statements. *)
Lemma migration_healthy c w t migrateFunc :
  migrateFunc ∈ Upgrades ->
  faults w = [] -> open_tx w = Some t ->
  migrateFunc c w
  = (None, set_open_tx (Some (log t (statements_of c (contacts_first w) migrateFunc))) w).
Proof.
  intros Hin Hf Ht. destruct w as [c0 o f fk cf]. simpl in Hf, Ht. subst f o.
  destruct t as [tv tl].
  unfold log, set_open_tx, statements_of. cbn [committed open_tx faults foreign_keys contacts_first].
  unfold Upgrades in Hin.
  repeat (apply elem_of_cons in Hin as [->|Hin]); [..|inversion Hin].
  - unfold upgradeV1, upgradeV1MySQL.
    destruct (String.eqb (dialect c) "mysql"); lazy -[app];
      rewrite ?app_nil_r, <- ?app_assoc; reflexivity.
  - unfold upgradeV2.
    destruct (String.eqb (dialect c) "mysql"),
             (Contains (dialect c) "postgres"), (String.eqb (dialect c) "pgx");
      lazy -[app]; rewrite ?app_nil_r, <- ?app_assoc; reflexivity.
  - unfold upgradeV3.
    destruct (String.eqb (dialect c) "mysql"); lazy -[app];
      rewrite ?app_nil_r, <- ?app_assoc; reflexivity.
  - unfold upgradeV4.
    destruct (String.eqb (dialect c) "mysql"); lazy -[app];
      rewrite ?app_nil_r, <- ?app_assoc; reflexivity.
  - lazy -[app]; rewrite ?app_nil_r, <- ?app_assoc; reflexivity.
  - unfold upgradeV6.
    destruct (String.eqb (dialect c) "mysql"); lazy -[app];
      rewrite ?app_nil_r, <- ?app_assoc; reflexivity.
  - unfold upgradeV7.
    destruct (String.eqb (dialect c) "mysql"), cf; lazy -[app];
      rewrite ?app_nil_r, <- ?app_assoc; reflexivity.
Qed.


Lemma server_Exec_db_healthy query args w :
  faults w = [] ->
  Exec sql_DB query args w =
    match meaning query args (committed w) with
    | inl e => (Some e, w)
    | inr d => (None, set_committed d w)
    end.
Proof. intros Hf. unfold Exec, bind, next_fault. rewrite Hf. reflexivity. Qed.

Lemma server_Exec_tx_healthy query args w t :
  faults w = [] -> open_tx w = Some t ->
  Exec sql_Tx query args w =
    match meaning query args t with
    | inl e => (Some e, w)
    | inr d => (None, set_open_tx (Some d) w)
    end.
Proof. intros Hf Ht. unfold Exec, bind, next_fault. rewrite Hf. cbn. rewrite Ht. reflexivity. Qed.

Lemma server_QueryRow_healthy {A} (q : Server -> error + A) w :
  faults w = [] -> QueryRow q w = (q w, w).
Proof. intros Hf. unfold QueryRow, bind, next_fault. rewrite Hf. reflexivity. Qed.

Lemma server_Begin_healthy w :
  faults w = [] -> Begin w = (None, set_open_tx (Some (committed w)) w).
Proof. intros Hf. unfold Begin, bind, next_fault. rewrite Hf. reflexivity. Qed.

Lemma server_Commit_healthy w t :
  faults w = [] -> open_tx w = Some t ->
  Commit w = (None, set_open_tx None (set_committed t w)).
Proof. intros Hf Ht. unfold Commit, bind, next_fault. rewrite Hf. cbn. rewrite Ht. reflexivity. Qed.

Lemma setVersion_healthy c version w t rows :
  faults w = [] -> open_tx w = Some t -> whatsmeow_version t = Some rows ->
  setVersion c version w = (None, set_open_tx (Some (at_version version t)) w).
Proof.
  intros Hf Ht Hrows. unfold setVersion, or_return, bind.
  rewrite (server_Exec_tx_healthy _ _ _ t Hf Ht).
  unfold meaning at 1. cbn [String.eqb Ascii.eqb Bool.eqb deleteVersions_sql createVersionTable_sql].
  rewrite Hrows.
  erewrite server_Exec_tx_healthy; [|exact Hf|reflexivity].
  reflexivity.
Qed.

Lemma getVersion_healthy c w :
  faults w = [] ->
  getVersion c w =
    ((stored_version (committed w), None),
     set_committed {| whatsmeow_version := Some (default [] (whatsmeow_version (committed w)));
                      taken := taken (committed w) |} w).
Proof.
  intros Hf. unfold getVersion, bind.
  rewrite server_Exec_db_healthy by exact Hf.
  unfold meaning. cbn [String.eqb Ascii.eqb Bool.eqb createVersionTable_sql].
  rewrite server_QueryRow_healthy by exact Hf.
  unfold select_version, stored_version. cbn [committed set_committed whatsmeow_version].
  destruct (whatsmeow_version (committed w)) as [[|[v|] rows]|]; reflexivity.
Qed.

(** The loop of [Upgrade] with a healthy back-end: enough fuel runs it to its
    end. *)
Lemma upgrade_loop_healthy c fuel : forall version w rows,
  faults w = [] ->
  whatsmeow_version (committed w) = Some rows ->
  (0 <= version < Z.of_nat (length Upgrades))%Z ->
  (Z.to_nat (Z.of_nat (length Upgrades) - version) <= fuel)%nat ->
  upgrade_loop c fuel version w
  = (Returned None,
     set_open_tx None (set_committed (migrated c (contacts_first w) version (committed w)) w)).
Proof.
  assert (Hlen : Z.of_nat (length Upgrades) = 7%Z) by reflexivity.
  induction fuel as [|fuel IH]; intros version w rows Hf Hrows Hv Hfuel.
  { exfalso. lia. }
  cbn [upgrade_loop].
  destruct (Z.ltb_spec version (Z.of_nat (length Upgrades))) as [_|Hge]; [|lia].
  unfold bind at 1. rewrite server_Begin_healthy by exact Hf.
  destruct (Z.ltb_spec version 0) as [Hneg|_]; [lia|].
  destruct (Upgrades !! Z.to_nat version) as [migrateFunc|] eqn:Hm.
  2:{ apply lookup_ge_None in Hm. change (length Upgrades) with 7%nat in Hm. lia. }
  unfold bind at 1.
  rewrite (migration_healthy c _ (committed w) migrateFunc);
    [|eapply list_elem_of_lookup_2; exact Hm|exact Hf|reflexivity].
  unfold bind at 1.
  erewrite setVersion_healthy; [|exact Hf|reflexivity|exact Hrows].
  unfold bind at 1.
  erewrite server_Commit_healthy; [|exact Hf|reflexivity].
  cbn [set_open_tx set_committed committed open_tx faults foreign_keys contacts_first].
  destruct (Z.eq_dec (version + 1)%Z (Z.of_nat (length Upgrades))) as [Hlast|Hmore].
  - assert (Hloop : forall w', upgrade_loop c fuel (version + 1)%Z w' = (Returned None, w')).
    { intros w'. destruct fuel; cbn [upgrade_loop];
        destruct (Z.ltb_spec (version + 1)%Z (Z.of_nat (length Upgrades))); try lia; reflexivity. }
    rewrite Hloop. unfold migrated, at_version, log.
    cbn [taken whatsmeow_version].
    rewrite (drop_S (A:=upgradeFunc) _ _ _ Hm).
    rewrite drop_ge by (change (length Upgrades) with 7%nat; lia).
    cbn [map concat]. rewrite app_nil_r, Hlast. reflexivity.
  - erewrite IH; [|exact Hf|reflexivity|lia|lia].
    cbn [set_open_tx set_committed committed open_tx faults foreign_keys contacts_first].
    unfold migrated, at_version, log. cbn [taken whatsmeow_version].
    rewrite (drop_S (A:=upgradeFunc) _ _ _ Hm). cbn [map concat].
    replace (Z.to_nat (version + 1)%Z) with (S (Z.to_nat version)) by lia.
    rewrite app_assoc. reflexivity.
Qed.

Lemma check_foreign_keys_healthy c w :
  faults w = [] ->
  (String.eqb (dialect c) "sqlite" || String.eqb (dialect c) "mysql" = true ->
   foreign_keys w = true) ->
  check_foreign_keys c w = (None, w).
Proof.
  intros Hf Hfk. unfold check_foreign_keys.
  destruct (String.eqb (dialect c) "sqlite").
  - unfold bind. rewrite server_QueryRow_healthy by exact Hf.
    unfold pragma_foreign_keys. rewrite Hfk by reflexivity. reflexivity.
  - destruct (String.eqb (dialect c) "mysql"); [|reflexivity].
    unfold bind. rewrite server_QueryRow_healthy by exact Hf.
    unfold select_foreign_key_checks. rewrite Hfk by reflexivity. reflexivity.
Qed.

Lemma Upgrade_healthy_run c w :
  faults w = [] ->
  (String.eqb (dialect c) "sqlite" || String.eqb (dialect c) "mysql" = true ->
   foreign_keys w = true) ->
  (0 <= stored_version (committed w))%Z ->
  Upgrade c w =
    (Returned None,
     if (stored_version (committed w) <? Z.of_nat (length Upgrades))%Z
     then set_open_tx None
            (set_committed (migrated c (contacts_first w) (stored_version (committed w))
                              (committed w)) w)
     else w).
Proof.
  intros Hf Hfk Hv. unfold Upgrade.
  assert (Hlen : Z.of_nat (length Upgrades) = 7%Z) by reflexivity.
  unfold bind at 1. rewrite check_foreign_keys_healthy by assumption.
  unfold bind at 1. rewrite getVersion_healthy by exact Hf.
  destruct (Z.ltb_spec (stored_version (committed w)) (Z.of_nat (length Upgrades))) as [Hlt|Hge].
  - erewrite upgrade_loop_healthy; [|exact Hf|reflexivity| |].
    + reflexivity.
    + split; [exact Hv|exact Hlt].
    + lia.
  - assert (Hloop : forall fuel w',
              upgrade_loop c fuel (stored_version (committed w)) w' = (Returned None, w')).
    { intros fuel w'. destruct fuel; cbn [upgrade_loop];
        destruct (Z.ltb_spec (stored_version (committed w)) (Z.of_nat (length Upgrades)));
        try lia; reflexivity. }
    rewrite Hloop. f_equal.
    unfold stored_version in Hge.
    destruct w as [[[rows|] tl] o f fk cf]; cbn in *; [reflexivity|].
    change (Z.of_nat (length Upgrades)) with 7%Z in Hge. lia.
Qed.



(** X27. [Upgrade] asks whether foreign keys are enforced for the dialects
    [sqlite] and [mysql] only.  For those, a failure of the question is
    returned wrapped, and an answer of no is the error [foreign keys are not
    enabled]; in both cases nothing else is sent and nothing is changed, not
    even [whatsmeow_version] is created.  For any other dialect (such as
    [sqlite3]) nothing is asked: with a healthy back-end and a stored version
    that is not negative [Upgrade] returns without error whether foreign keys
    are enforced or not. *)
Theorem Upgrade_foreign_key_check c w :
  (String.eqb (dialect c) "sqlite" || String.eqb (dialect c) "mysql" = true ->
   (forall msg rest,
      faults w = Some msg :: rest ->
      Upgrade c w
      = (Returned (Some (Errorf_w "failed to check if foreign keys are enabled"
                           (DriverError msg))),
         set_faults rest w)) /\
   (foreign_keys w = false ->
    (faults w = [] -> Upgrade c w = (Returned (Some foreign_keys_not_enabled), w)) /\
    (forall rest,
       faults w = None :: rest ->
       Upgrade c w = (Returned (Some foreign_keys_not_enabled), set_faults rest w)))) /\
  (String.eqb (dialect c) "sqlite" || String.eqb (dialect c) "mysql" = false ->
   faults w = [] -> (0 <= stored_version (committed w))%Z ->
   exists w', Upgrade c w = (Returned None, w')).
Proof.
  split.
  - intros Hchecked.
    assert (Hcheck : forall f w0,
              faults w0 = f ->
              check_foreign_keys c w0
              = match f with
                | Some msg :: rest =>
                    (Some (Errorf_w "failed to check if foreign keys are enabled"
                             (DriverError msg)), set_faults rest w0)
                | None :: rest =>
                    (if foreign_keys w0 then None else Some foreign_keys_not_enabled,
                     set_faults rest w0)
                | [] => (if foreign_keys w0 then None else Some foreign_keys_not_enabled, w0)
                end).
    { intros f w0 Hf. unfold check_foreign_keys.
      destruct (String.eqb (dialect c) "sqlite").
      - unfold QueryRow, next_fault, pragma_foreign_keys, bind. cbn beta. rewrite Hf.
        destruct f as [|[msg|] rest]; cbn; try reflexivity;
          destruct (foreign_keys w0); reflexivity.
      - destruct (String.eqb (dialect c) "mysql"); [|discriminate Hchecked].
        unfold QueryRow, next_fault, select_foreign_key_checks, bind. cbn beta. rewrite Hf.
        destruct f as [|[msg|] rest]; cbn; try reflexivity;
          destruct (foreign_keys w0); reflexivity. }
    split.
    + intros msg rest Hf. unfold Upgrade. unfold bind at 1.
      rewrite (Hcheck _ _ Hf). reflexivity.
    + intros Hoff. split.
      * intros Hf. unfold Upgrade. unfold bind at 1.
        rewrite (Hcheck _ _ Hf), Hoff. reflexivity.
      * intros rest Hf. unfold Upgrade. unfold bind at 1.
        rewrite (Hcheck _ _ Hf), Hoff. reflexivity.
  - intros Hunchecked Hf Hv.
    rewrite Upgrade_healthy_run; [eexists; reflexivity|exact Hf| |exact Hv].
    rewrite Hunchecked. discriminate.
Qed.


Lemma meaning_plain query args d :
  plain query = true -> meaning query args d = inr (log d [query]).
Proof.
  unfold plain, meaning. intros Hp.
  destruct (String.eqb query createVersionTable_sql); [discriminate|].
  destruct (String.eqb query deleteVersions_sql); [discriminate|].
  destruct (String.eqb query insertVersion_sql); [discriminate|].
  reflexivity.
Qed.

Lemma sends_Exec query args :
  plain query = true -> sends (Exec sql_Tx query args) [query].
Proof.
  intros Hp w t Ht. unfold Exec, next_fault, bind. cbn beta.
  destruct (faults w) as [|[msg|] rest]; cbn.
  - rewrite Ht, meaning_plain by exact Hp. eauto 10.
  - eexists _, _. split; [reflexivity|]. repeat split. discriminate.
  - rewrite Ht, meaning_plain by exact Hp. eauto 10.
Qed.

Lemma sends_ret : sends (ret None) [].
Proof.
  intros w t Ht. eexists _, _. split; [reflexivity|]. repeat split.
  intros _. rewrite Ht. unfold log. rewrite app_nil_r. destruct t; reflexivity.
Qed.

Lemma log_log t a b : log (log t a) b = log t (a ++ b).
Proof. unfold log. cbn. rewrite app_assoc. reflexivity. Qed.

Lemma sends_or_return m k a b :
  sends m a -> sends k b -> sends (or_return m k) (a ++ b).
Proof.
  intros Hm Hk w t Ht. unfold or_return, bind.
  destruct (Hm w t Ht) as (r & w1 & -> & Hc & Hcf & Hr).
  destruct r as [e|].
  - eexists _, _. split; [reflexivity|]. repeat split; try assumption. discriminate.
  - destruct (Hk w1 (log t a) (Hr eq_refl)) as (r2 & w2 & -> & Hc2 & Hcf2 & Hr2).
    eexists _, _. split; [reflexivity|].
    split; [congruence|]. split; [congruence|].
    intros ->. rewrite Hr2 by reflexivity. rewrite log_log. reflexivity.
Qed.

Lemma sends_eq m a b : sends m a -> a = b -> sends m b.
Proof. intros H <-. exact H. Qed.

(** Off MySQL, whatever fails, a migration that returns no error has taken all
    its statements, and none touches the committed schema. *)
Lemma migration_sends c contactsFirst migrateFunc :
  String.eqb (dialect c) "mysql" = false ->
  migrateFunc ∈ Upgrades ->
  sends (migrateFunc c) (statements_of c contactsFirst migrateFunc).
Proof.
  intros Hd Hin. unfold Upgrades in Hin.
  repeat (apply elem_of_cons in Hin as [->|Hin]); [..|inversion Hin].
  - eapply sends_eq.
    + unfold upgradeV1. rewrite Hd.
      repeat (eapply sends_or_return; [apply sends_Exec; reflexivity|]).
      apply sends_ret.
    + unfold statements_of, upgradeV1. rewrite Hd. reflexivity.
  - apply (sends_eq _
             (["ALTER TABLE whatsmeow_device ADD COLUMN adv_account_sig_key bytea"]
              ++ [if Contains (dialect c) "postgres" || String.eqb (dialect c) "pgx"
                  then fillSigKeyPostgres else fillSigKeySQLite])%list).
    + unfold upgradeV2. rewrite Hd. cbn [andb].
      intros w t Ht. unfold bind.
      destruct (sends_Exec "ALTER TABLE whatsmeow_device ADD COLUMN adv_account_sig_key bytea"
                  [] eq_refl w t Ht) as (r & w1 & -> & Hc & Hcf & Hr).
      destruct r as [e|].
      * eexists _, _. split; [reflexivity|]. repeat split; try assumption. discriminate.
      * specialize (Hr eq_refl).
        destruct (Contains (dialect c) "postgres" || String.eqb (dialect c) "pgx").
        -- destruct (sends_Exec fillSigKeyPostgres [] eq_refl w1 _ Hr)
             as (r2 & w2 & -> & Hc2 & Hcf2 & Hr2).
           eexists _, _. split; [reflexivity|].
           split; [congruence|]. split; [congruence|].
           intros ->. rewrite Hr2 by reflexivity. rewrite log_log. reflexivity.
        -- destruct (sends_Exec fillSigKeySQLite [] eq_refl w1 _ Hr)
             as (r2 & w2 & -> & Hc2 & Hcf2 & Hr2).
           eexists _, _. split; [reflexivity|].
           split; [congruence|]. split; [congruence|].
           intros ->. rewrite Hr2 by reflexivity. rewrite log_log. reflexivity.
    + unfold statements_of, upgradeV2. rewrite Hd.
      destruct (Contains (dialect c) "postgres" || String.eqb (dialect c) "pgx"); reflexivity.
  - eapply sends_eq.
    + unfold upgradeV3. rewrite Hd. apply sends_Exec. reflexivity.
    + unfold statements_of, upgradeV3. rewrite Hd. reflexivity.
  - eapply sends_eq.
    + unfold upgradeV4. rewrite Hd. apply sends_Exec. reflexivity.
    + unfold statements_of, upgradeV4. rewrite Hd. reflexivity.
  - eapply sends_eq.
    + unfold upgradeV5. apply sends_Exec. reflexivity.
    + reflexivity.
  - eapply sends_eq.
    + unfold upgradeV6. rewrite Hd. apply sends_Exec. reflexivity.
    + unfold statements_of, upgradeV6. rewrite Hd. reflexivity.
  - eapply sends_eq.
    + unfold upgradeV7. rewrite Hd. apply sends_ret.
    + unfold statements_of, upgradeV7. rewrite Hd. reflexivity.
Qed.


Lemma server_Begin_cases w :
  (exists e w', Begin w = (Some e, w') /\ committed w' = committed w /\
     contacts_first w' = contacts_first w) \/
  (exists w', Begin w = (None, w') /\ committed w' = committed w /\
     contacts_first w' = contacts_first w /\ open_tx w' = Some (committed w)).
Proof.
  unfold Begin, next_fault, bind. cbn beta.
  destruct (faults w) as [|[msg|] rest]; cbn.
  - right. eauto 10.
  - left. eauto 10.
  - right. eauto 10.
Qed.

Lemma server_Exec_tx_cases query args w :
  exists r w', Exec sql_Tx query args w = (r, w') /\
    committed w' = committed w /\ contacts_first w' = contacts_first w /\
    (r = None ->
     exists t t', open_tx w = Some t /\ meaning query args t = inr t' /\
                  open_tx w' = Some t').
Proof.
  unfold Exec, next_fault, bind. cbn beta.
  assert (Hrun : forall w0,
            exists r w', match open_tx w0 with
                         | Some t => match meaning query args t with
                                     | inl e => (Some e, w0)
                                     | inr d => (None, set_open_tx (Some d) w0)
                                     end
                         | None => (Some tx_done, w0)
                         end = (r, w') /\
              committed w' = committed w0 /\ contacts_first w' = contacts_first w0 /\
              (r = None ->
               exists t t', open_tx w0 = Some t /\ meaning query args t = inr t' /\
                            open_tx w' = Some t')).
  { intros w0. destruct (open_tx w0) as [t|] eqn:Ht.
    - destruct (meaning query args t) as [e|d] eqn:Hmean.
      + eexists _, _. split; [reflexivity|]. repeat split. discriminate.
      + eexists _, _. split; [reflexivity|]. repeat split. intros _. eauto.
    - eexists _, _. split; [reflexivity|]. repeat split. discriminate. }
  destruct (faults w) as [|[msg|] rest]; cbn.
  - apply Hrun.
  - eexists _, _. split; [reflexivity|]. repeat split. discriminate.
  - destruct (Hrun (set_faults rest w)) as (r & w' & Heq & Hc & Hcf & Hr).
    exists r, w'. split; [exact Heq|]. split; [exact Hc|]. split; [exact Hcf|]. exact Hr.
Qed.

Lemma setVersion_cases c version w t :
  open_tx w = Some t ->
  exists r w', setVersion c version w = (r, w') /\
    committed w' = committed w /\ contacts_first w' = contacts_first w /\
    (r = None -> open_tx w' = Some (at_version version t)).
Proof.
  intros Ht. unfold setVersion, or_return, bind.
  destruct (server_Exec_tx_cases deleteVersions_sql [] w) as (r & w1 & -> & Hc & Hcf & Hr).
  destruct r as [e|].
  { eexists _, _. split; [reflexivity|]. repeat split; try assumption. discriminate. }
  destruct (Hr eq_refl) as (t0 & t1 & Ht0 & Hmean & Ht1).
  rewrite Ht in Ht0. injection Ht0 as <-.
  destruct (server_Exec_tx_cases insertVersion_sql [version] w1) as (r & w2 & -> & Hc2 & Hcf2 & Hr2).
  eexists _, _. split; [reflexivity|]. split; [congruence|]. split; [congruence|].
  intros ->. destruct (Hr2 eq_refl) as (t2 & t3 & Ht2 & Hmean2 & Ht3).
  rewrite Ht1 in Ht2. injection Ht2 as <-. rewrite Ht3. f_equal.
  unfold meaning in Hmean, Hmean2.
  cbn [String.eqb Ascii.eqb Bool.eqb deleteVersions_sql createVersionTable_sql
       insertVersion_sql] in Hmean, Hmean2.
  destruct (whatsmeow_version t); [|discriminate].
  injection Hmean as <-. cbn in Hmean2. injection Hmean2 as <-. reflexivity.
Qed.

Lemma server_Commit_cases w t :
  open_tx w = Some t ->
  (exists e w', Commit w = (Some e, w') /\ committed w' = committed w /\
     contacts_first w' = contacts_first w) \/
  (exists w', Commit w = (None, w') /\ committed w' = t /\
     contacts_first w' = contacts_first w /\ open_tx w' = None).
Proof.
  intros Ht. unfold Commit, next_fault, bind. cbn beta.
  destruct (faults w) as [|[msg|] rest]; cbn; rewrite ?Ht.
  - right. eauto 10.
  - left. eauto 10.
  - right. eauto 10.
Qed.

Lemma advanced_O c contactsFirst u d : advanced c contactsFirst u 0 d d.
Proof. split; [|reflexivity]. cbn. rewrite app_nil_r. reflexivity. Qed.

(** The loop of [Upgrade] under any schedule of failures. *)
Lemma upgrade_loop_cases c :
  String.eqb (dialect c) "mysql" = false ->
  forall fuel u w,
    (Z.to_nat (7 - u) <= fuel)%nat ->
    exists j r w',
      upgrade_loop c fuel u w = (r, w') /\
      advanced c (contacts_first w) u j (committed w) (committed w') /\
      contacts_first w' = contacts_first w /\
      (r = Returned None ->
       (7 <= u + Z.of_nat j)%Z /\
       open_tx w' = match j with O => open_tx w | S _ => None end).
Proof.
  intros Hd.
  assert (Hlen : Z.of_nat (length Upgrades) = 7%Z) by reflexivity.
  induction fuel as [|fuel IH]; intros u w Hfuel.
  { exists 0%nat. cbn [upgrade_loop].
    destruct (Z.ltb_spec u (Z.of_nat (length Upgrades))) as [Hlt|Hge]; [lia|].
    eexists _, _. split; [reflexivity|]. split; [apply advanced_O|].
    split; [reflexivity|]. intros _. split; [lia|reflexivity]. }
  cbn [upgrade_loop].
  destruct (Z.ltb_spec u (Z.of_nat (length Upgrades))) as [Hlt|Hge].
  2:{ exists 0%nat. eexists _, _. split; [reflexivity|]. split; [apply advanced_O|].
      split; [reflexivity|]. intros _. split; [lia|reflexivity]. }
  unfold bind at 1.
  destruct (server_Begin_cases w) as [(e & w1 & -> & Hc1 & Hcf1)|(w1 & -> & Hc1 & Hcf1 & Ho1)].
  { exists 0%nat. eexists _, _. split; [reflexivity|].
    rewrite Hc1. split; [apply advanced_O|]. split; [exact Hcf1|]. discriminate. }
  destruct (Z.ltb_spec u 0) as [Hneg|Hpos].
  { exists 0%nat. eexists _, _. split; [reflexivity|].
    rewrite Hc1. split; [apply advanced_O|]. split; [exact Hcf1|]. discriminate. }
  destruct (Upgrades !! Z.to_nat u) as [migrateFunc|] eqn:Hm.
  2:{ apply lookup_ge_None in Hm. change (length Upgrades) with 7%nat in Hm. lia. }
  unfold bind at 1.
  destruct (migration_sends c (contacts_first w) migrateFunc Hd
              (list_elem_of_lookup_2 _ _ _ Hm) w1 _ Ho1)
    as (r & w2 & -> & Hc2 & Hcf2 & Hr2).
  destruct r as [e|].
  { exists 0%nat. eexists _, _. split; [reflexivity|].
    cbn [Rollback bind ret set_open_tx committed contacts_first].
    rewrite Hc2, Hc1. split; [apply advanced_O|]. split; [congruence|]. discriminate. }
  specialize (Hr2 eq_refl).
  unfold bind at 1.
  destruct (setVersion_cases c (u + 1) w2 _ Hr2) as (r & w3 & -> & Hc3 & Hcf3 & Hr3).
  destruct r as [e|].
  { exists 0%nat. eexists _, _. split; [reflexivity|].
    rewrite Hc3, Hc2, Hc1. split; [apply advanced_O|]. split; [congruence|]. discriminate. }
  specialize (Hr3 eq_refl).
  unfold bind at 1.
  destruct (server_Commit_cases w3 _ Hr3) as [(e & w4 & -> & Hc4 & Hcf4)|(w4 & -> & Hc4 & Hcf4 & Ho4)].
  { exists 0%nat. eexists _, _. split; [reflexivity|].
    rewrite Hc4, Hc3, Hc2, Hc1. split; [apply advanced_O|]. split; [congruence|]. discriminate. }
  destruct (IH (u + 1)%Z w4 ltac:(lia)) as (j & r & w5 & Hloop & [Htaken Hver] & Hcf5 & Hr5).
  exists (S j), r, w5. split; [exact Hloop|].
  assert (Hcf : contacts_first w4 = contacts_first w) by congruence.
  split; [|split; [congruence|]].
  - split.
    + rewrite Htaken, Hc4. cbn [at_version log taken].
      rewrite (drop_S (A:=upgradeFunc) _ _ _ Hm). cbn [take map concat].
      replace (Z.to_nat (u + 1)) with (S (Z.to_nat u)) by lia.
      rewrite Hcf, app_assoc. reflexivity.
    + split; [lia|].
      destruct j as [|j'].
      * split; [lia|]. rewrite Hver, Hc4. cbn [at_version whatsmeow_version].
        first [reflexivity | repeat f_equal; lia].
      * destruct Hver as (_ & Hle & Hver). split; [lia|]. rewrite Hver.
        replace (u + Z.of_nat (S (S j')))%Z with (u + 1 + Z.of_nat (S j'))%Z by lia.
        reflexivity.
  - intros Hr. destruct (Hr5 Hr) as [Hdone Hopen]. split; [lia|].
    destruct j; [rewrite Hopen; exact Ho4|exact Hopen].
Qed.

Lemma check_foreign_keys_cases c w :
  exists r w', check_foreign_keys c w = (r, w') /\
    committed w' = committed w /\ contacts_first w' = contacts_first w /\
    open_tx w' = open_tx w.
Proof.
  unfold check_foreign_keys.
  destruct (String.eqb (dialect c) "sqlite");
    [|destruct (String.eqb (dialect c) "mysql")].
  - unfold QueryRow, next_fault, pragma_foreign_keys, bind. cbn beta.
    destruct (faults w) as [|[msg|] rest]; cbn;
      try destruct (foreign_keys w); cbn; eauto 10.
  - unfold QueryRow, next_fault, select_foreign_key_checks, bind. cbn beta.
    destruct (faults w) as [|[msg|] rest]; cbn;
      try destruct (foreign_keys w); cbn; eauto 10.
  - eexists _, _. split; [reflexivity|]. auto.
Qed.

Lemma stored_version_created d : stored_version (created d) = stored_version d.
Proof.
  unfold stored_version, created. cbn.
  destruct (whatsmeow_version d) as [[|[v|] rows]|]; reflexivity.
Qed.

Lemma Exec_create_cases w :
  (exists e w', Exec sql_DB createVersionTable_sql [] w = (Some e, w') /\
     committed w' = committed w /\ contacts_first w' = contacts_first w /\
     open_tx w' = open_tx w) \/
  (exists w', Exec sql_DB createVersionTable_sql [] w = (None, w') /\
     committed w' = created (committed w) /\ contacts_first w' = contacts_first w /\
     open_tx w' = open_tx w).
Proof.
  unfold Exec, next_fault, bind. cbn beta.
  destruct (faults w) as [|[msg|] rest]; cbn.
  - right. eauto 10.
  - left. eauto 10.
  - right. eauto 10.
Qed.

Lemma QueryRow_version_cases w :
  exists r w', QueryRow select_version w = (r, w') /\
    committed w' = committed w /\ contacts_first w' = contacts_first w /\
    open_tx w' = open_tx w /\
    match r with
    | inr version => version = stored_version (committed w)
    | inl _ => True
    end.
Proof.
  assert (Hsel : forall w0, match select_version w0 with
                            | inr version => version = stored_version (committed w0)
                            | inl _ => True
                            end).
  { intros w0. unfold select_version, stored_version.
    destruct (whatsmeow_version (committed w0)) as [[|[v|] rows]|]; auto. }
  unfold QueryRow, next_fault, bind. cbn beta.
  destruct (faults w) as [|[msg|] rest]; cbn.
  - eexists _, _. split; [reflexivity|]. repeat split. apply Hsel.
  - eexists _, _. split; [reflexivity|]. repeat split.
  - eexists _, _. split; [reflexivity|]. repeat split.
    apply (Hsel (set_faults rest w)).
Qed.

(** [getVersion] under any schedule of failures. *)
Lemma getVersion_cases c w :
  (exists e w', getVersion c w = (((-1)%Z, Some e), w') /\ committed w' = committed w /\
     contacts_first w' = contacts_first w /\ open_tx w' = open_tx w) \/
  (exists u w', getVersion c w = ((u, None), w') /\
     (u = stored_version (committed w) \/ u = 0%Z) /\
     committed w' = created (committed w) /\
     contacts_first w' = contacts_first w /\ open_tx w' = open_tx w).
Proof.
  destruct (Exec_create_cases w) as [(e & w1 & He & Hc & Hcf & Ho)|(w1 & He & Hc & Hcf & Ho)].
  { left. unfold getVersion, bind. rewrite He. eexists _, _. split; [reflexivity|]. auto. }
  right. unfold getVersion. unfold bind at 1. rewrite He. unfold bind at 1.
  destruct (QueryRow_version_cases w1) as (r & w2 & -> & Hc2 & Hcf2 & Ho2 & Hr).
  destruct r as [e|version].
  - eexists _, _. split; [reflexivity|]. split; [right; reflexivity|].
    repeat split; congruence.
  - eexists _, _. split; [reflexivity|]. split.
    + left. rewrite Hr, Hc. apply stored_version_created.
    + repeat split; congruence.
Qed.

(** [Upgrade] under any schedule of failures, on a dialect other than
    [mysql]. *)
Lemma Upgrade_cases c w :
  String.eqb (dialect c) "mysql" = false ->
  exists (u : Z) (j : nat) r w',
    Upgrade c w = (r, w') /\
    (u = stored_version (committed w) \/ u = 0%Z) /\
    taken (committed w')
    = taken (committed w)
      ++ concat (map (statements_of c (contacts_first w))
                     (take j (drop (Z.to_nat u) Upgrades))) /\
    match j with
    | O => stored_version (committed w') = stored_version (committed w)
    | S _ => (0 <= u)%Z /\ (u + Z.of_nat j <= 7)%Z /\
             whatsmeow_version (committed w') = Some [Some (u + Z.of_nat j)%Z]
    end /\
    (r = Returned None ->
     (7 <= u + Z.of_nat j)%Z /\ (open_tx w = None -> open_tx w' = None)).
Proof.
  intros Hd. unfold Upgrade. unfold bind at 1.
  destruct (check_foreign_keys_cases c w) as (r & w1 & -> & Hc1 & Hcf1 & Ho1).
  destruct r as [e|].
  { exists (stored_version (committed w)), 0%nat. eexists _, _.
    split; [reflexivity|]. split; [left; reflexivity|].
    rewrite Hc1. cbn. rewrite app_nil_r.
    split; [reflexivity|]. split; [reflexivity|]. discriminate. }
  unfold bind at 1.
  destruct (getVersion_cases c w1)
    as [(e & w2 & -> & Hc2 & Hcf2 & Ho2)|(u & w2 & -> & Hu & Hc2 & Hcf2 & Ho2)].
  { exists (stored_version (committed w)), 0%nat. eexists _, _.
    split; [reflexivity|]. split; [left; reflexivity|].
    rewrite Hc2, Hc1. cbn. rewrite app_nil_r.
    split; [reflexivity|]. split; [reflexivity|]. discriminate. }
  destruct (upgrade_loop_cases c Hd (Z.to_nat (Z.of_nat (length Upgrades) - u)) u w2)
    as (j & r & w3 & Hloop & [Htaken Hver] & Hcf3 & Hr3).
  { change (Z.of_nat (length Upgrades)) with 7%Z. lia. }
  exists u, j, r, w3. split; [exact Hloop|].
  split; [rewrite <- Hc1; exact Hu|].
  split; [|split].
  - rewrite Htaken, Hc2, Hc1, Hcf2, Hcf1. reflexivity.
  - destruct j as [|j'].
    + unfold stored_version. rewrite Hver, Hc2, Hc1.
      apply stored_version_created.
    + exact Hver.
  - intros Hr. destruct (Hr3 Hr) as [Hdone Hopen]. split; [exact Hdone|].
    intros Hnone. destruct j; [|exact Hopen]. rewrite Hopen. congruence.
Qed.

(** X28. On a dialect other than [mysql] (one whose transactions cover schema
    statements), whatever the back-end fails, [Upgrade] changes the committed
    schema by whole migrations only: it adds the statements of some number of
    consecutive migrations, each complete, starting at the version that
    [getVersion] read, which is the stored version, or 0 where the question
    failed.  If no migration was committed, the stored version is as before;
    otherwise the table holds the one row of the last committed migration,
    which is no later than 7.  A call that returns without error has reached
    version 7 or found a version of at least 7. *)
Theorem Upgrade_whole_migrations c w :
  String.eqb (dialect c) "mysql" = false ->
  exists (u : Z) (j : nat) r w',
    Upgrade c w = (r, w') /\
    (u = stored_version (committed w) \/ u = 0%Z) /\
    taken (committed w')
    = taken (committed w)
      ++ concat (map (statements_of c (contacts_first w))
                     (take j (drop (Z.to_nat u) Upgrades))) /\
    match j with
    | O => stored_version (committed w') = stored_version (committed w)
    | S _ => (0 <= u)%Z /\ (u + Z.of_nat j <= 7)%Z /\
             whatsmeow_version (committed w') = Some [Some (u + Z.of_nat j)%Z]
    end /\
    (r = Returned None -> (7 <= u + Z.of_nat j)%Z).
Proof.
  intros Hd.
  destruct (Upgrade_cases c w Hd) as (u & j & r & w' & Hrun & Hu & Htaken & Hver & Hr).
  exists u, j, r, w'. repeat split; try assumption.
  intros Hnil. apply Hr, Hnil.
Qed.



(** X30. When [Upgrade] leaves its transaction open.  On a dialect other than
    [mysql] a call that returns without error leaves no transaction open (if
    none was open before).  But a stored version below 0 makes [Upgrade]
    panic on [Upgrades[version]] with the transaction begun and still open;
    and a failure of either statement of [setVersion] is returned with no
    rollback: shown for a database at version 6, where [upgradeV7] sends
    nothing, the call returns the error with the transaction still open and
    nothing committed. *)
Theorem Upgrade_open_transaction c w :
  String.eqb (dialect c) "mysql" = false ->
  (forall r w',
     Upgrade c w = (r, w') -> r = Returned None -> open_tx w = None -> open_tx w' = None) /\
  (faults w = [] ->
   (String.eqb (dialect c) "sqlite" = true -> foreign_keys w = true) ->
   (stored_version (committed w) < 0)%Z ->
   exists w',
     Upgrade c w = (Panicked index_out_of_range, w') /\
     open_tx w' = Some (committed w) /\ committed w' = committed w) /\
  (forall msg rest,
     String.eqb (dialect c) "sqlite" = false ->
     stored_version (committed w) = 6%Z ->
     faults w = [None; None; None; Some msg] ++ rest \/
     faults w = [None; None; None; None; Some msg] ++ rest ->
     exists w' t,
       Upgrade c w = (Returned (Some (DriverError msg)), w') /\
       open_tx w' = Some t /\ committed w' = committed w /\ faults w' = rest).
Proof.
  intros Hd. split; [|split].
  - intros r w' Hrun Hr Hnone.
    destruct (Upgrade_cases c w Hd) as (u & j & r0 & w0 & Hrun0 & _ & _ & _ & Hclean).
    rewrite Hrun in Hrun0. injection Hrun0 as <- <-.
    apply (Hclean Hr). exact Hnone.
  - intros Hf Hfk Hneg.
    assert (Hcreated : created (committed w) = committed w).
    { unfold stored_version in Hneg. unfold created.
      destruct (committed w) as [[rows|] tl]; cbn in *; [reflexivity|lia]. }
    unfold Upgrade. unfold bind at 1.
    rewrite check_foreign_keys_healthy; [|exact Hf|].
    2:{ rewrite Hd, orb_false_r. exact Hfk. }
    unfold bind at 1. rewrite getVersion_healthy by exact Hf.
    fold (created (committed w)). rewrite Hcreated.
    destruct (Z.to_nat (Z.of_nat (length Upgrades) - stored_version (committed w)))
      as [|fuel] eqn:Hfuel.
    { change (Z.of_nat (length Upgrades)) with 7%Z in Hfuel. lia. }
    cbn [upgrade_loop].
    destruct (Z.ltb_spec (stored_version (committed w)) (Z.of_nat (length Upgrades)))
      as [_|Hge]; [|change (Z.of_nat (length Upgrades)) with 7%Z in Hge; lia].
    unfold bind at 1. rewrite server_Begin_healthy by exact Hf.
    destruct (Z.ltb_spec (stored_version (committed w)) 0) as [_|Hge]; [|lia].
    eexists. split; [reflexivity|]. split; reflexivity.
  - intros msg rest Hs Hv Hf.
    destruct w as [[tv tl] o f fk cf]. cbn in Hv, Hf.
    unfold stored_version in Hv. cbn in Hv.
    destruct tv as [[|[v|] rows]|]; try discriminate Hv. subst v.
    unfold Upgrade, check_foreign_keys. rewrite Hs, Hd.
    destruct Hf as [-> | ->].
    + lazy -[upgradeV7]. unfold upgradeV7. rewrite Hd. lazy.
      eexists _, _. split; [reflexivity|]. repeat split.
    + lazy -[upgradeV7]. unfold upgradeV7. rewrite Hd. lazy.
      eexists _, _. split; [reflexivity|]. repeat split.
Qed.


Lemma Upgrade_foreign_key_check_witness :
  Upgrade (container "mysql") (server empty_Schema [])
  = (Returned (Some foreign_keys_not_enabled), server empty_Schema []) /\
  Upgrade (container "sqlite") (server empty_Schema [Some "database is locked"])
  = (Returned (Some (Errorf_w "failed to check if foreign keys are enabled"
                       (DriverError "database is locked"))),
     server empty_Schema []) /\
  exists w', Upgrade (container "sqlite3") (server empty_Schema []) = (Returned None, w').
Proof.
  split; [|split].
  - destruct (Upgrade_foreign_key_check (container "mysql") (server empty_Schema []))
      as [Hchecked _].
    destruct (Hchecked eq_refl) as [_ Hoff].
    destruct (Hoff eq_refl) as [Hnow _]. exact (Hnow eq_refl).
  - destruct (Upgrade_foreign_key_check (container "sqlite")
                (server empty_Schema [Some "database is locked"])) as [Hchecked _].
    destruct (Hchecked eq_refl) as [Hfail _].
    exact (Hfail "database is locked" [] eq_refl).
  - destruct (Upgrade_foreign_key_check (container "sqlite3") (server empty_Schema []))
      as [_ Hunchecked].
    apply Hunchecked; [reflexivity|reflexivity|cbn; lia].
Defined.

Lemma Upgrade_whole_migrations_witness :
  exists (u : Z) (j : nat) r w',
    Upgrade (container "postgres")
      (server (schema_at 5) [None; None; None; None; None; None; Some "connection lost"])
    = (r, w') /\
    (u = 5%Z \/ u = 0%Z) /\
    taken (committed w')
    = concat (map (statements_of (container "postgres") true)
                  (take j (drop (Z.to_nat u) Upgrades))) /\
    match j with
    | O => stored_version (committed w') = 5%Z
    | S _ => (0 <= u)%Z /\ (u + Z.of_nat j <= 7)%Z /\
             whatsmeow_version (committed w') = Some [Some (u + Z.of_nat j)%Z]
    end /\
    (r = Returned None -> (7 <= u + Z.of_nat j)%Z).
Proof.
  exact (Upgrade_whole_migrations (container "postgres")
           (server (schema_at 5)
              [None; None; None; None; None; None; Some "connection lost"]) eq_refl).
Defined.


Lemma Upgrade_open_transaction_witness :
  (exists w',
     Upgrade (container "sqlite3") (server (schema_at (-1)) [])
     = (Panicked index_out_of_range, w') /\
     open_tx w' = Some (schema_at (-1)) /\ committed w' = schema_at (-1)) /\
  (exists w' t,
     Upgrade (container "postgres")
       (server (schema_at 6) [None; None; None; None; Some "syntax error at or near )"])
     = (Returned (Some (DriverError "syntax error at or near )")), w') /\
     open_tx w' = Some t /\ committed w' = schema_at 6 /\ faults w' = []).
Proof.
  split.
  - destruct (Upgrade_open_transaction (container "sqlite3")
                (server (schema_at (-1)) []) eq_refl) as (_ & Hpanic & _).
    apply Hpanic; [reflexivity|discriminate|cbn; lia].
  - destruct (Upgrade_open_transaction (container "postgres")
                (server (schema_at 6)
                   [None; None; None; None; Some "syntax error at or near )"]) eq_refl)
      as (_ & _ & Hleft).
    apply (Hleft "syntax error at or near )" []); [reflexivity|reflexivity|].
    right. reflexivity.
Defined.

End Upgrading.
